(** * roo-cli-server: codebase indexing and retrieval

    A shallow embedding of the indexing and retrieval core of
    [roo-cli-server] (chunker, chunk identifier, file walker, indexer,
    retriever, context assembler and the context policy of
    [sendMessage]), followed by the properties the specification states
    about it.

    Conventions.
    - JavaScript numbers that hold offsets, sizes and counters are [Z];
      JavaScript strings are [string], one character per code unit, so
      [text.length] is [String.length] read in [Z].
    - An [async] function is a computation in the monad [M]: it reads
      and updates the process-wide variables (with the contents of the
      vector store and the console) and resolves ([Ok]) or throws
      ([Err] with the message of the error).
    - What the process obtains from outside (file system, [path],
      [crypto], configuration file, embedding service, availability of
      the vector store, clock, chat model) is an environment [Env.t];
      within one request its answers are functions of the request.
    - The only unbounded loop, the one of [splitIntoChunks], carries a
      step budget; the file walker is bounded by the nesting depth the
      file system admits.
    - The first part holds every definition, the second every lemma. *)

From Stdlib Require Import ZArith Lia Ascii.
From Stdlib Require String DecimalString DecimalZ QArith.
From stdpp Require Import base gmap strings list.

Import ListNotations.
Local Open Scope Z_scope.

(* ===================================================================== *)
(** ** JavaScript string primitives used by the server *)
(* ===================================================================== *)

Module JS.

(** [s.length]. *)
Definition length (s : string) : Z := Z.of_nat (String.length s).

(** Relative index resolution shared by [String.prototype.slice] and
    [Array.prototype.slice]: a negative index counts from the end, and
    the result is clamped to [0 .. len]. *)
Definition clampIndex (len i : Z) : Z :=
  if i <? 0 then Z.max (len + i) 0 else Z.min i len.

(** [s.slice(start, end)]. *)
Definition slice (s : string) (start end_ : Z) : string :=
  let len := length s in
  let from := clampIndex len start in
  let to := clampIndex len end_ in
  String.substring (Z.to_nat from) (Z.to_nat (Z.max (to - from) 0)) s.

(** [s.slice(start)]. *)
Definition sliceFrom (s : string) (start : Z) : string :=
  slice s start (length s).

(** [xs.slice(start, end)] on arrays, for non-negative indices. *)
Definition arraySlice {A} (xs : list A) (start end_ : nat) : list A :=
  take (end_ - start)%nat (drop start xs).

(** [xs.join(sep)]. *)
Fixpoint join (sep : string) (xs : list string) : string :=
  match xs with
  | [] => ""
  | [x] => x
  | x :: rest => x +:+ sep +:+ join sep rest
  end.

(** [s.repeat(n)]. *)
Fixpoint repeat (s : string) (n : nat) : string :=
  match n with
  | O => ""
  | S n' => s +:+ repeat s n'
  end.

(** [s.startsWith(p)]. *)
Definition startsWith (p s : string) : bool := String.prefix p s.

(** Truthiness of a string value: only the empty string is falsy. *)
Definition truthy (s : string) : bool :=
  match s with
  | EmptyString => false
  | String _ _ => true
  end.

(** Truthiness of a nullable string: [null], [undefined] and the
    empty string are falsy. *)
Definition truthyOpt (s : option string) : bool :=
  match s with
  | None => false
  | Some s => truthy s
  end.

(** Template-literal rendering of an integer-valued number, for the
    integers below [10^21] in absolute value (from there on JavaScript
    prints an exponent). *)
Definition showInt (z : Z) : string :=
  DecimalString.NilZero.string_of_int (Z.to_int z).

(** [xs.includes(x)] on an array of strings. *)
Definition includes (xs : list string) (x : string) : bool :=
  bool_decide (x ∈ xs).

(** The line feed character. *)
Definition nl : string := String "010"%char EmptyString.

(** [s.includes(sub)] on strings. *)
Definition stringIncludes (sub s : string) : bool :=
  match String.index 0 sub s with
  | Some _ => true
  | None => false
  end.

(** [a || b] on nullable strings. *)
Definition orElse (a b : option string) : option string :=
  if truthyOpt a then a else b.

(** Index sequence of [for (let i = 0; i < stop; i += step)], for a
    positive [step]. *)
Definition forRange (stop step : nat) : list nat :=
  map (fun j => (j * step)%nat) (seq 0 ((stop + step - 1) / step)%nat).

End JS.

(* ===================================================================== *)
(** ** Configuration constants *)
(* ===================================================================== *)

Record IndexingConfig := {
  collectionName : string;
  vectorSize : Z;
  maxFileSize : Z;
  maxChunkSize : Z;
  overlapSize : Z
}.

Definition INDEXING_CONFIG : IndexingConfig := {|
  collectionName := "roo-cli-codebase";
  vectorSize := 1536;
  maxFileSize := 1024 * 1024;
  maxChunkSize := 1000;
  overlapSize := 200
|}.

Definition CODE_EXTENSIONS : list string :=
  [".js"; ".ts"; ".jsx"; ".tsx"; ".py"; ".java"; ".cpp"; ".c"; ".cs"; ".php";
   ".rb"; ".go"; ".rs"; ".swift"; ".kt"; ".scala"; ".html"; ".css"; ".scss";
   ".json"; ".yaml"; ".yml"; ".toml"; ".md"; ".txt"; ".sh"; ".bash"; ".zsh"].

(* ===================================================================== *)
(** ** Chunker *)
(* ===================================================================== *)

Module Chunker.

(** The [while] loop of [splitIntoChunks].  The loop is not bounded by
    the source, so the embedding carries a step budget: [None] means
    that the budget ran out before the loop left, [Some chunks] is the
    value the function returns. *)
Fixpoint chunkLoop (fuel : nat) (text : string) (maxChunkSize overlapSize : Z)
         (start : Z) (chunks : list string) : option (list string) :=
  match fuel with
  | O => None
  | S fuel' =>
      if start <? JS.length text then
        let end_ := Z.min (start + maxChunkSize) (JS.length text) in
        let chunk := JS.slice text start end_ in
        let chunks := chunks ++ [chunk] in
        if end_ =? JS.length text then Some chunks
        else chunkLoop fuel' text maxChunkSize overlapSize
                       (end_ - overlapSize) chunks
      else Some chunks
  end.

Definition splitIntoChunks (fuel : nat) (text : string)
           (maxChunkSize overlapSize : Z) : option (list string) :=
  chunkLoop fuel text maxChunkSize overlapSize 0 [].

(** The call [splitIntoChunks(content)] with the default parameters. *)
Definition splitIntoChunksDefault (fuel : nat) (text : string) :=
  splitIntoChunks fuel text (maxChunkSize INDEXING_CONFIG)
                  (overlapSize INDEXING_CONFIG).

(** [splitIntoChunks(content)] as [indexFile] calls it.  With the
    constants of [INDEXING_CONFIG] the loop leaves within
    [content.length + 1] iterations (see [splitIntoChunks_terminates]),
    so the second branch is never taken. *)
Definition chunksOfContent (content : string) : list string :=
  match splitIntoChunksDefault (S (String.length content)) content with
  | Some chunks => chunks
  | None => []
  end.

(** *** The specification's words *)

(** Ceiling of a quotient with positive divisor. *)
Definition ceilDiv (a b : Z) : Z := (a + b - 1) / b.

(** Number of chunks promised by the specification. *)
Definition specChunkCount (len windowSize overlapSize : Z) : Z :=
  if len =? 0 then 0
  else if len <=? windowSize then 1
  else ceilDiv (len - overlapSize) (windowSize - overlapSize).

(** The [k]-th window of the stated algorithm: it starts at
    [k * (windowSize - overlapSize)] and is [windowSize] long, clamped
    to the end of the text. *)
Definition specWindow (text : string) (windowSize overlapSize : Z)
           (k : nat) : string :=
  let start := Z.of_nat k * (windowSize - overlapSize) in
  JS.slice text start (Z.min (start + windowSize) (JS.length text)).

Definition specChunks (text : string) (windowSize overlapSize : Z)
  : list string :=
  map (specWindow text windowSize overlapSize)
      (seq 0 (Z.to_nat (specChunkCount (JS.length text) windowSize overlapSize))).

End Chunker.

(* ===================================================================== *)
(** ** Results, data model and process state *)
(* ===================================================================== *)

(** Outcome of an [async] call: the resolved value, or the [message] of
    the [Error] it threw. *)
Inductive Result (A : Type) : Type :=
| Ok (a : A)
| Err (message : string).
Arguments Ok {A} a.
Arguments Err {A} message.

Definition Embedding : Type := list QArith_base.Q.

Module Stats.
Record t := { isDirectory : bool; isFile : bool; size : Z }.
End Stats.

Module Config.
Record t := {
  provider : string;
  apiKey : option string;
  model : string;
  temperature : QArith_base.Q;
  maxTokens : Z;
  codebasePath : option string;
  openaiApiKey : option string;
  qdrantApiKey : option string
}.
End Config.

Module Payload.
Record t := {
  filePath : string;
  codeChunk : string;
  startLine : Z;
  endLine : Z;
  codebasePath : string;
  timestamp : string
}.
End Payload.

Module Point.
(** [vector] is [None] when [embeddings[0]] was [undefined]. *)
Record t := {
  id : string;
  vector : option Embedding;
  payload : Payload.t
}.
End Point.

Module Filter.
(** [{ key, match: { value } }] *)
Record condition := { key : string; matchValue : string }.
(** [{ must: [...] }] *)
Record t := { must : list condition }.
End Filter.

Module ScoredPoint.
Record t := { score : QArith_base.Q; payload : Payload.t }.
End ScoredPoint.

Module SearchResult.
Record t := {
  score : QArith_base.Q;
  filePath : string;
  codeChunk : string;
  startLine : Z;
  endLine : Z;
  codebasePath : string
}.
End SearchResult.

Module IndexResult.
Record t := { totalChunks : Z; processedFiles : Z }.
End IndexResult.

(** *** The vector store

    The Qdrant service is an external collaborator.  Its contents are
    modelled by the collections it knows and the points of the server's
    collection; whether a given request to it fails is decided by the
    environment (see [Env.qdrantOutage]). *)
Module Qdrant.

Record Db := { collections : list string; points : list Point.t }.

Definition empty : Db := {| collections := []; points := [] |}.

Inductive Call :=
| GetCollections
| CreateCollection (name : string)
| Upsert (collection : string) (point : Point.t)
| Search (collection : string) (filter : option Filter.t)
| Delete (collection : string) (filter : Filter.t).

(** Modelled from the spec: the vector store's payload lookup (the
    store is the external Qdrant service).  String-valued payload fields
    addressable by a filter key. *)
Definition payloadField (key : string) (p : Payload.t) : option string :=
  if String.eqb key "filePath" then Some (Payload.filePath p)
  else if String.eqb key "codeChunk" then Some (Payload.codeChunk p)
  else if String.eqb key "codebasePath" then Some (Payload.codebasePath p)
  else if String.eqb key "timestamp" then Some (Payload.timestamp p)
  else None.

(** Modelled from the spec: the vector store's equality match of one
    [must] condition against a payload. *)
Definition holds (c : Filter.condition) (p : Payload.t) : bool :=
  match payloadField (Filter.key c) p with
  | Some v => String.eqb v (Filter.matchValue c)
  | None => false
  end.

(** Modelled from the spec: the vector store's filter (section 4.5, the
    scoping filter).  A point passes a filter when every [must] condition holds; the
    absent filter ([null]) lets every point pass. *)
Definition passes (f : option Filter.t) (p : Payload.t) : bool :=
  match f with
  | None => true
  | Some f => forallb (fun c => holds c p) (Filter.must f)
  end.

(** Modelled from the spec: the vector store's [upsert] (section 3,
    idempotent upsert).  Upsert by identifier: a point with the same [id] is replaced in
    place, a new one is appended. *)
Fixpoint upsertPoint (pt : Point.t) (pts : list Point.t) : list Point.t :=
  match pts with
  | [] => [pt]
  | q :: rest =>
      if String.eqb (Point.id q) (Point.id pt) then pt :: rest
      else q :: upsertPoint pt rest
  end.

(** Modelled from the spec: the vector store's ranking (section 4.5,
    best first).  Insertion by descending score. *)
Fixpoint insertByScore (x : ScoredPoint.t) (xs : list ScoredPoint.t)
  : list ScoredPoint.t :=
  match xs with
  | [] => [x]
  | y :: rest =>
      if QArith_base.Qle_bool (ScoredPoint.score y) (ScoredPoint.score x)
      then x :: y :: rest
      else y :: insertByScore x rest
  end.

(** Modelled from the spec: the vector store's ranking of a result
    set. *)
Definition rank (xs : list ScoredPoint.t) : list ScoredPoint.t :=
  foldr insertByScore [] xs.

(** Modelled from the spec: the vector store's [search] (sections 4.5
    and 6).  Similarity search: the points that pass the filter and reach the
    score threshold, best first, at most [limit] of them. *)
Definition searchPoints
           (similarity : Embedding -> option Embedding -> QArith_base.Q)
           (pts : list Point.t) (query : Embedding)
           (f : option Filter.t) (limit : nat)
           (scoreThreshold : QArith_base.Q) : list ScoredPoint.t :=
  let scored :=
    map (fun pt => {| ScoredPoint.score := similarity query (Point.vector pt);
                      ScoredPoint.payload := Point.payload pt |}) pts in
  let admitted :=
    filter (fun sp => QArith_base.Qle_bool scoreThreshold (ScoredPoint.score sp)
                      && passes f (ScoredPoint.payload sp)) scored in
  take limit (rank admitted).

(** Modelled from the spec: the vector store's [deleteByFilter]
    (section 6). *)
Definition deletePoints (f : Filter.t) (pts : list Point.t) : list Point.t :=
  filter (fun pt => negb (passes (Some f) (Point.payload pt))) pts.

End Qdrant.

(** Process-wide variables of the server, the contents of the vector
    store it talks to, and what it has written to the console. *)
Record Server := {
  qdrantClient : bool;               (* [qdrantClient] is non-null *)
  openaiClient : bool;               (* [openaiClient] is non-null *)
  isIndexing : bool;
  indexedCodebases : gset string;
  qdrant : Qdrant.Db;
  console : list string
}.

Definition initialServer : Server := {|
  qdrantClient := false;
  openaiClient := false;
  isIndexing := false;
  indexedCodebases := ∅;
  qdrant := Qdrant.empty;
  console := []
|}.

(** *** The monad of server code

    A computation reads and updates the [Server] and either resolves
    or throws. *)
Definition M (A : Type) : Type := Server -> Result A * Server.

Definition ret {A} (a : A) : M A := fun s => (Ok a, s).

Definition throw {A} (message : string) : M A := fun s => (Err message, s).

Definition bind {A B} (m : M A) (k : A -> M B) : M B :=
  fun s =>
    match m s with
    | (Ok a, s') => k a s'
    | (Err e, s') => (Err e, s')
    end.

Notation "'let*' x ':=' m 'in' k" := (bind m (fun x => k))
  (at level 10, x name, m at level 100, k at level 200).
Notation "m ';;' k" := (bind m (fun _ => k))
  (at level 100, k at level 200, right associativity).

(** [try { m } catch (error) { handler(error.message) }] *)
Definition tryCatch {A} (m : M A) (handler : string -> M A) : M A :=
  fun s =>
    match m s with
    | (Ok a, s') => (Ok a, s')
    | (Err e, s') => handler e s'
    end.

(** [try { m } finally { release }], for a [release] block that cannot
    throw: it runs on both exits and the outcome of [m] is kept. *)
Definition tryFinally {A} (m : M A) (release : Server -> Server) : M A :=
  fun s => let '(r, s') := m s in (r, release s').

(** An awaited external call whose outcome the environment decides. *)
Definition await {A} (r : Result A) : M A := fun s => (r, s).

Definition get : M Server := fun s => (Ok s, s).

Definition modify (f : Server -> Server) : M unit := fun s => (Ok tt, f s).

(** [for (const x of xs) body(x)] *)
Fixpoint forEach {A} (xs : list A) (body : A -> M unit) : M unit :=
  match xs with
  | [] => ret tt
  | x :: rest => body x ;; forEach rest body
  end.

(** [await Promise.all(xs.map(f))].  The calls of one batch overlap
    only in their waiting time and every outcome the environment gives
    is a function of the request, so the results are those of running
    the calls one after the other.  The order in which the upserts of
    one batch reach the store is taken to be the order of the files. *)
Fixpoint promiseAllMap {A B} (f : A -> M B) (xs : list A) : M (list B) :=
  match xs with
  | [] => ret []
  | x :: rest =>
      let* y := f x in
      let* ys := promiseAllMap f rest in
      ret (y :: ys)
  end.

Definition setQdrantClient (b : bool) (s : Server) : Server :=
  {| qdrantClient := b; openaiClient := openaiClient s;
     isIndexing := isIndexing s; indexedCodebases := indexedCodebases s;
     qdrant := qdrant s; console := console s |}.

Definition setOpenaiClient (b : bool) (s : Server) : Server :=
  {| qdrantClient := qdrantClient s; openaiClient := b;
     isIndexing := isIndexing s; indexedCodebases := indexedCodebases s;
     qdrant := qdrant s; console := console s |}.

Definition setIsIndexing (b : bool) (s : Server) : Server :=
  {| qdrantClient := qdrantClient s; openaiClient := openaiClient s;
     isIndexing := b; indexedCodebases := indexedCodebases s;
     qdrant := qdrant s; console := console s |}.

Definition setIndexedCodebases (c : gset string) (s : Server) : Server :=
  {| qdrantClient := qdrantClient s; openaiClient := openaiClient s;
     isIndexing := isIndexing s; indexedCodebases := c;
     qdrant := qdrant s; console := console s |}.

Definition setQdrant (db : Qdrant.Db) (s : Server) : Server :=
  {| qdrantClient := qdrantClient s; openaiClient := openaiClient s;
     isIndexing := isIndexing s; indexedCodebases := indexedCodebases s;
     qdrant := db; console := console s |}.

(** [console.log], [console.warn] and [console.error]. *)
Definition consoleWrite (line : string) : M unit :=
  modify (fun s =>
    {| qdrantClient := qdrantClient s; openaiClient := openaiClient s;
       isIndexing := isIndexing s; indexedCodebases := indexedCodebases s;
       qdrant := qdrant s; console := console s ++ [line] |}).

(** *** The environment

    Everything the server obtains from outside the process during one
    request: the file system (a snapshot), Node's [path] and [crypto]
    modules, the configuration file, the embedding service, the
    availability of the vector store, the clock and the chat model.
    [fsMaxDepth] is the deepest directory nesting the file system
    admits; a [readdir] below it fails (the path is too long).
    The embedding service answers by the texts alone and leaves no
    trace of a request; the clock is read as one instant, so every
    point written under one environment carries the same timestamp. *)
Module Env.
Record t := {
  readdir : string -> Result (list string);
  stat : string -> Result Stats.t;
  readFile : string -> Result string;
  fsMaxDepth : nat;
  pathJoin : string -> string -> string;
  pathExtname : string -> string;
  pathRelative : string -> string -> string;
  md5Hex : string -> string;
  configFile : Config.t;
  embeddingsCreate : list string -> Result (list Embedding);
  qdrantOutage : Qdrant.Call -> option string;
  similarity : Embedding -> option Embedding -> QArith_base.Q;
  toFixed : QArith_base.Q -> nat -> string;
  nowISOString : string;
  decodeURIComponent : string -> Result string;
  chatComplete : string -> string -> Z -> QArith_base.Q -> string -> Result string
}.
End Env.

(* ===================================================================== *)
(** ** Clients, embedder and chunk identifier *)
(* ===================================================================== *)

Section ServerCode.

Variable env : Env.t.

Definition loadConfig : M Config.t := await (Ok (Env.configFile env)).

(** Requests to the vector store. *)
Definition outage {A} (call : Qdrant.Call) (k : M A) : M A :=
  match Env.qdrantOutage env call with
  | Some message => throw message
  | None => k
  end.

Definition nullClient {A} (method : string) : M A :=
  throw ("Cannot read properties of null (reading '" +:+ method +:+ "')").

Definition qdrantGetCollections : M (list string) :=
  outage Qdrant.GetCollections
    (let* s := get in ret (Qdrant.collections (qdrant s))).

Definition qdrantCreateCollection (name : string) : M unit :=
  outage (Qdrant.CreateCollection name)
    (modify (fun s =>
       setQdrant {| Qdrant.collections := Qdrant.collections (qdrant s) ++ [name];
                    Qdrant.points := Qdrant.points (qdrant s) |} s)).

Definition qdrantUpsert (collection : string) (point : Point.t) : M unit :=
  let* s := get in
  if negb (qdrantClient s) then nullClient "upsert"
  else
    outage (Qdrant.Upsert collection point)
      (modify (fun s =>
         setQdrant {| Qdrant.collections := Qdrant.collections (qdrant s);
                      Qdrant.points := Qdrant.upsertPoint point
                                         (Qdrant.points (qdrant s)) |} s)).

Definition qdrantSearch (collection : string) (vector : option Embedding)
           (filter : option Filter.t) (limit : nat)
           (scoreThreshold : QArith_base.Q) : M (list ScoredPoint.t) :=
  let* s := get in
  if negb (qdrantClient s) then nullClient "search"
  else
    outage (Qdrant.Search collection filter)
      (match vector with
       | None => throw "Bad Request"
       | Some query =>
           ret (Qdrant.searchPoints (Env.similarity env)
                  (Qdrant.points (qdrant s)) query filter limit scoreThreshold)
       end).

Definition qdrantDelete (collection : string) (filter : Filter.t) : M unit :=
  let* s := get in
  if negb (qdrantClient s) then nullClient "delete"
  else
    outage (Qdrant.Delete collection filter)
      (modify (fun s =>
         setQdrant {| Qdrant.collections := Qdrant.collections (qdrant s);
                      Qdrant.points := Qdrant.deletePoints filter
                                         (Qdrant.points (qdrant s)) |} s)).

Definition initializeQdrant : M unit :=
  let* s := get in
  if negb (qdrantClient s) then
    let* config := loadConfig in
    modify (setQdrantClient true) ;;
    tryCatch
      (let* collections := qdrantGetCollections in
       let collectionExists :=
         existsb (fun name => String.eqb name (collectionName INDEXING_CONFIG))
                 collections in
       if negb collectionExists then
         qdrantCreateCollection (collectionName INDEXING_CONFIG) ;;
         consoleWrite ("✅ Created Qdrant collection: "
                       +:+ collectionName INDEXING_CONFIG)
       else ret tt)
      (fun message =>
         consoleWrite ("❌ Failed to initialize Qdrant: " +:+ message) ;;
         throw message)
  else ret tt.

Definition initializeOpenAI (config : Config.t) : M unit :=
  let* s := get in
  if negb (openaiClient s) && JS.truthyOpt (Config.openaiApiKey config)
  then modify (setOpenaiClient true)
  else ret tt.

Definition createEmbeddings (texts : list string) : M (list Embedding) :=
  let* s := get in
  if negb (openaiClient s) then
    throw "OpenAI client not initialized. Please set openaiApiKey in config."
  else
    tryCatch
      (await (Env.embeddingsCreate env texts))
      (fun message => throw ("Failed to create embeddings: " +:+ message)).

(** The string [generateChunkId] feeds to the hash. *)
Definition chunkIdInput (filePath : string) (startLine : Z) (content : string)
  : string :=
  filePath +:+ ":" +:+ JS.showInt startLine +:+ ":" +:+ content.

Definition generateChunkId (filePath : string) (startLine : Z)
           (content : string) : string :=
  Env.md5Hex env (chunkIdInput filePath startLine content).

(* =================================================================== *)
(** ** Indexer *)
(* =================================================================== *)

Definition chunkStartLine (i : nat) : Z :=
  (Z.of_nat i * (maxChunkSize INDEXING_CONFIG - overlapSize INDEXING_CONFIG))
    / 50 + 1.

Definition chunkPoint (relativePath codebasePath : string) (i : nat)
           (chunk : string) (embedding : option Embedding) : Point.t :=
  let startLine := chunkStartLine i in
  let endLine := startLine + JS.length chunk / 50 in
  {| Point.id := generateChunkId relativePath startLine chunk;
     Point.vector := embedding;
     Point.payload :=
       {| Payload.filePath := relativePath;
          Payload.codeChunk := chunk;
          Payload.startLine := startLine;
          Payload.endLine := endLine;
          Payload.codebasePath := codebasePath;
          Payload.timestamp := Env.nowISOString env |} |}.

(** One iteration of the [for] loop of [indexFile], up to the
    increment of [indexedChunks]. *)
Definition indexChunk (relativePath codebasePath : string) (i : nat)
           (chunk : string) : M unit :=
  let* embeddings := createEmbeddings [chunk] in
  let embedding := head embeddings in
  qdrantUpsert (collectionName INDEXING_CONFIG)
               (chunkPoint relativePath codebasePath i chunk embedding).

(** The [for] loop of [indexFile], from index [i] on. *)
Fixpoint indexChunks (relativePath codebasePath : string)
         (chunks : list string) (i : nat) (indexedChunks : Z) : M Z :=
  match chunks with
  | [] => ret indexedChunks
  | chunk :: rest =>
      indexChunk relativePath codebasePath i chunk ;;
      indexChunks relativePath codebasePath rest (S i) (indexedChunks + 1)
  end.

Definition indexFile (filePath codebasePath : string) : M Z :=
  tryCatch
    (let* stats := await (Env.stat env filePath) in
     if Stats.size stats >? maxFileSize INDEXING_CONFIG then
       consoleWrite ("⚠️ Skipping large file: " +:+ filePath +:+ " ("
                     +:+ JS.showInt (Stats.size stats) +:+ " bytes)") ;;
       ret 0
     else
       let* content := await (Env.readFile env filePath) in
       let relativePath := Env.pathRelative env codebasePath filePath in
       let chunks := Chunker.chunksOfContent content in
       indexChunks relativePath codebasePath chunks 0 0)
    (fun message =>
       consoleWrite ("❌ Failed to index file " +:+ filePath +:+ ": "
                     +:+ message) ;;
       ret 0).

(** The file walker.  [depth] is the nesting the file system still
    admits below [dirPath]; once it is used up [readdir] fails and the
    failure is swallowed like any other. *)
Fixpoint getAllFilesAt (depth : nat) (dirPath : string)
         (arrayOfFiles : list string) : list string :=
  match depth with
  | O => arrayOfFiles
  | S depth' =>
      match Env.readdir env dirPath with
      | Err _ => arrayOfFiles
      | Ok files =>
          (fix walk (files : list string) (arrayOfFiles : list string)
             : list string :=
             match files with
             | [] => arrayOfFiles
             | file :: rest =>
                 if JS.startsWith "." file
                    || String.eqb file "node_modules"
                    || String.eqb file ".git"
                 then walk rest arrayOfFiles
                 else
                   let fullPath := Env.pathJoin env dirPath file in
                   match Env.stat env fullPath with
                   | Err _ => arrayOfFiles
                   | Ok stat =>
                       if Stats.isDirectory stat
                       then walk rest (getAllFilesAt depth' fullPath arrayOfFiles)
                       else walk rest (arrayOfFiles ++ [fullPath])
                   end
             end) files arrayOfFiles
      end
  end.

Definition getAllFiles (dirPath : string) : M (list string) :=
  ret (getAllFilesAt (Env.fsMaxDepth env) dirPath []).

Definition isCodeFile (file : string) : bool :=
  JS.includes CODE_EXTENSIONS (Env.pathExtname env file).

Definition batchSize : nat := 10.

(** The inner [for (const result of results)] loop of [indexCodebase]. *)
Fixpoint tallyResults (results : list (string * Z)) (total : nat)
         (totalChunks processedFiles : Z) : M (Z * Z) :=
  match results with
  | [] => ret (totalChunks, processedFiles)
  | (file, chunks) :: rest =>
      let totalChunks := totalChunks + chunks in
      let processedFiles := processedFiles + 1 in
      (if processedFiles mod 10 =? 0 then
         consoleWrite ("📊 Progress: " +:+ JS.showInt processedFiles +:+ "/"
                       +:+ JS.showInt (Z.of_nat total) +:+ " files, "
                       +:+ JS.showInt totalChunks +:+ " chunks indexed")
       else ret tt) ;;
      tallyResults rest total totalChunks processedFiles
  end.

(** The batch loop of [indexCodebase] over the start indices
    [0, 10, 20, ...]. *)
Fixpoint indexBatches (codebasePath : string) (codeFiles : list string)
         (starts : list nat) (totalChunks processedFiles : Z) : M (Z * Z) :=
  match starts with
  | [] => ret (totalChunks, processedFiles)
  | i :: rest =>
      let batch := JS.arraySlice codeFiles i (i + batchSize) in
      let* results :=
        promiseAllMap
          (fun file =>
             let* chunks := indexFile file codebasePath in
             ret (file, chunks))
          batch in
      let* counts :=
        tallyResults results (length codeFiles) totalChunks processedFiles in
      indexBatches codebasePath codeFiles rest (fst counts) (snd counts)
  end.

(** [indexCodebase] from its first [await] to the end of the [try]
    block. *)
Definition indexCodebaseRun (codebasePath : string) : M IndexResult.t :=
  let* config := loadConfig in
  initializeQdrant ;;
  initializeOpenAI config ;;
  let* allFiles := getAllFiles codebasePath in
  let codeFiles := List.filter isCodeFile allFiles in
  consoleWrite ("📁 Found " +:+ JS.showInt (Z.of_nat (length codeFiles))
                +:+ " code files to index") ;;
  let* counts :=
    indexBatches codebasePath codeFiles
                 (JS.forRange (length codeFiles) batchSize) 0 0 in
  let totalChunks := fst counts in
  let processedFiles := snd counts in
  modify (fun s =>
    setIndexedCodebases ({[ codebasePath ]} ∪ indexedCodebases s) s) ;;
  consoleWrite ("✅ Indexing complete! Indexed " +:+ JS.showInt totalChunks
                +:+ " chunks from " +:+ JS.showInt processedFiles
                +:+ " files") ;;
  ret {| IndexResult.totalChunks := totalChunks;
         IndexResult.processedFiles := processedFiles |}.

Definition indexingFailed {A} (message : string) : M A :=
  consoleWrite ("❌ Indexing failed: " +:+ message) ;;
  throw message.

(** The string a truthy [codebasePath] holds. *)
Definition rootOf (codebasePath : option string) : string :=
  default "" codebasePath.

Definition indexCodebase (codebasePath : option string) : M IndexResult.t :=
  let* s := get in
  if isIndexing s then throw "Indexing already in progress"
  else if negb (JS.truthyOpt codebasePath) then
    throw "Codebase path is required"
  else
    tryFinally
      (tryCatch
         (modify (setIsIndexing true) ;;
          consoleWrite ("🚀 Starting indexing of: " +:+ rootOf codebasePath) ;;
          indexCodebaseRun (rootOf codebasePath))
         indexingFailed)
      (setIsIndexing false).

(* =================================================================== *)
(** ** Retriever *)
(* =================================================================== *)

Definition scopeFilter (codebasePath : option string) : option Filter.t :=
  if JS.truthyOpt codebasePath then
    Some {| Filter.must :=
              [ {| Filter.key := "codebasePath";
                   Filter.matchValue := rootOf codebasePath |} ] |}
  else None.

Definition toSearchResult (point : ScoredPoint.t) : SearchResult.t :=
  {| SearchResult.score := ScoredPoint.score point;
     SearchResult.filePath := Payload.filePath (ScoredPoint.payload point);
     SearchResult.codeChunk := Payload.codeChunk (ScoredPoint.payload point);
     SearchResult.startLine := Payload.startLine (ScoredPoint.payload point);
     SearchResult.endLine := Payload.endLine (ScoredPoint.payload point);
     SearchResult.codebasePath :=
       Payload.codebasePath (ScoredPoint.payload point) |}.

Definition scoreThreshold : QArith_base.Q := QArith_base.Qmake 7 10.

Definition searchCodebase (query : string) (codebasePath : option string)
           (limit : nat) : M (list SearchResult.t) :=
  tryCatch
    (let* config := loadConfig in
     initializeQdrant ;;
     initializeOpenAI config ;;
     let* embeddings := createEmbeddings [query] in
     let queryEmbedding := head embeddings in
     let filter := scopeFilter codebasePath in
     let* searchResult :=
       qdrantSearch (collectionName INDEXING_CONFIG) queryEmbedding
                    filter limit scoreThreshold in
     ret (map toSearchResult searchResult))
    (fun message =>
       consoleWrite ("❌ Search failed: " +:+ message) ;;
       throw message).

(* =================================================================== *)
(** ** Context assembler *)
(* =================================================================== *)

Definition importantFiles : list string :=
  ["package.json"; "README.md"; "requirements.txt"; "Cargo.toml"; "go.mod";
   "pom.xml"; "build.gradle"; "Gemfile"; "composer.json"; "pyproject.toml"].

Definition fence : string := "```".

(** [content.slice(0, budget)] followed by the truncation marker. *)
Definition excerpt (content : string) (budget : Z) : string :=
  JS.slice content 0 budget
  +:+ (if JS.length content >? budget then JS.nl +:+ "..." else "").

Definition getKeyFiles (rootPath : string) : list string :=
  match Env.readdir env rootPath with
  | Err _ => []
  | Ok items =>
      (fix each (items : list string) (keyFiles : list string) : list string :=
         match items with
         | [] => keyFiles
         | item :: rest =>
             if JS.includes importantFiles item then
               match Env.readFile env (Env.pathJoin env rootPath item) with
               | Ok content =>
                   each rest
                     (keyFiles ++
                      ["### " +:+ item +:+ ":" +:+ JS.nl +:+ fence +:+ JS.nl
                       +:+ excerpt content 1000 +:+ JS.nl +:+ fence])
               | Err _ => each rest keyFiles
               end
             else each rest keyFiles
         end) items []
  end.

Definition extMap : list (string * string) :=
  [(".js", "javascript"); (".ts", "typescript"); (".jsx", "javascript");
   (".tsx", "typescript"); (".py", "python"); (".java", "java");
   (".cpp", "cpp"); (".c", "c"); (".cs", "csharp"); (".php", "php");
   (".rb", "ruby"); (".go", "go"); (".rs", "rust"); (".swift", "swift");
   (".kt", "kotlin"); (".scala", "scala"); (".html", "html"); (".css", "css");
   (".scss", "scss"); (".json", "json"); (".yaml", "yaml"); (".yml", "yaml");
   (".toml", "toml"); (".md", "markdown"); (".txt", "text"); (".sh", "bash");
   (".bash", "bash"); (".zsh", "bash")].

Fixpoint lookupExt (ext : string) (table : list (string * string))
  : option string :=
  match table with
  | [] => None
  | (k, v) :: rest => if String.eqb k ext then Some v else lookupExt ext rest
  end.

Definition getFileExtension (filePath : string) : string :=
  let ext := Env.pathExtname env filePath in
  match lookupExt ext extMap with
  | Some language => if JS.truthy language then language else "text"
  | None => "text"
  end.

Definition getCodeFiles (rootPath : string) (maxFiles : nat) : list string :=
  let allFiles := getAllFilesAt (Env.fsMaxDepth env) rootPath [] in
  let relevantFiles :=
    take maxFiles
      (List.filter
         (fun file =>
            JS.includes CODE_EXTENSIONS (Env.pathExtname env file)
            && negb (JS.stringIncludes "node_modules" file)
            && negb (JS.stringIncludes ".git" file))
         allFiles) in
  (fix each (files : list string) (codeFiles : list string) : list string :=
     match files with
     | [] => codeFiles
     | file :: rest =>
         match Env.readFile env file with
         | Ok content =>
             let relativePath := Env.pathRelative env rootPath file in
             each rest
               (codeFiles ++
                ["### " +:+ relativePath +:+ ":" +:+ JS.nl +:+ fence
                 +:+ getFileExtension file +:+ JS.nl
                 +:+ excerpt content 2000 +:+ JS.nl +:+ fence])
         | Err _ => each rest codeFiles
         end
     end) relevantFiles [].

(** [getDirectoryStructure], by the number of levels still to render:
    [levels = maxDepth + 1 - currentDepth], which is [0] exactly when
    [currentDepth > maxDepth]. *)
Fixpoint getDirectoryStructureAt (levels : nat) (rootPath : string)
         (currentDepth : nat) : string :=
  match levels with
  | O => ""
  | S levels' =>
      match Env.readdir env rootPath with
      | Err _ => ""
      | Ok items =>
          match
            (fix each (items : list string) (structure : list string)
               : Result (list string) :=
               match items with
               | [] => Ok structure
               | item :: rest =>
                   let itemPath := Env.pathJoin env rootPath item in
                   match Env.stat env itemPath with
                   | Err message => Err message
                   | Ok stats =>
                       if Stats.isDirectory stats then
                         if negb (JS.startsWith "." item)
                            && negb (JS.startsWith "node_modules" item)
                         then
                           let subStructure :=
                             getDirectoryStructureAt levels' itemPath
                                                     (S currentDepth) in
                           let structure :=
                             structure ++
                             [JS.repeat "  " currentDepth +:+ "📁 " +:+ item
                              +:+ "/"] in
                           each rest
                                (if JS.truthy subStructure
                                 then structure ++ [subStructure]
                                 else structure)
                         else each rest structure
                       else if Stats.isFile stats then
                         let ext := Env.pathExtname env item in
                         if JS.includes CODE_EXTENSIONS ext
                            || String.eqb item "package.json"
                            || String.eqb item "README.md"
                         then
                           each rest
                                (structure ++
                                 [JS.repeat "  " currentDepth +:+ "📄 "
                                  +:+ item])
                         else each rest structure
                       else each rest structure
                   end
               end) (JS.arraySlice items 0 20) []
          with
          | Ok structure => JS.join JS.nl structure
          | Err _ => ""
          end
      end
  end.

Definition getDirectoryStructure (rootPath : string) (maxDepth currentDepth : nat)
  : string :=
  getDirectoryStructureAt (maxDepth + 1 - currentDepth) rootPath currentDepth.

Definition getCodebaseContext (codebasePath : option string) : M string :=
  if negb (JS.truthyOpt codebasePath) then ret ""
  else
    tryCatch
      (let root := rootOf codebasePath in
       let* structure := ret (getDirectoryStructure root 3 0) in
       let context :=
         ["## Directory Structure:" +:+ JS.nl +:+ structure +:+ JS.nl] in
       let* keyFiles := ret (getKeyFiles root) in
       let context :=
         if (0 <? length keyFiles)%nat then
           context ++ ["## Key Files:" +:+ JS.nl
                       +:+ JS.join (JS.nl +:+ JS.nl) keyFiles +:+ JS.nl]
         else context in
       let* codeFiles := ret (getCodeFiles root 10) in
       let context :=
         if (0 <? length codeFiles)%nat then
           context ++ ["## Code Files:" +:+ JS.nl
                       +:+ JS.join (JS.nl +:+ JS.nl) codeFiles +:+ JS.nl]
         else context in
       ret (JS.join JS.nl context))
      (fun message =>
         consoleWrite ("Warning: Could not read codebase context: "
                       +:+ message) ;;
         ret "").

Definition formatSearchResult (result : SearchResult.t) : string :=
  "### " +:+ SearchResult.filePath result +:+ " (lines "
  +:+ JS.showInt (SearchResult.startLine result) +:+ "-"
  +:+ JS.showInt (SearchResult.endLine result) +:+ ", score: "
  +:+ Env.toFixed env (SearchResult.score result) 3 +:+ "):" +:+ JS.nl
  +:+ fence +:+ getFileExtension (SearchResult.filePath result) +:+ JS.nl
  +:+ SearchResult.codeChunk result +:+ JS.nl +:+ fence +:+ JS.nl.

Definition getIndexedCodebaseContext (query : string)
           (codebasePath : option string) : M string :=
  if negb (JS.truthyOpt codebasePath) then ret ""
  else
    tryCatch
      (let* s := get in
       if negb (bool_decide (rootOf codebasePath ∈ indexedCodebases s)) then
         consoleWrite ("⚠️ Codebase not indexed: " +:+ rootOf codebasePath) ;;
         ret ""
       else
         let* searchResults := searchCodebase query codebasePath 5 in
         if (length searchResults =? 0)%nat then ret ""
         else
           let context :=
             ["## Relevant Code (from indexed search):" +:+ JS.nl]
             ++ map formatSearchResult searchResults in
           ret (JS.join JS.nl context))
      (fun message =>
         consoleWrite ("Warning: Could not get indexed context: "
                       +:+ message) ;;
         ret "").

(* =================================================================== *)
(** ** Persona prompts and the chat path *)
(* =================================================================== *)

Definition salespersonInstructions : string :=
  JS.join JS.nl
    [
     "";
     "";
     "IMPORTANT: Respond like a professional salesperson trying to sell this product to a potential customer:";
     "1. Focus on business value, benefits, and ROI";
     "2. Use persuasive, enthusiastic language";
     "3. Highlight key features and competitive advantages";
     "4. Address potential customer pain points";
     "5. Include specific benefits and use cases";
     "6. Be conversational and engaging";
     "7. Reference specific features from the codebase when relevant";
     "8. Avoid overly technical jargon unless explaining benefits";
     "";
     "Make it sound like you're genuinely excited about this product and its value to the customer." ].

Definition executiveInstructions : string :=
  JS.join JS.nl
    [
     "";
     "";
     "IMPORTANT: Respond like a business executive presenting to stakeholders:";
     "1. Focus on strategic value and business impact";
     "2. Use high-level, strategic language";
     "3. Emphasize ROI, market position, and competitive advantages";
     "4. Address business challenges and solutions";
     "5. Include market opportunities and growth potential";
     "6. Be confident and authoritative";
     "7. Reference business metrics and outcomes when possible";
     "";
     "Present this as a strategic business opportunity." ].

Definition developerInstructions : string :=
  JS.join JS.nl
    [
     "";
     "";
     "IMPORTANT: Respond like a senior developer explaining to another developer:";
     "1. Focus on technical architecture and implementation details";
     "2. Use technical terminology and code examples";
     "3. Explain design patterns, best practices, and technical decisions";
     "4. Include code snippets and technical explanations";
     "5. Address technical challenges and solutions";
     "6. Be precise and technically accurate";
     "7. Reference specific code patterns and implementations";
     "";
     "Provide detailed technical insights and code-level explanations." ].

Definition demoInstructions : string :=
  JS.join JS.nl
    [
     "";
     "";
     "IMPORTANT: You are a product demo specialist. Always structure your response with:";
     "";
     "1. **Short Blurb** (2-3 energetic sentences): Concise, benefit-focused summary";
     "2. **Demo Steps**: Numbered, actionable steps with UI element references in parentheses";
     "3. **Summary Table**: Table mapping each step to its UI selector";
     "";
     "Example format:";
     "---";
     "**Short Blurb:**";
     "[Energetic, benefit-focused description]";
     "";
     "**Demo Steps:**";
     "1. Open the sidebar (.sidebar)";
     "2. Click the feature tab (.feature-tab)";
     "3. [Continue with specific steps]";
     "";
     "| Step | UI Element | Selector |";
     "|------|------------|----------|";
     "| 1    | Sidebar    | .sidebar |";
     "| 2    | Feature tab| .feature-tab |";
     "---";
     "";
     "Focus on user actions and UI elements. Make steps executable and include real or plausible CSS selectors." ].

Definition technicalInstructions : string :=
  JS.join JS.nl
    [
     "";
     "";
     "IMPORTANT: Structure your response in this format:";
     "";
     "1. **Short Blurb** (2-3 sentences): Give a concise, energetic summary of the feature/concept";
     "2. **Step-by-Step Guide**: Provide actionable steps with UI element references in parentheses";
     "3. **Summary Table**: Include a table mapping steps to UI selectors";
     "";
     "Example format:";
     "---";
     "**Short Blurb:**";
     "[Concise, punchy description]";
     "";
     "**Demo Steps:**";
     "1. Open the sidebar (.sidebar)";
     "2. Click the feature tab (.feature-tab)";
     "3. [Continue with specific steps and element references]";
     "";
     "| Step | UI Element | Selector |";
     "|------|------------|----------|";
     "| 1    | Sidebar    | .sidebar |";
     "| 2    | Feature tab| .feature-tab |";
     "---";
     "";
     "When answering questions about the codebase:";
     "1. Reference specific code snippets and file names from the provided context";
     "2. Show actual code examples from the files when relevant";
     "3. Explain how the code works with concrete examples";
     "4. Point to specific functions, classes, or methods in the code";
     "5. Provide detailed, technical explanations with code references";
     "6. Always include UI element references in parentheses for any user interface components";
     "";
     "Please provide detailed, helpful answers about the code structure, functionality, and include relevant code examples from the actual files." ].

Definition getPersonaPrompt (persona codebaseContext userPrompt : string)
  : string :=
  let basePrompt :=
    if JS.truthy codebaseContext then
      "You are an AI assistant helping with a codebase. Here is the context about the codebase:"
      +:+ JS.nl +:+ JS.nl +:+ codebaseContext +:+ JS.nl +:+ JS.nl
      +:+ "Now, please answer this question about the codebase:"
      +:+ JS.nl +:+ JS.nl +:+ userPrompt
    else userPrompt in
  if String.eqb persona "salesperson" then basePrompt +:+ salespersonInstructions
  else if String.eqb persona "executive" then basePrompt +:+ executiveInstructions
  else if String.eqb persona "developer" then basePrompt +:+ developerInstructions
  else if String.eqb persona "demo" then basePrompt +:+ demoInstructions
  else basePrompt +:+ technicalInstructions.

Inductive Client := AnthropicClient | OpenAIClient | OpenRouterClient.

Definition createClient (config : Config.t) : M Client :=
  if String.eqb (Config.provider config) "anthropic" then ret AnthropicClient
  else if String.eqb (Config.provider config) "openai" then ret OpenAIClient
  else if String.eqb (Config.provider config) "openrouter" then ret OpenRouterClient
  else throw ("Unsupported provider: " +:+ Config.provider config).

Definition sendMessage (config : Config.t) (prompt : string)
           (codebasePath : option string) (persona : string)
           (useIndexedSearch : bool) : M string :=
  let* client := createClient config in
  let scope := JS.orElse codebasePath (Config.codebasePath config) in
  let* codebaseContext :=
    if useIndexedSearch && JS.truthyOpt scope
    then getIndexedCodebaseContext prompt scope
    else ret "" in
  let* codebaseContext :=
    if negb (JS.truthy codebaseContext)
    then getCodebaseContext scope
    else ret codebaseContext in
  let fullPrompt := getPersonaPrompt persona codebaseContext prompt in
  tryCatch
    (await (Env.chatComplete env (Config.provider config) (Config.model config)
                             (Config.maxTokens config)
                             (Config.temperature config) fullPrompt))
    (fun message => throw ("AI request failed: " +:+ message)).

End ServerCode.

(* ===================================================================== *)
(** ** The single-flight protocol of [indexCodebase] *)
(* ===================================================================== *)

(** [indexCodebase] up to its first [await]: the part that runs within
    the caller's turn. *)
Definition indexCodebaseEnter (codebasePath : option string) : M unit :=
  let* s := get in
  if isIndexing s then throw "Indexing already in progress"
  else if negb (JS.truthyOpt codebasePath) then
    throw "Codebase path is required"
  else
    modify (setIsIndexing true) ;;
    consoleWrite ("🚀 Starting indexing of: " +:+ rootOf codebasePath).

(** [indexCodebase] from its first [await] on: the rest of the [try]
    block with its [catch] and [finally].  Between the first [await] and
    the end of the function nothing reads or writes [isIndexing] or
    [indexedCodebases] before the statements that follow the last
    [await], so for these two variables the continuation acts at once. *)
Definition indexCodebaseResume (env : Env.t) (root : string)
  : M IndexResult.t :=
  tryFinally (tryCatch (indexCodebaseRun env root) indexingFailed)
             (setIsIndexing false).

(** The clear-index operation: the handler of
    [DELETE /index/:codebasePath].  It resolves to the decoded path it
    cleared, or throws what its [catch] reports with status 500. *)
Definition clearIndex (env : Env.t) (codebasePath : string) : M string :=
  tryCatch
    (let* decodedPath := await (Env.decodeURIComponent env codebasePath) in
     let* s := get in
     (if negb (qdrantClient s) then initializeQdrant env else ret tt) ;;
     qdrantDelete env (collectionName INDEXING_CONFIG)
       {| Filter.must := [ {| Filter.key := "codebasePath";
                              Filter.matchValue := decodedPath |} ] |} ;;
     modify (fun s =>
       setIndexedCodebases (indexedCodebases s ∖ {[ decodedPath ]}) s) ;;
     ret decodedPath)
    (fun message =>
       consoleWrite ("❌ Clear index error: " +:+ message) ;;
       throw message).

Module Protocol.

(** The server together with the invocations of [indexCodebase] that
    have passed their first [await] and not yet settled, by root. *)
Record System := { server : Server; inFlight : list string }.

Definition initial : System := {| server := initialServer; inFlight := [] |}.

Inductive Event :=
| CallIndexCodebase (codebasePath : option string)
| SettleIndexCodebase (env : Env.t) (k : nat)
| CallClearIndex (env : Env.t) (codebasePath : string)
| CallSearchCodebase (env : Env.t) (query : string)
                     (codebasePath : option string) (limit : nat)
| CallSendMessage (env : Env.t) (config : Config.t) (prompt : string)
                  (codebasePath : option string) (persona : string)
                  (useIndexedSearch : bool).

Inductive Observation :=
| IndexRejected (message : string)
| IndexStarted (root : string)
| IndexResolved (root : string) (result : IndexResult.t)
| IndexThrew (root : string) (message : string)
| NothingToSettle
| IndexCleared (root : string)
| ClearFailed (message : string)
| SearchSettled (outcome : Result (list SearchResult.t))
| ChatSettled (outcome : Result string).

Definition step (sys : System) (e : Event) : System * Observation :=
  match e with
  | CallIndexCodebase codebasePath =>
      match indexCodebaseEnter codebasePath (server sys) with
      | (Ok _, s') =>
          ({| server := s'; inFlight := inFlight sys ++ [rootOf codebasePath] |},
           IndexStarted (rootOf codebasePath))
      | (Err message, s') =>
          ({| server := s'; inFlight := inFlight sys |}, IndexRejected message)
      end
  | SettleIndexCodebase env k =>
      match inFlight sys !! k with
      | None => (sys, NothingToSettle)
      | Some root =>
          match indexCodebaseResume env root (server sys) with
          | (Ok result, s') =>
              ({| server := s'; inFlight := delete k (inFlight sys) |},
               IndexResolved root result)
          | (Err message, s') =>
              ({| server := s'; inFlight := delete k (inFlight sys) |},
               IndexThrew root message)
          end
      end
  | CallClearIndex env codebasePath =>
      match clearIndex env codebasePath (server sys) with
      | (Ok decodedPath, s') =>
          ({| server := s'; inFlight := inFlight sys |}, IndexCleared decodedPath)
      | (Err message, s') =>
          ({| server := s'; inFlight := inFlight sys |}, ClearFailed message)
      end
  | CallSearchCodebase env query codebasePath limit =>
      let '(outcome, s') :=
        searchCodebase env query codebasePath limit (server sys) in
      ({| server := s'; inFlight := inFlight sys |}, SearchSettled outcome)
  | CallSendMessage env config prompt codebasePath persona useIndexedSearch =>
      let '(outcome, s') :=
        sendMessage env config prompt codebasePath persona useIndexedSearch
                    (server sys) in
      ({| server := s'; inFlight := inFlight sys |}, ChatSettled outcome)
  end.

(** What an observation says happened to the indexed set. *)
Definition effect (o : Observation) (indexed : gset string) : gset string :=
  match o with
  | IndexResolved root _ => {[ root ]} ∪ indexed
  | IndexCleared root => indexed ∖ {[ root ]}
  | _ => indexed
  end.

(** The busy flag is set exactly while one invocation is in flight, and
    no second one ever is. *)
Definition singleFlight (sys : System) : Prop :=
  match inFlight sys with
  | [] => isIndexing (server sys) = false
  | [_] => isIndexing (server sys) = true
  | _ => False
  end.

(** Run a sequence of events, collecting what each one showed. *)
Fixpoint run (sys : System) (events : list Event)
  : System * list Observation :=
  match events with
  | [] => (sys, [])
  | e :: rest =>
      let '(sys1, o) := step sys e in
      let '(sys2, os) := run sys1 rest in
      (sys2, o :: os)
  end.

End Protocol.

(* ===================================================================== *)
(** ** Concrete environments *)
(* ===================================================================== *)

Module Scenario.

(** A POSIX rendering of the three [path] functions, enough for paths
    without [.] and [..] segments. *)
Definition join (a b : string) : string := a +:+ "/" +:+ b.

Fixpoint basename (path : string) : string :=
  match path with
  | EmptyString => ""
  | String c rest =>
      if JS.stringIncludes "/" rest then basename rest
      else if Ascii.eqb c "/" then rest else path
  end.

Fixpoint fromLastDot (name : string) : string :=
  match name with
  | EmptyString => ""
  | String c rest =>
      match fromLastDot rest with
      | EmptyString => if Ascii.eqb c "." then name else ""
      | ext => ext
      end
  end.

(** From the last dot of the last segment on; a dot that starts the
    segment does not count. *)
Definition extname (path : string) : string :=
  match basename path with
  | EmptyString => ""
  | String _ rest => fromLastDot rest
  end.

Definition relative (from to : string) : string :=
  if String.prefix (from +:+ "/") to
  then JS.sliceFrom to (JS.length from + 1)
  else to.

Fixpoint lookup {A} (key : string) (table : list (string * A)) : option A :=
  match table with
  | [] => None
  | (k, v) :: rest => if String.eqb k key then Some v else lookup key rest
  end.

Definition orENOENT {A} (path : string) (found : option A) : Result A :=
  match found with
  | Some a => Ok a
  | None => Err ("ENOENT: no such file or directory, '" +:+ path +:+ "'")
  end.

Definition defaultConfig : Config.t := {|
  Config.provider := "anthropic";
  Config.apiKey := Some "sk-chat";
  Config.model := "claude-3-5-sonnet-20241022";
  Config.temperature := QArith_base.Qmake 7 10;
  Config.maxTokens := 4096;
  Config.codebasePath := None;
  Config.openaiApiKey := Some "sk-embed";
  Config.qdrantApiKey := None
|}.

Definition directory : Stats.t :=
  {| Stats.isDirectory := true; Stats.isFile := false; Stats.size := 4096 |}.

Definition regular (size : Z) : Stats.t :=
  {| Stats.isDirectory := false; Stats.isFile := true; Stats.size := size |}.

(** An environment over a finite file system: [dirs] lists the entries
    of every directory, [stats] what [stat] reports and [contents] what
    can be read.  [embeddingFails] selects the texts the embedding
    service refuses and [outage] the vector-store requests that fail. *)
Definition world (dirs : list (string * list string))
           (stats : list (string * Stats.t))
           (contents : list (string * string))
           (embeddingFails : list string -> bool)
           (outage : Qdrant.Call -> option string) : Env.t := {|
  Env.readdir := fun path => orENOENT path (lookup path dirs);
  Env.stat := fun path => orENOENT path (lookup path stats);
  Env.readFile := fun path => orENOENT path (lookup path contents);
  Env.fsMaxDepth := 64;
  Env.pathJoin := join;
  Env.pathExtname := extname;
  Env.pathRelative := relative;
  Env.md5Hex := fun input => input;
  Env.configFile := defaultConfig;
  Env.embeddingsCreate := fun texts =>
    if embeddingFails texts then Err "429 rate limit exceeded"
    else Ok (map (fun _ => [QArith_base.Qmake 1 1]) texts);
  Env.qdrantOutage := outage;
  Env.similarity := fun _ _ => QArith_base.Qmake 9 10;
  Env.toFixed := fun _ _ => "0.900";
  Env.nowISOString := "2025-01-01T00:00:00.000Z";
  Env.decodeURIComponent := fun s => Ok s;
  Env.chatComplete := fun _ _ _ _ prompt => Ok ("echo: " +:+ prompt)
|}.

Definition healthy : Qdrant.Call -> option string := fun _ => None.

Definition unreachable : Qdrant.Call -> option string :=
  fun _ => Some "connect ECONNREFUSED 127.0.0.1:6333".

(** No file system entry exists and the vector store is down. *)
Definition nothing : Env.t := world [] [] [] (fun _ => false) unreachable.

(** A server whose two clients are initialised. *)
Definition ready : Server :=
  setOpenaiClient true (setQdrantClient true initialServer).

(** One file of two chunks, [0, 1000) and [800, 1200); the embedding
    service refuses the first chunk and accepts every other text. *)
Definition twoChunkText : string := JS.repeat "a" 1000 +:+ JS.repeat "b" 200.

Definition firstChunkRefused : Env.t :=
  world [("/repo", ["notes.txt"])]
        [("/repo/notes.txt", regular 1200)]
        [("/repo/notes.txt", twoChunkText)]
        (fun texts =>
           bool_decide (texts = [JS.repeat "a" 1000]))
        healthy.

(** A root with one small code file, one oversized, one that cannot be
    read and one whose extension is not recognised. *)
Definition mixedRepo : Env.t :=
  world [("/repo", ["main.js"; "huge.js"; "gone.js"; "notes.bin"])]
        [("/repo/main.js", regular 14);
         ("/repo/huge.js", regular (2 * 1024 * 1024));
         ("/repo/gone.js", regular 10);
         ("/repo/notes.bin", regular 3)]
        [("/repo/main.js", "console.log(1)");
         ("/repo/notes.bin", "abc")]
        (fun _ => false)
        healthy.

(** Two points in the shared collection, one per root. *)
Definition pointOf (root file chunk : string) : Point.t := {|
  Point.id := root +:+ "/" +:+ file;
  Point.vector := Some [QArith_base.Qmake 1 1];
  Point.payload := {|
    Payload.filePath := file;
    Payload.codeChunk := chunk;
    Payload.startLine := 1;
    Payload.endLine := 1;
    Payload.codebasePath := root;
    Payload.timestamp := "2025-01-01T00:00:00.000Z" |}
|}.

Definition twoRoots : Server :=
  setIndexedCodebases {[ "/a"; "/b" ]}
    (setQdrant {| Qdrant.collections := ["roo-cli-codebase"];
                  Qdrant.points := [pointOf "/a" "x.js" "let a";
                                    pointOf "/b" "y.js" "let b"] |}
               ready).

Definition online : Env.t := world [] [] [] (fun _ => false) healthy.

(** The files of [packageAndMain] while the vector store is down, and a
    server that counts their root as indexed. *)
Definition storeDown : Env.t :=
  world [("/proj", ["package.json"; "main.js"])]
        [("/proj/package.json", regular 8); ("/proj/main.js", regular 14)]
        [("/proj/package.json", "{name:x}"); ("/proj/main.js", "console.log(1)")]
        (fun _ => false)
        unreachable.

Definition projIndexed : Server := setIndexedCodebases {[ "/proj" ]} ready.

(** One file of three chunks, [0, 1000), [800, 1800) and [1600, 2000);
    every text is embedded, and the store refuses the upsert of the
    second chunk only. *)
Definition threeChunkText : string :=
  JS.repeat "a" 800 +:+ JS.repeat "b" 800 +:+ JS.repeat "c" 400.

Definition secondChunk : string := JS.repeat "b" 800 +:+ JS.repeat "c" 200.

Definition secondUpsertRefused : Env.t :=
  world [("/repo", ["notes.txt"])]
        [("/repo/notes.txt", regular 2000)]
        [("/repo/notes.txt", threeChunkText)]
        (fun _ => false)
        (fun call =>
           match call with
           | Qdrant.Upsert _ point =>
               if String.eqb (Payload.codeChunk (Point.payload point))
                             secondChunk
               then Some "503 Service Unavailable"
               else None
           | _ => None
           end).

(** One root with two files whose chunks get one identifier: the name
    of the second file is the name of the first followed by the start
    line and the beginning of the first file's text. *)
Definition collidingNames : Env.t :=
  world [("/r", ["a.js"; "a.js:1:x.js"])]
        [("/r/a.js", regular 12); ("/r/a.js:1:x.js", regular 5)]
        [("/r/a.js", "x.js:1:let y"); ("/r/a.js:1:x.js", "let y")]
        (fun _ => false)
        healthy.

(** The end-to-end scenario of the specification: a manifest and one
    small source file. *)
Definition packageAndMain : Env.t :=
  world [("/proj", ["package.json"; "main.js"])]
        [("/proj/package.json", regular 8); ("/proj/main.js", regular 14)]
        [("/proj/package.json", "{name:x}"); ("/proj/main.js", "console.log(1)")]
        (fun _ => false)
        healthy.

(** A fresh process in which [indexCodebase("/a")] has been called and
    has not settled. *)
Definition indexingA : Protocol.System :=
  fst (Protocol.run Protocol.initial [Protocol.CallIndexCodebase (Some "/a")]).

End Scenario.

(* ===================================================================== *)
(** ** Vocabulary of the statements *)
(* ===================================================================== *)

(** [c] occurs in [s]. *)
Fixpoint occurs (c : ascii) (s : string) : bool :=
  match s with
  | EmptyString => false
  | String d rest => Ascii.eqb d c || occurs c rest
  end.

(** A computation leaves one aspect of the server as it found it,
    however it ends. *)
Definition keeps {X A} (aspect : Server -> X) (m : M A) : Prop :=
  forall s, aspect (snd (m s)) = aspect s.

(** The two variables of the single-flight protocol. *)
Definition registry (s : Server) : bool * gset string :=
  (isIndexing s, indexedCodebases s).

(** The outcome of a computation does not depend on the server it
    starts from. *)
Definition stateless {A} (m : M A) : Prop :=
  forall s1 s2, fst (m s1) = fst (m s2).

(** What the environment makes of chunk [i] of a file once both clients
    exist: the point that gets stored, or the error of the embedding
    request or of the upsert. *)
Definition chunkOutcome (env : Env.t) (relativePath codebasePath : string)
           (i : nat) (chunk : string) : Result Point.t :=
  match Env.embeddingsCreate env [chunk] with
  | Err message => Err ("Failed to create embeddings: " +:+ message)
  | Ok embeddings =>
      let point :=
        chunkPoint env relativePath codebasePath i chunk (head embeddings) in
      match Env.qdrantOutage env
              (Qdrant.Upsert (collectionName INDEXING_CONFIG) point) with
      | Some message => Err message
      | None => Ok point
      end
  end.

Definition chunkSucceeds (env : Env.t) (relativePath codebasePath : string)
           (i : nat) (chunk : string) : bool :=
  match chunkOutcome env relativePath codebasePath i chunk with
  | Ok _ => true
  | Err _ => false
  end.

(** The point [indexFile] builds for chunk [i]. *)
Definition expectedPoint (env : Env.t) (relativePath codebasePath : string)
           (i : nat) (chunk : string) : Point.t :=
  chunkPoint env relativePath codebasePath i chunk
    (match Env.embeddingsCreate env [chunk] with
     | Ok embeddings => head embeddings
     | Err _ => None
     end).

(** The points [indexFile] builds for the chunks of a file, the first
    of which has index [i]. *)
Fixpoint pointsFrom (env : Env.t) (relativePath codebasePath : string)
         (i : nat) (chunks : list string) : list Point.t :=
  match chunks with
  | [] => []
  | chunk :: rest =>
      expectedPoint env relativePath codebasePath i chunk
      :: pointsFrom env relativePath codebasePath (S i) rest
  end.

(** The server after one accepted upsert, and after a sequence of them. *)
Definition storePoint (s : Server) (point : Point.t) : Server :=
  setQdrant {| Qdrant.collections := Qdrant.collections (qdrant s);
               Qdrant.points := Qdrant.upsertPoint point
                                  (Qdrant.points (qdrant s)) |} s.

Definition storeAll (points : list Point.t) (s : Server) : Server :=
  foldl storePoint s points.

Definition upsertAll (points : list Point.t) (stored : list Point.t)
  : list Point.t :=
  foldl (fun stored point => Qdrant.upsertPoint point stored) stored points.

(** [initializeQdrant] will go through: the client exists already, or
    the collection listing answers and the collection exists or can be
    created. *)
Definition qdrantReady (env : Env.t) (s : Server) : bool :=
  qdrantClient s
  || match Env.qdrantOutage env Qdrant.GetCollections with
     | Some _ => false
     | None =>
         existsb (fun name => String.eqb name (collectionName INDEXING_CONFIG))
                 (Qdrant.collections (qdrant s))
         || match Env.qdrantOutage env
                    (Qdrant.CreateCollection (collectionName INDEXING_CONFIG)) with
            | Some _ => false
            | None => true
            end
     end.

(** Number of files the batches starting at [starts] hold together. *)
Definition batchLengths (files : list string) (starts : list nat) : nat :=
  sum_list (map (fun i => length (JS.arraySlice files i (i + batchSize))) starts).

(** The files [indexCodebase] retains under a root. *)
Definition codeFilesUnder (env : Env.t) (root : string) : list string :=
  List.filter (isCodeFile env) (getAllFilesAt env (Env.fsMaxDepth env) root []).

(* ===================================================================== *)
(** ** Vocabulary of the further statements *)
(* ===================================================================== *)

(** The text put back together from its chunks: the first chunk, then
    every later chunk without its first [overlapSize] characters. *)
Definition joinWithoutOverlap (overlapSize : Z) (chunks : list string) : string :=
  match chunks with
  | [] => ""
  | first :: rest =>
      first +:+ foldr String.append ""
                      (map (fun chunk => JS.sliceFrom chunk overlapSize) rest)
  end.

(** The points held by the server's collection. *)
Definition storedPoints (s : Server) : list Point.t := Qdrant.points (qdrant s).

(** [s'] differs from [s] at most in what was written to the console. *)
Definition sameButConsole (s s' : Server) : Prop :=
  qdrantClient s' = qdrantClient s /\
  openaiClient s' = openaiClient s /\
  isIndexing s' = isIndexing s /\
  indexedCodebases s' = indexedCodebases s /\
  qdrant s' = qdrant s.

(** Further concrete environments. *)
Module Cases.

Definition withConfig (config : Config.t) (env : Env.t) : Env.t := {|
  Env.readdir := Env.readdir env;
  Env.stat := Env.stat env;
  Env.readFile := Env.readFile env;
  Env.fsMaxDepth := Env.fsMaxDepth env;
  Env.pathJoin := Env.pathJoin env;
  Env.pathExtname := Env.pathExtname env;
  Env.pathRelative := Env.pathRelative env;
  Env.md5Hex := Env.md5Hex env;
  Env.configFile := config;
  Env.embeddingsCreate := Env.embeddingsCreate env;
  Env.qdrantOutage := Env.qdrantOutage env;
  Env.similarity := Env.similarity env;
  Env.toFixed := Env.toFixed env;
  Env.nowISOString := Env.nowISOString env;
  Env.decodeURIComponent := Env.decodeURIComponent env;
  Env.chatComplete := Env.chatComplete env
|}.

(** The default configuration of [loadConfig]: no key for embeddings. *)
Definition noEmbeddingKey : Config.t := {|
  Config.provider := "anthropic";
  Config.apiKey := None;
  Config.model := "claude-3-5-sonnet-20241022";
  Config.temperature := QArith_base.Qmake 7 10;
  Config.maxTokens := 4096;
  Config.codebasePath := None;
  Config.openaiApiKey := None;
  Config.qdrantApiKey := None
|}.

Definition mixedRepoNoKey : Env.t := withConfig noEmbeddingKey Scenario.mixedRepo.

(** The same environment at another reading of the clock. *)
Definition atTime (now : string) (env : Env.t) : Env.t := {|
  Env.readdir := Env.readdir env;
  Env.stat := Env.stat env;
  Env.readFile := Env.readFile env;
  Env.fsMaxDepth := Env.fsMaxDepth env;
  Env.pathJoin := Env.pathJoin env;
  Env.pathExtname := Env.pathExtname env;
  Env.pathRelative := Env.pathRelative env;
  Env.md5Hex := Env.md5Hex env;
  Env.configFile := Env.configFile env;
  Env.embeddingsCreate := Env.embeddingsCreate env;
  Env.qdrantOutage := Env.qdrantOutage env;
  Env.similarity := Env.similarity env;
  Env.toFixed := Env.toFixed env;
  Env.nowISOString := now;
  Env.decodeURIComponent := Env.decodeURIComponent env;
  Env.chatComplete := Env.chatComplete env
|}.

(** Two roots that hold the same file at the same relative path. *)
Definition twinRoots : Env.t :=
  Scenario.world
    [("/a", ["util.js"]); ("/b", ["util.js"])]
    [("/a/util.js", Scenario.regular 9); ("/b/util.js", Scenario.regular 9)]
    [("/a/util.js", "let u = 1"); ("/b/util.js", "let u = 1")]
    (fun _ => false)
    Scenario.healthy.

(** A root whose first code file cannot be read. *)
Definition unreadableFirst : Env.t :=
  Scenario.world
    [("/r", ["gone.js"; "main.js"])]
    [("/r/gone.js", Scenario.regular 10); ("/r/main.js", Scenario.regular 14)]
    [("/r/main.js", "console.log(1)")]
    (fun _ => false)
    Scenario.healthy.

(** A root with a dependency directory, a hidden directory and one
    nested source file. *)
Definition nestedRepo : Env.t :=
  Scenario.world
    [("/r", ["node_modules"; ".cache"; "src"; "a.js"]);
     ("/r/node_modules", ["dep.js"]);
     ("/r/.cache", ["tmp.js"]);
     ("/r/src", ["b.js"])]
    [("/r/node_modules", Scenario.directory);
     ("/r/.cache", Scenario.directory);
     ("/r/src", Scenario.directory);
     ("/r/a.js", Scenario.regular 9);
     ("/r/src/b.js", Scenario.regular 9);
     ("/r/node_modules/dep.js", Scenario.regular 9);
     ("/r/.cache/tmp.js", Scenario.regular 9)]
    [("/r/a.js", "let a = 1"); ("/r/src/b.js", "let b = 2");
     ("/r/node_modules/dep.js", "let d = 3"); ("/r/.cache/tmp.js", "let t = 4")]
    (fun _ => false)
    Scenario.healthy.

(** A root whose second entry is a dangling link: [stat] fails on it. *)
Definition danglingLink : Env.t :=
  Scenario.world
    [("/r", ["a.js"; "gone"; "b.js"])]
    [("/r/a.js", Scenario.regular 9); ("/r/b.js", Scenario.regular 9)]
    [("/r/a.js", "let a = 1"); ("/r/b.js", "let b = 2")]
    (fun _ => false)
    Scenario.healthy.

End Cases.

(** A computation keeps a condition on the server that held when it
    started, however it ends. *)
Definition maintains {A} (I : Server -> Prop) (m : M A) : Prop :=
  forall s, I s -> I (snd (m s)).

(** Every stored point satisfies [R]. *)
Definition pointsAll (R : Point.t -> Prop) (s : Server) : Prop :=
  Forall R (storedPoints s).

(** The test of the walker's [continue], and its [for] loop over the
    entries of one directory, under their own names. *)
Definition skipsEntry (file : string) : bool :=
  JS.startsWith "." file
  || String.eqb file "node_modules"
  || String.eqb file ".git".

Definition walkEntries (env : Env.t) (depth' : nat) (dirPath : string)
  : list string -> list string -> list string :=
  fix walk (files : list string) (arrayOfFiles : list string) : list string :=
    match files with
    | [] => arrayOfFiles
    | file :: rest =>
        if skipsEntry file
        then walk rest arrayOfFiles
        else
          let fullPath := Env.pathJoin env dirPath file in
          match Env.stat env fullPath with
          | Err _ => arrayOfFiles
          | Ok stat =>
              if Stats.isDirectory stat
              then walk rest (getAllFilesAt env depth' fullPath arrayOfFiles)
              else walk rest (arrayOfFiles ++ [fullPath])
          end
    end.

(** The directories a walk from [root] goes into: the root, and every
    entry of such a directory that is not skipped and that [stat]
    reports as a directory. *)
Inductive walkedDir (env : Env.t) (root : string) : string -> Prop :=
| walked_root : walkedDir env root root
| walked_entry dirPath files file stat :
    walkedDir env root dirPath ->
    Env.readdir env dirPath = Ok files ->
    file ∈ files ->
    skipsEntry file = false ->
    Env.stat env (Env.pathJoin env dirPath file) = Ok stat ->
    Stats.isDirectory stat = true ->
    walkedDir env root (Env.pathJoin env dirPath file).

(** A path a walk from [root] may list: an entry, returned by [readdir],
    of a directory the walk goes into, that is not skipped and that
    [stat] reports as something other than a directory. *)
Definition listedFile (env : Env.t) (root path : string) : Prop :=
  exists dirPath files file stat,
    walkedDir env root dirPath /\
    Env.readdir env dirPath = Ok files /\
    file ∈ files /\
    skipsEntry file = false /\
    path = Env.pathJoin env dirPath file /\
    Env.stat env path = Ok stat /\
    Stats.isDirectory stat = false.

(** The files [getCodeFiles] keeps before it cuts the list, and the
    block it pushes for one of them. *)
Definition relevantFiles (env : Env.t) (rootPath : string) : list string :=
  List.filter
    (fun file =>
       JS.includes CODE_EXTENSIONS (Env.pathExtname env file)
       && negb (JS.stringIncludes "node_modules" file)
       && negb (JS.stringIncludes ".git" file))
    (getAllFilesAt env (Env.fsMaxDepth env) rootPath []).

Definition codeBlock (env : Env.t) (rootPath file content : string) : string :=
  "### " +:+ Env.pathRelative env rootPath file +:+ ":" +:+ JS.nl +:+ fence
  +:+ getFileExtension env file +:+ JS.nl
  +:+ excerpt content 2000 +:+ JS.nl +:+ fence.

Definition codeBlockOf (env : Env.t) (rootPath file : string) : option string :=
  match Env.readFile env file with
  | Ok content => Some (codeBlock env rootPath file content)
  | Err _ => None
  end.

(** What the server holds about indexed code: the stored points, the
    set of indexed roots and the busy flag. *)
Definition indexState (s : Server) : list Point.t * gset string * bool :=
  (storedPoints s, indexedCodebases s, isIndexing s).

(** The filter of the clear-index route: the points of one root. *)
Definition rootFilter (root : string) : Filter.t :=
  {| Filter.must := [ {| Filter.key := "codebasePath";
                         Filter.matchValue := root |} ] |}.

(* ===================================================================== *)
(** ** HTTP routes of the indexer and the retriever *)
(* ===================================================================== *)

Module Http.

(** The JSON bodies the two routes answer with. *)
Inductive Body :=
| Failure (error : string)
| Indexed (result : IndexResult.t)
| Found (query : string) (results : list SearchResult.t)
        (codebasePath : option string) (limit totalResults : nat).

Record Response := { status : nat; body : Body }.

End Http.

Section RouteCode.

Variable env : Env.t.

(** [POST /index]. *)
Definition postIndex (codebasePath : option string) : M Http.Response :=
  tryCatch
    (if negb (JS.truthyOpt codebasePath) then
       ret {| Http.status := 400;
              Http.body := Http.Failure "Codebase path is required" |}
     else
       let* config := loadConfig env in
       if negb (JS.truthyOpt (Config.openaiApiKey config)) then
         ret {| Http.status := 500;
                Http.body :=
                  Http.Failure
                    "OpenAI API key is required for indexing. Please set openaiApiKey in config." |}
       else
         consoleWrite ("🚀 Indexing request for: " +:+ rootOf codebasePath) ;;
         let* result := indexCodebase env codebasePath in
         ret {| Http.status := 200; Http.body := Http.Indexed result |})
    (fun message =>
       consoleWrite ("❌ Indexing error: " +:+ message) ;;
       ret {| Http.status := 500; Http.body := Http.Failure message |}).

(** [POST /search]; [limit] is absent when the body has none. *)
Definition postSearch (query codebasePath : option string)
           (limit : option nat) : M Http.Response :=
  tryCatch
    (let limit := default 10%nat limit in
     if negb (JS.truthyOpt query) then
       ret {| Http.status := 400;
              Http.body := Http.Failure "Query is required" |}
     else
       let* config := loadConfig env in
       if negb (JS.truthyOpt (Config.openaiApiKey config)) then
         ret {| Http.status := 500;
                Http.body :=
                  Http.Failure
                    "OpenAI API key is required for search. Please set openaiApiKey in config." |}
       else
         consoleWrite ("🔍 Search request: " +:+ default "" query) ;;
         (if JS.truthyOpt codebasePath
          then consoleWrite ("📁 Codebase: " +:+ rootOf codebasePath)
          else ret tt) ;;
         let* results := searchCodebase env (default "" query) codebasePath limit in
         ret {| Http.status := 200;
                Http.body := Http.Found (default "" query) results codebasePath
                                        limit (length results) |})
    (fun message =>
       consoleWrite ("❌ Search error: " +:+ message) ;;
       ret {| Http.status := 500; Http.body := Http.Failure message |}).

End RouteCode.

(* ===================================================================== *)
(** * Properties *)
(* ===================================================================== *)

Section ChunkerFacts.
Import Chunker.

Lemma ceilDiv_spec a b n :
  0 < b -> (ceilDiv a b = n <-> (n - 1) * b < a <= n * b).
Proof.
  intros Hb. unfold ceilDiv. split.
  - intros <-.
    pose proof (Z.div_mod (a + b - 1) b) as Hdm.
    pose proof (Z.mod_pos_bound (a + b - 1) b Hb) as Hm.
    nia.
  - intros [Hlo Hhi]. symmetry. apply (Z.div_unique _ _ _ (a + b - 1 - n * b)); lia.
Qed.

Lemma chunkLoop_more_fuel fuel text w o :
  forall start acc r extra,
    chunkLoop fuel text w o start acc = Some r ->
    chunkLoop (fuel + extra) text w o start acc = Some r.
Proof.
  induction fuel as [|fuel IH]; intros start acc r extra H; [discriminate|].
  simpl in *.
  destruct (start <? JS.length text); [|exact H].
  destruct (Z.min (start + w) (JS.length text) =? JS.length text); [exact H|].
  now apply IH.
Qed.

Lemma chunkLoop_unfold fuel text w o start acc :
  chunkLoop (S fuel) text w o start acc =
  if start <? JS.length text then
    if Z.min (start + w) (JS.length text) =? JS.length text
    then Some (acc ++ [JS.slice text start (Z.min (start + w) (JS.length text))])
    else chunkLoop fuel text w o (Z.min (start + w) (JS.length text) - o)
           (acc ++ [JS.slice text start (Z.min (start + w) (JS.length text))])
  else Some acc.
Proof. reflexivity. Qed.

(** One run of the loop from the [k]-th window on, when [m] more
    windows precede the last one. *)
Lemma chunkLoop_run text w o (n : nat) :
  0 < w - o ->
  (forall k, (k < n)%nat -> Z.of_nat k * (w - o) < JS.length text) ->
  (forall k, (S k < n)%nat -> Z.of_nat k * (w - o) + w < JS.length text) ->
  (forall k, (S k = n)%nat -> JS.length text <= Z.of_nat k * (w - o) + w) ->
  forall m k acc,
    (k + S m = n)%nat ->
    chunkLoop (S m) text w o (Z.of_nat k * (w - o)) acc
    = Some (acc ++ map (specWindow text w o) (seq k (S m))).
Proof.
  intros Hd Hin Hmid Hlast.
  induction m as [|m IH]; intros k acc Hk; rewrite chunkLoop_unfold.
  - assert (Hs : Z.of_nat k * (w - o) < JS.length text) by (apply Hin; lia).
    assert (He : JS.length text <= Z.of_nat k * (w - o) + w)
      by (apply Hlast; lia).
    destruct (Z.ltb_spec (Z.of_nat k * (w - o)) (JS.length text)); [|lia].
    destruct (Z.eqb_spec (Z.min (Z.of_nat k * (w - o) + w) (JS.length text))
                         (JS.length text)); [|lia].
    reflexivity.
  - assert (Hs : Z.of_nat k * (w - o) < JS.length text) by (apply Hin; lia).
    assert (Hlt : Z.of_nat k * (w - o) + w < JS.length text)
      by (apply Hmid; lia).
    destruct (Z.ltb_spec (Z.of_nat k * (w - o)) (JS.length text)); [|lia].
    destruct (Z.eqb_spec (Z.min (Z.of_nat k * (w - o) + w) (JS.length text))
                         (JS.length text)); [lia|].
    replace (Z.min (Z.of_nat k * (w - o) + w) (JS.length text) - o)
      with (Z.of_nat (S k) * (w - o)) by lia.
    rewrite (IH (S k)) by lia.
    rewrite <- app_assoc. reflexivity.
Qed.

Lemma specChunkCount_pos len w o :
  0 <= o < w -> 0 < len ->
  1 <= specChunkCount len w o <= len.
Proof.
  intros Ho Hlen. unfold specChunkCount.
  destruct (Z.eqb_spec len 0); [lia|].
  destruct (Z.leb_spec len w); [lia|].
  assert (Hd : 0 < w - o) by lia.
  destruct (proj1 (ceilDiv_spec (len - o) (w - o) _ Hd) eq_refl) as [Hlo Hhi].
  nia.
Qed.

Lemma specChunkCount_windows len w o (n : nat) :
  0 <= o < w -> 0 < len ->
  n = Z.to_nat (specChunkCount len w o) ->
  (forall k, (k < n)%nat -> Z.of_nat k * (w - o) < len) /\
  (forall k, (S k < n)%nat -> Z.of_nat k * (w - o) + w < len) /\
  (forall k, (S k = n)%nat -> len <= Z.of_nat k * (w - o) + w).
Proof.
  intros Ho Hlen Hn.
  pose proof (specChunkCount_pos len w o Ho Hlen) as Hpos.
  assert (Hc : Z.of_nat n = specChunkCount len w o) by lia.
  clear Hn. unfold specChunkCount in *.
  destruct (Z.eqb_spec len 0); [lia|].
  destruct (Z.leb_spec len w).
  - repeat split; intros k Hk; nia.
  - assert (Hd : 0 < w - o) by lia.
    destruct (proj1 (ceilDiv_spec (len - o) (w - o) _ Hd) eq_refl) as [Hlo Hhi].
    rewrite <- Hc in Hlo, Hhi.
    repeat split; intros k Hk; nia.
Qed.

(** The loop leaves within [len - start] further iterations whenever
    every iteration moves [start] forward, that is when
    [overlapSize < maxChunkSize]. *)
Lemma chunkLoop_leaves text w o :
  o < w ->
  forall (n : nat) start acc,
    JS.length text - start <= Z.of_nat n ->
    exists r, chunkLoop (S n) text w o start acc = Some r.
Proof.
  intros Hd. induction n as [|n IH]; intros start acc Hn;
    rewrite chunkLoop_unfold.
  - destruct (Z.ltb_spec start (JS.length text)); [lia|]. eauto.
  - destruct (Z.ltb_spec start (JS.length text)); [|eauto].
    destruct (Z.eqb_spec (Z.min (start + w) (JS.length text))
                         (JS.length text)); [eauto|].
    apply IH. lia.
Qed.

(** With [overlapSize >= maxChunkSize > 0] the start offset never
    moves forward, and on a text longer than one window the loop
    never leaves. *)
Lemma chunkLoop_stuck text w o :
  0 < w <= o -> w < JS.length text ->
  forall fuel start acc,
    start <= 0 ->
    chunkLoop fuel text w o start acc = None.
Proof.
  intros Hw Hlen. induction fuel as [|fuel IH]; intros start acc Hs;
    [reflexivity|].
  rewrite chunkLoop_unfold.
  destruct (Z.ltb_spec start (JS.length text)); [|lia].
  destruct (Z.eqb_spec (Z.min (start + w) (JS.length text))
                       (JS.length text)); [lia|].
  apply IH. lia.
Qed.

Lemma splitIntoChunks_windows text w o fuel :
  0 <= o < w ->
  (String.length text < fuel)%nat ->
  splitIntoChunks fuel text w o = Some (specChunks text w o).
Proof.
  intros Ho Hfuel.
  assert (Hlen0 : 0 <= JS.length text) by (unfold JS.length; lia).
  destruct (Z.eq_dec (JS.length text) 0) as [Hz|Hnz].
  - unfold specChunks, specChunkCount, splitIntoChunks.
    rewrite Hz. cbn [Z.eqb Z.to_nat seq map].
    destruct fuel as [|fuel]; [lia|].
    rewrite chunkLoop_unfold, Hz. reflexivity.
  - assert (Hlen : 0 < JS.length text) by lia.
    pose proof (specChunkCount_pos _ w o Ho Hlen) as Hpos.
    remember (Z.to_nat (specChunkCount (JS.length text) w o)) as n eqn:Hn.
    destruct (specChunkCount_windows _ w o n Ho Hlen Hn) as (Hin & Hmid & Hlast).
    destruct n as [|m]; [lia|].
    assert (Hrun := chunkLoop_run text w o (S m) ltac:(lia) Hin Hmid Hlast
                      m 0%nat [] eq_refl).
    unfold splitIntoChunks, specChunks. rewrite <- Hn.
    replace fuel with (S m + (fuel - S m))%nat
      by (unfold JS.length in *; lia).
    apply chunkLoop_more_fuel. exact Hrun.
Qed.

Lemma specChunks_length text w o :
  0 <= o < w ->
  Z.of_nat (length (specChunks text w o))
  = specChunkCount (JS.length text) w o.
Proof.
  intros Ho.
  assert (Hlen0 : 0 <= JS.length text) by (unfold JS.length; lia).
  unfold specChunks. rewrite length_map, length_seq.
  apply Z2Nat.id.
  destruct (Z.eq_dec (JS.length text) 0) as [Hz|Hnz].
  - unfold specChunkCount. rewrite Hz. cbn [Z.eqb]. lia.
  - pose proof (specChunkCount_pos (JS.length text) w o Ho ltac:(lia)). lia.
Qed.

(** With the constants of [INDEXING_CONFIG] the chunks [indexFile] works
    on are the windows of the stated algorithm; the fallback branch of
    [chunksOfContent] is dead. *)
Lemma chunksOfContent_windows content :
  chunksOfContent content = specChunks content 1000 200.
Proof.
  unfold chunksOfContent, splitIntoChunksDefault.
  rewrite (splitIntoChunks_windows content _ _ (S (String.length content)));
    [reflexivity | cbn; lia | lia].
Qed.

(** C1.  For every text and every configuration with
    [0 <= overlapSize < windowSize], [splitIntoChunks] returns (any
    step budget above the text length suffices) exactly the windows of
    the stated algorithm: window [k] starts at
    [k * (windowSize - overlapSize)] and ends [windowSize] further,
    clamped to the text length.  Their number is
    [ceil ((len - overlapSize) / (windowSize - overlapSize))] when
    [len > windowSize], 1 when [0 < len <= windowSize] and 0 for the
    empty text. *)
Theorem splitIntoChunks_count text w o fuel :
  0 <= o < w ->
  (String.length text < fuel)%nat ->
  exists n : nat,
    splitIntoChunks fuel text w o
    = Some (map (fun k =>
                   JS.slice text (Z.of_nat k * (w - o))
                            (Z.min (Z.of_nat k * (w - o) + w) (JS.length text)))
                (seq 0 n)) /\
    Z.of_nat n
    = (if JS.length text =? 0 then 0
       else if JS.length text <=? w then 1
       else ceilDiv (JS.length text - o) (w - o)).
Proof.
  intros Ho Hfuel.
  exists (length (specChunks text w o)). split.
  - rewrite (splitIntoChunks_windows text w o fuel Ho Hfuel).
    unfold specChunks. rewrite length_map, length_seq. reflexivity.
  - exact (specChunks_length text w o Ho).
Qed.

Lemma splitIntoChunks_count_witness :
  exists n : nat,
    splitIntoChunks 8 "abcdefg" 3 1
    = Some (map (fun k =>
                   JS.slice "abcdefg" (Z.of_nat k * 2)
                            (Z.min (Z.of_nat k * 2 + 3) 7))
                (seq 0 n)) /\
    Z.of_nat n = 3.
Proof.
  apply (splitIntoChunks_count "abcdefg" 3 1 8); [lia | simpl; lia].
Defined.

Example splitIntoChunks_abcdefg :
  splitIntoChunks 8 "abcdefg" 3 1 = Some ["abc"; "cde"; "efg"].
Proof. reflexivity. Qed.

Example splitIntoChunks_empty :
  splitIntoChunks 1 "" 3 1 = Some [].
Proof. reflexivity. Qed.

(** The end-to-end scenario of the specification: 2500 characters,
    window 1000, overlap 200. *)
Example splitIntoChunks_2500 :
  option_map (map String.length)
             (splitIntoChunksDefault 2501 (JS.repeat "x" 2500))
  = Some [1000; 1000; 900]%nat.
Proof. vm_compute. reflexivity. Qed.

(** The count formula needs a non-negative overlap: with a negative
    one the loop jumps past the end of the text. *)
Example splitIntoChunks_negative_overlap :
  splitIntoChunks 6 "abcde" 3 (-10) = Some ["abc"] /\
  ceilDiv (5 - -10) (3 - -10) = 2.
Proof. split; reflexivity. Qed.

(** C8, as the code has it.  For every text the loop of
    [splitIntoChunks] leaves, within [len + 1] iterations, whenever
    [overlapSize < maxChunkSize]; this covers the constants of
    [INDEXING_CONFIG], the only values the server passes.  Nothing
    validates the two sizes: called with
    [overlapSize >= maxChunkSize > 0] on a text longer than one window
    the loop never leaves. *)
Theorem splitIntoChunks_terminates text w o :
  (o < w ->
   exists chunks,
     splitIntoChunks (S (String.length text)) text w o = Some chunks) /\
  (exists chunks,
     splitIntoChunksDefault (S (String.length text)) text = Some chunks) /\
  (0 < w <= o -> w < JS.length text ->
   forall fuel, splitIntoChunks fuel text w o = None).
Proof.
  split; [|split].
  - intros Hd. apply chunkLoop_leaves; [exact Hd|]. unfold JS.length. lia.
  - apply chunkLoop_leaves; [cbn; lia|]. unfold JS.length. lia.
  - intros Hw Hlen fuel. apply chunkLoop_stuck; [exact Hw|exact Hlen|lia].
Qed.

Lemma splitIntoChunks_terminates_witness :
  (exists chunks, splitIntoChunks 4 "abc" 2 1 = Some chunks) /\
  (forall fuel, splitIntoChunks fuel "abc" 2 2 = None).
Proof.
  split.
  - apply (proj1 (splitIntoChunks_terminates "abc" 2 1)). lia.
  - apply (proj2 (proj2 (splitIntoChunks_terminates "abc" 2 2)));
      [lia | vm_compute; reflexivity].
Defined.

(** C8, as stated, fails: with [maxChunkSize = overlapSize = 2] the
    call on ["abc"] is not rejected, it enters the loop and never
    returns. *)
Lemma splitIntoChunks_degenerate_not_rejected :
  ~ exists fuel chunks, splitIntoChunks fuel "abc" 2 2 = Some chunks.
Proof.
  intros (fuel & chunks & H).
  unfold splitIntoChunks in H.
  rewrite (chunkLoop_stuck "abc" 2 2) in H;
    [discriminate | lia | vm_compute; reflexivity | lia].
Qed.

End ChunkerFacts.

Section ChunkIdFacts.

(** Two strings cut at their first separator agree piecewise. *)
Lemma cut_at_separator c a a' b b' :
  occurs c a = false -> occurs c a' = false ->
  a +:+ String c b = a' +:+ String c b' ->
  a = a' /\ b = b'.
Proof.
  revert a'. induction a as [|d a IH]; intros [|d' a'] Ha Ha' H; cbn in *.
  - now inversion H.
  - inversion H; subst. rewrite Ascii.eqb_refl in Ha'. discriminate.
  - inversion H; subst. rewrite Ascii.eqb_refl in Ha. discriminate.
  - inversion H; subst.
    apply orb_false_iff in Ha as [_ Ha], Ha' as [_ Ha'].
    destruct (IH a' Ha Ha' H2) as [-> ->]. now split.
Qed.

Lemma digits_no_colon d :
  occurs ":" (DecimalString.NilEmpty.string_of_uint d) = false.
Proof. induction d; cbn; auto. Qed.

Lemma showInt_no_colon z : occurs ":" (JS.showInt z) = false.
Proof.
  unfold JS.showInt, DecimalString.NilZero.string_of_int,
    DecimalString.NilZero.string_of_uint.
  destruct (Z.to_int z) as [d|d]; destruct d; cbn;
    auto using digits_no_colon.
Qed.

Lemma to_int_proper z :
  Z.to_int z <> Decimal.Pos Decimal.Nil /\ Z.to_int z <> Decimal.Neg Decimal.Nil.
Proof.
  destruct z as [|p|p]; cbn; split; try discriminate;
    intros H; inversion H as [Hp];
    exact (DecimalPos.Unsigned.to_uint_nonnil p Hp).
Qed.

Lemma showInt_inj z1 z2 : JS.showInt z1 = JS.showInt z2 -> z1 = z2.
Proof.
  unfold JS.showInt. intros H.
  apply DecimalZ.to_int_inj.
  destruct (to_int_proper z1) as [Hp1 Hn1], (to_int_proper z2) as [Hp2 Hn2].
  pose proof (DecimalString.NilZero.isi _ Hp1 Hn1) as E1.
  pose proof (DecimalString.NilZero.isi _ Hp2 Hn2) as E2.
  rewrite H in E1. congruence.
Qed.

(** The string fed to the hash is the path, the start line in decimal
    and the chunk text joined by [":"], with no escaping.  It determines
    the three inputs whenever neither path contains [":"]: the first
    separator then ends the path and, the line being digits, the second
    one ends the line. *)
Lemma chunkIdInput_injective p1 l1 c1 p2 l2 c2 :
  occurs ":" p1 = false ->
  occurs ":" p2 = false ->
  chunkIdInput p1 l1 c1 = chunkIdInput p2 l2 c2 ->
  p1 = p2 /\ l1 = l2 /\ c1 = c2.
Proof.
  unfold chunkIdInput. intros H1 H2 H.
  change (":" +:+ ?x) with (String ":" x) in H.
  destruct (cut_at_separator _ _ _ _ _ H1 H2 H) as [-> H'].
  change (?a +:+ ":" +:+ ?x) with (a +:+ String ":" x) in H'.
  destruct (cut_at_separator _ _ _ _ _
              (showInt_no_colon l1) (showInt_no_colon l2) H') as [Hl ->].
  apply showInt_inj in Hl. auto.
Qed.

Lemma chunkIdInput_injective_witness :
  "src/a.js" = "src/a.js" /\ 17 = 17 /\ "let x" = "let x".
Proof.
  apply (chunkIdInput_injective "src/a.js" 17 "let x" "src/a.js" 17 "let x");
    reflexivity.
Defined.

(** A [":"] inside the path is not escaped, and two different triples
    give one string. *)
Lemma chunkIdInput_collision :
  chunkIdInput "a" 1 "2:x" = chunkIdInput "a:1" 2 "x" /\
  ("a", 1, "2:x") <> ("a:1", 2, "x").
Proof. split; [reflexivity | discriminate]. Qed.

End ChunkIdFacts.

(** C6.  The identifier that the code calls unique is not: the string
    fed to the hash joins path, start line and text by [":"] without
    escaping anything.  In one root, the first chunk of [a.js] with text
    [x.js:1:let y] and the first chunk of [a.js:1:x.js] with text
    [let y] are different triples with one identifier, under every hash
    function.  Indexing that root counts two chunks and leaves one point
    in the store: the second upsert has replaced the chunk of [a.js]. *)
Theorem generateChunkId_collides_in_one_root :
  (forall env,
      generateChunkId env "a.js" (chunkStartLine 0) "x.js:1:let y"
      = generateChunkId env "a.js:1:x.js" (chunkStartLine 0) "let y") /\
  ("a.js", chunkStartLine 0, "x.js:1:let y")
  <> ("a.js:1:x.js", chunkStartLine 0, "let y") /\
  codeFilesUnder Scenario.collidingNames "/r" = ["/r/a.js"; "/r/a.js:1:x.js"] /\
  fst (indexCodebase Scenario.collidingNames (Some "/r") initialServer)
  = Ok {| IndexResult.totalChunks := 2; IndexResult.processedFiles := 2 |} /\
  map (fun point => (Payload.filePath (Point.payload point),
                     Payload.codeChunk (Point.payload point)))
      (Qdrant.points
         (qdrant (snd (indexCodebase Scenario.collidingNames (Some "/r")
                         initialServer))))
  = [("a.js:1:x.js", "let y")].
Proof.
  split; [intros env; unfold generateChunkId; f_equal; reflexivity|].
  split; [discriminate|].
  repeat split; vm_compute; reflexivity.
Qed.

(* ===================================================================== *)
(** ** What a computation leaves alone *)
(* ===================================================================== *)

Section KeepsFacts.

Context {X : Type} (aspect : Server -> X).

Lemma keeps_ret {A} (a : A) : keeps aspect (ret a).
Proof. intros s. reflexivity. Qed.

Lemma keeps_throw {A} message : keeps aspect (@throw A message).
Proof. intros s. reflexivity. Qed.

Lemma keeps_await {A} (r : Result A) : keeps aspect (await r).
Proof. intros s. reflexivity. Qed.

Lemma keeps_get : keeps aspect get.
Proof. intros s. reflexivity. Qed.

Lemma keeps_modify f :
  (forall s, aspect (f s) = aspect s) -> keeps aspect (modify f).
Proof. intros H s. apply H. Qed.

Lemma keeps_bind {A B} (m : M A) (k : A -> M B) :
  keeps aspect m -> (forall a, keeps aspect (k a)) -> keeps aspect (bind m k).
Proof.
  intros Hm Hk s. unfold bind. specialize (Hm s).
  destruct (m s) as [[a|e] s1]; cbn in *; [|exact Hm].
  rewrite (Hk a s1). exact Hm.
Qed.

Lemma keeps_tryCatch {A} (m : M A) handler :
  keeps aspect m -> (forall e, keeps aspect (handler e)) ->
  keeps aspect (tryCatch m handler).
Proof.
  intros Hm Hh s. unfold tryCatch. specialize (Hm s).
  destruct (m s) as [[a|e] s1]; cbn in *; [exact Hm|].
  rewrite (Hh e s1). exact Hm.
Qed.

Lemma keeps_promiseAllMap {A B} (f : A -> M B) xs :
  (forall x, keeps aspect (f x)) -> keeps aspect (promiseAllMap f xs).
Proof.
  intros Hf. induction xs as [|x xs IH]; cbn [promiseAllMap].
  - apply keeps_ret.
  - apply keeps_bind; [apply Hf|]. intros y.
    apply keeps_bind; [apply IH|]. intros ys. apply keeps_ret.
Qed.

End KeepsFacts.

Create HintDb keeps discriminated.

Ltac keeps_step :=
  lazymatch goal with
  | |- keeps _ (ret _) => apply keeps_ret
  | |- keeps _ (throw _) => apply keeps_throw
  | |- keeps _ (await _) => apply keeps_await
  | |- keeps _ get => apply keeps_get
  | |- keeps _ (bind _ _) => apply keeps_bind; [|intros ?]
  | |- keeps _ (tryCatch _ _) => apply keeps_tryCatch; [|intros ?]
  | |- keeps _ (modify _) => apply keeps_modify; intros ?; reflexivity
  | |- keeps _ (consoleWrite _) => apply keeps_modify; intros ?; reflexivity
  | |- keeps _ (promiseAllMap _ _) => apply keeps_promiseAllMap; intros ?
  | |- keeps _ (if ?b then _ else _) => destruct b
  | |- keeps _ (match ?x with _ => _ end) => destruct x
  | |- keeps _ _ => solve [auto with keeps]
  end.

Ltac keeps_tac := repeat keeps_step.

Section RegistryFacts.

Variable env : Env.t.

Lemma keeps_initializeQdrant : keeps registry (initializeQdrant env).
Proof.
  unfold initializeQdrant, loadConfig, qdrantGetCollections,
    qdrantCreateCollection, outage. keeps_tac.
Qed.

Lemma keeps_initializeOpenAI config : keeps registry (initializeOpenAI config).
Proof. unfold initializeOpenAI. keeps_tac. Qed.

Lemma keeps_createEmbeddings texts : keeps registry (createEmbeddings env texts).
Proof. unfold createEmbeddings. keeps_tac. Qed.

Lemma keeps_qdrantUpsert c pt : keeps registry (qdrantUpsert env c pt).
Proof. unfold qdrantUpsert, outage, nullClient. keeps_tac. Qed.

Lemma keeps_qdrantSearch c v f l t : keeps registry (qdrantSearch env c v f l t).
Proof. unfold qdrantSearch, outage, nullClient. keeps_tac. Qed.

Lemma keeps_qdrantDelete c f : keeps registry (qdrantDelete env c f).
Proof. unfold qdrantDelete, outage, nullClient. keeps_tac. Qed.

Hint Resolve keeps_initializeQdrant keeps_initializeOpenAI
  keeps_createEmbeddings keeps_qdrantUpsert keeps_qdrantSearch
  keeps_qdrantDelete : keeps.

Lemma keeps_indexChunks rel root chunks :
  forall i n, keeps registry (indexChunks env rel root chunks i n).
Proof.
  induction chunks as [|chunk rest IH]; intros i n; cbn [indexChunks].
  - keeps_tac.
  - unfold indexChunk. keeps_tac.
Qed.

Hint Resolve keeps_indexChunks : keeps.

Lemma keeps_indexFile file root : keeps registry (indexFile env file root).
Proof. unfold indexFile. keeps_tac. Qed.

Hint Resolve keeps_indexFile : keeps.

Lemma keeps_tallyResults results total :
  forall t p, keeps registry (tallyResults results total t p).
Proof.
  induction results as [|[file chunks] rest IH]; intros t p;
    cbn [tallyResults]; keeps_tac.
Qed.

Hint Resolve keeps_tallyResults : keeps.

Lemma keeps_indexBatches root files starts :
  forall t p, keeps registry (indexBatches env root files starts t p).
Proof.
  induction starts as [|i rest IH]; intros t p; cbn [indexBatches];
    keeps_tac.
Qed.

Lemma keeps_searchCodebase q cp limit :
  keeps registry (searchCodebase env q cp limit).
Proof. unfold searchCodebase, loadConfig. keeps_tac. Qed.

Hint Resolve keeps_searchCodebase : keeps.

Lemma keeps_getCodebaseContext cp : keeps registry (getCodebaseContext env cp).
Proof. unfold getCodebaseContext. keeps_tac. Qed.

Lemma keeps_getIndexedCodebaseContext q cp :
  keeps registry (getIndexedCodebaseContext env q cp).
Proof. unfold getIndexedCodebaseContext. keeps_tac. Qed.

Hint Resolve keeps_getCodebaseContext keeps_getIndexedCodebaseContext : keeps.

Lemma keeps_sendMessage config prompt cp persona indexed :
  keeps registry (sendMessage env config prompt cp persona indexed).
Proof. unfold sendMessage, createClient. keeps_tac. Qed.

End RegistryFacts.

(* ===================================================================== *)
(** ** Stepping through a computation *)
(* ===================================================================== *)

Section StepFacts.

Lemma bind_ok {A B} (m : M A) (k : A -> M B) s a s' :
  m s = (Ok a, s') -> bind m k s = k a s'.
Proof. intros H. unfold bind. now rewrite H. Qed.

Lemma bind_err {A B} (m : M A) (k : A -> M B) s e s' :
  m s = (Err e, s') -> bind m k s = (Err e, s').
Proof. intros H. unfold bind. now rewrite H. Qed.

Variable env : Env.t.

Lemma loadConfig_resolves s : loadConfig env s = (Ok (Env.configFile env), s).
Proof. reflexivity. Qed.

Lemma initializeQdrant_ready s :
  qdrantClient s = true -> initializeQdrant env s = (Ok tt, s).
Proof.
  intros H. unfold initializeQdrant, bind, get. now rewrite H.
Qed.

Lemma initializeOpenAI_ready config s :
  openaiClient s = true -> initializeOpenAI config s = (Ok tt, s).
Proof.
  intros H. unfold initializeOpenAI, bind, get. now rewrite H.
Qed.

Lemma createEmbeddings_accepted texts s embeddings :
  openaiClient s = true ->
  Env.embeddingsCreate env texts = Ok embeddings ->
  createEmbeddings env texts s = (Ok embeddings, s).
Proof.
  intros Ho He. unfold createEmbeddings, bind, get, tryCatch, await.
  now rewrite Ho, He.
Qed.

Lemma createEmbeddings_refused texts s e :
  openaiClient s = true ->
  Env.embeddingsCreate env texts = Err e ->
  createEmbeddings env texts s = (Err ("Failed to create embeddings: " +:+ e), s).
Proof.
  intros Ho He. unfold createEmbeddings, bind, get, tryCatch, await.
  now rewrite Ho, He.
Qed.

End StepFacts.

(* ===================================================================== *)
(** ** Context assembler and the chat path *)
(* ===================================================================== *)

Section StatelessFacts.

Lemma stateless_ret {A} (a : A) : stateless (ret a).
Proof. intros s1 s2. reflexivity. Qed.

Lemma stateless_throw {A} message : stateless (@throw A message).
Proof. intros s1 s2. reflexivity. Qed.

Lemma stateless_await {A} (r : Result A) : stateless (await r).
Proof. intros s1 s2. reflexivity. Qed.

Lemma stateless_bind {A B} (m : M A) (k : A -> M B) :
  stateless m -> (forall a, stateless (k a)) -> stateless (bind m k).
Proof.
  intros Hm Hk s1 s2. unfold bind. specialize (Hm s1 s2).
  destruct (m s1) as [[a1|e1] t1], (m s2) as [[a2|e2] t2]; cbn in Hm;
    try discriminate; inversion Hm; subst; [apply Hk | reflexivity].
Qed.

Lemma stateless_tryCatch {A} (m : M A) handler :
  stateless m -> (forall e, stateless (handler e)) ->
  stateless (tryCatch m handler).
Proof.
  intros Hm Hh s1 s2. unfold tryCatch. specialize (Hm s1 s2).
  destruct (m s1) as [[a1|e1] t1], (m s2) as [[a2|e2] t2]; cbn in Hm;
    try discriminate; inversion Hm; subst; [reflexivity | apply Hh].
Qed.

Lemma stateless_consoleWrite line : stateless (consoleWrite line).
Proof. intros s1 s2. reflexivity. Qed.

(** A [try] whose handler always resolves always resolves. *)
Lemma tryCatch_resolves {A} (m : M A) handler :
  (forall e s, exists a, fst (handler e s) = Ok a) ->
  forall s, exists a, fst (tryCatch m handler s) = Ok a.
Proof.
  intros Hh s. unfold tryCatch.
  destruct (m s) as [[a|e] s1]; [exists a; reflexivity | apply Hh].
Qed.

End StatelessFacts.

Ltac stateless_tac :=
  repeat lazymatch goal with
  | |- stateless (ret _) => apply stateless_ret
  | |- stateless (throw _) => apply stateless_throw
  | |- stateless (await _) => apply stateless_await
  | |- stateless (consoleWrite _) => apply stateless_consoleWrite
  | |- stateless (bind _ _) => apply stateless_bind; [|intros ?]
  | |- stateless (tryCatch _ _) => apply stateless_tryCatch; [|intros ?]
  | |- stateless (if ?b then _ else _) => destruct b
  end.

Section ContextFacts.

Variable env : Env.t.

Lemma getCodebaseContext_stateless cp : stateless (getCodebaseContext env cp).
Proof. unfold getCodebaseContext. stateless_tac. Qed.

Lemma getCodebaseContext_resolves cp s :
  exists ctx, fst (getCodebaseContext env cp s) = Ok ctx.
Proof.
  unfold getCodebaseContext.
  destruct (negb (JS.truthyOpt cp)); [eexists; reflexivity|].
  apply tryCatch_resolves. intros e s'. eexists; reflexivity.
Qed.

Lemma getAllFilesAt_unreadable depth root acc e :
  Env.readdir env root = Err e ->
  getAllFilesAt env depth root acc = acc.
Proof. intros H. destruct depth; cbn; [|rewrite H]; reflexivity. Qed.

Lemma getDirectoryStructureAt_unreadable levels root depth e :
  Env.readdir env root = Err e ->
  getDirectoryStructureAt env levels root depth = "".
Proof. intros H. destruct levels; cbn; [|rewrite H]; reflexivity. Qed.

Lemma getKeyFiles_unreadable root e :
  Env.readdir env root = Err e -> getKeyFiles env root = [].
Proof. intros H. unfold getKeyFiles. rewrite H. reflexivity. Qed.

(** C5, what the code does.  For a root whose directory listing cannot
    be read, [getCodebaseContext] does not return the empty string: the
    directory-structure section is pushed whether or not anything was
    rendered, so the result is that section's bare heading. *)
Theorem getCodebaseContext_unreadable_root root e s :
  JS.truthy root = true ->
  Env.readdir env root = Err e ->
  fst (getCodebaseContext env (Some root) s)
  = Ok ("## Directory Structure:" +:+ JS.nl +:+ JS.nl).
Proof.
  intros Ht Hr. unfold getCodebaseContext. cbn [JS.truthyOpt]. rewrite Ht.
  cbn [negb]. change (rootOf (Some root)) with root.
  unfold getCodeFiles, getDirectoryStructure.
  rewrite (getAllFilesAt_unreadable _ _ _ _ Hr).
  rewrite (getDirectoryStructureAt_unreadable _ _ _ _ Hr).
  rewrite (getKeyFiles_unreadable _ _ Hr). reflexivity.
Qed.

Example getCodebaseContext_packageAndMain :
  fst (getCodebaseContext Scenario.packageAndMain (Some "/proj") initialServer)
  = Ok (JS.join JS.nl
          ["## Directory Structure:";
           "📄 package.json";
           "📄 main.js";
           "";
           "## Key Files:";
           "### package.json:";
           "```";
           "{name:x}";
           "```";
           "";
           "## Code Files:";
           "### package.json:";
           "```json";
           "{name:x}";
           "```";
           "";
           "### main.js:";
           "```javascript";
           "console.log(1)";
           "```";
           ""]).
Proof. vm_compute. reflexivity. Qed.

(** For a truthy root the result always starts with the
    directory-structure heading, so it is never the empty string. *)
Lemma getCodebaseContext_never_empty root s :
  JS.truthy root = true ->
  exists rest,
    fst (getCodebaseContext env (Some root) s)
    = Ok ("## Directory Structure:" +:+ rest).
Proof.
  intros Ht. unfold getCodebaseContext. cbn [JS.truthyOpt]. rewrite Ht.
  cbn [negb]. unfold tryCatch, bind, ret.
  set (structure := getDirectoryStructure env _ 3 0).
  set (keyFiles := getKeyFiles env _).
  set (codeFiles := getCodeFiles env _ 10).
  destruct (0 <? length keyFiles)%nat, (0 <? length codeFiles)%nat;
    cbn [fst app JS.join]; eexists; simpl String.append; reflexivity.
Qed.

End ContextFacts.

Lemma getCodebaseContext_unreadable_root_witness :
  fst (getCodebaseContext Scenario.nothing (Some "/missing") initialServer)
  = Ok ("## Directory Structure:" +:+ JS.nl +:+ JS.nl).
Proof.
  apply (getCodebaseContext_unreadable_root Scenario.nothing "/missing"
           "ENOENT: no such file or directory, '/missing'");
    reflexivity.
Defined.

Section RetrievalFailureFacts.

Variable env : Env.t.

Lemma getIndexedCodebaseContext_resolves q cp s :
  exists ctx, fst (getIndexedCodebaseContext env q cp s) = Ok ctx.
Proof.
  unfold getIndexedCodebaseContext.
  destruct (negb (JS.truthyOpt cp)); [eexists; reflexivity|].
  apply tryCatch_resolves. intros e s'. eexists; reflexivity.
Qed.

Lemma getIndexedCodebaseContext_search_failed q cp s e :
  fst (searchCodebase env q cp 5 s) = Err e ->
  fst (getIndexedCodebaseContext env q cp s) = Ok "".
Proof.
  intros H. unfold getIndexedCodebaseContext.
  destruct (negb (JS.truthyOpt cp)); [reflexivity|].
  unfold tryCatch, bind, get.
  destruct (negb (bool_decide (rootOf cp ∈ indexedCodebases s)));
    [reflexivity|].
  destruct (searchCodebase env q cp 5 s) as [[results|e'] s1];
    cbn in H; [discriminate | reflexivity].
Qed.

(** What follows the indexed lookup in [sendMessage]. *)
Lemma sendMessage_rest_stateless config prompt scope persona ctx0 :
  stateless
    (let* codebaseContext :=
       if negb (JS.truthy ctx0) then getCodebaseContext env scope else ret ctx0 in
     let fullPrompt := getPersonaPrompt persona codebaseContext prompt in
     tryCatch
       (await (Env.chatComplete env (Config.provider config) (Config.model config)
                 (Config.maxTokens config) (Config.temperature config) fullPrompt))
       (fun message => throw ("AI request failed: " +:+ message))).
Proof.
  apply stateless_bind.
  - destruct (negb (JS.truthy ctx0));
      [apply getCodebaseContext_stateless | apply stateless_ret].
  - intros ctx. cbv zeta. stateless_tac.
Qed.

Lemma sendMessage_degrades config prompt cp persona s e :
  fst (searchCodebase env prompt (JS.orElse cp (Config.codebasePath config)) 5 s)
  = Err e ->
  fst (sendMessage env config prompt cp persona true s)
  = fst (sendMessage env config prompt cp persona false s).
Proof.
  intros H. unfold sendMessage.
  unfold bind at 1. unfold bind at 3.
  assert (Hc : exists r, createClient config s = (r, s)).
  { unfold createClient.
    repeat match goal with |- context [if ?b then _ else _] => destruct b end;
      eexists; reflexivity. }
  destruct Hc as [[client|message] ->]; [|reflexivity].
  cbn [andb].
  set (scope := JS.orElse cp (Config.codebasePath config)) in *.
  destruct (JS.truthyOpt scope); [|reflexivity].
  pose proof (getIndexedCodebaseContext_search_failed prompt scope s e H) as Hctx.
  unfold bind at 1. unfold bind at 3.
  destruct (getIndexedCodebaseContext env prompt scope s) as [r s1].
  cbn in Hctx. subst r. cbn [ret].
  apply (sendMessage_rest_stateless config prompt scope persona "" s1 s).
Qed.

Lemma sendMessage_errors config prompt cp persona indexed s message :
  fst (sendMessage env config prompt cp persona indexed s) = Err message ->
  message = "Unsupported provider: " +:+ Config.provider config \/
  exists reason, message = "AI request failed: " +:+ reason.
Proof.
  unfold sendMessage. unfold bind at 1.
  assert (Hc : (exists client, createClient config s = (Ok client, s)) \/
               createClient config s
               = (Err ("Unsupported provider: " +:+ Config.provider config), s)).
  { unfold createClient.
    repeat match goal with |- context [if ?b then _ else _] => destruct b end;
      eauto. }
  destruct Hc as [[client ->] | ->]; [|cbn; intros [= <-]; now left].
  unfold bind at 1.
  match goal with
  | |- context [(if ?b then ?m else ret "") s] =>
      assert (H0 : exists ctx s1, (if b then m else ret "") s = (Ok ctx, s1))
  end.
  { destruct (indexed && _).
    - destruct (getIndexedCodebaseContext_resolves prompt
                  (JS.orElse cp (Config.codebasePath config)) s) as [ctx Hctx].
      destruct (getIndexedCodebaseContext env _ _ s) as [r s1].
      cbn in Hctx. subst r. eauto.
    - eexists _, _. reflexivity. }
  destruct H0 as (ctx0 & s1 & ->).
  unfold bind at 1.
  match goal with
  | |- context [(if ?b then ?m else ret ctx0) s1] =>
      assert (H1 : exists ctx s2, (if b then m else ret ctx0) s1 = (Ok ctx, s2))
  end.
  { destruct (negb _).
    - destruct (getCodebaseContext_resolves env
                  (JS.orElse cp (Config.codebasePath config)) s1) as [ctx Hctx].
      destruct (getCodebaseContext env _ s1) as [r s2].
      cbn in Hctx. subst r. eauto.
    - eexists _, _. reflexivity. }
  destruct H1 as (ctx & s2 & ->).
  cbv zeta. unfold tryCatch, await, throw.
  destruct (Env.chatComplete env _ _ _ _ _); cbn; [discriminate|].
  intros [= <-]. right. eauto.
Qed.

(** Without indexed search the reply is the chat completion of the
    prompt built around what the Context Assembler returns. *)
Lemma sendMessage_plain_reply config prompt cp persona s client :
  fst (createClient config s) = Ok client ->
  exists ctx,
    fst (getCodebaseContext env (JS.orElse cp (Config.codebasePath config)) s)
    = Ok ctx /\
    fst (sendMessage env config prompt cp persona false s)
    = match Env.chatComplete env (Config.provider config) (Config.model config)
              (Config.maxTokens config) (Config.temperature config)
              (getPersonaPrompt persona ctx prompt) with
      | Ok reply => Ok reply
      | Err message => Err ("AI request failed: " +:+ message)
      end.
Proof.
  intros Hclient. unfold sendMessage.
  assert (Hc : createClient config s = (Ok client, s)).
  { revert Hclient. unfold createClient.
    repeat match goal with |- context [if ?b then _ else _] => destruct b end;
      cbn; intros H; inversion H; reflexivity. }
  rewrite (bind_ok _ _ _ _ _ Hc). cbv zeta. cbn [andb].
  rewrite (bind_ok _ _ _ _ _ (eq_refl : ret "" s = (Ok "", s))).
  cbn [JS.truthy negb].
  set (scope := JS.orElse cp (Config.codebasePath config)).
  destruct (getCodebaseContext_resolves env scope s) as [ctx Hctx].
  exists ctx. split; [exact Hctx|].
  destruct (getCodebaseContext env scope s) as [r s1] eqn:Hrun.
  cbn in Hctx. subst r.
  rewrite (bind_ok _ _ _ _ _ Hrun).
  unfold tryCatch, await.
  destruct (Env.chatComplete env _ _ _ _ _); reflexivity.
Qed.

Lemma sendMessage_falls_back config prompt cp persona s e client :
  fst (searchCodebase env prompt (JS.orElse cp (Config.codebasePath config)) 5 s)
  = Err e ->
  fst (createClient config s) = Ok client ->
  exists ctx,
    fst (getCodebaseContext env (JS.orElse cp (Config.codebasePath config)) s)
    = Ok ctx /\
    fst (sendMessage env config prompt cp persona true s)
    = match Env.chatComplete env (Config.provider config) (Config.model config)
              (Config.maxTokens config) (Config.temperature config)
              (getPersonaPrompt persona ctx prompt) with
      | Ok reply => Ok reply
      | Err message => Err ("AI request failed: " +:+ message)
      end.
Proof.
  intros Hsearch Hclient.
  destruct (sendMessage_plain_reply config prompt cp persona s client Hclient)
    as (ctx & Hctx & Hreply).
  exists ctx. split; [exact Hctx|].
  rewrite (sendMessage_degrades config prompt cp persona s e Hsearch).
  exact Hreply.
Qed.

Lemma searchCodebase_embedding_failure q cp limit s e :
  qdrantClient s = true -> openaiClient s = true ->
  Env.embeddingsCreate env [q] = Err e ->
  fst (searchCodebase env q cp limit s)
  = Err ("Failed to create embeddings: " +:+ e).
Proof.
  intros Hq Ho He. unfold searchCodebase, tryCatch.
  rewrite (bind_ok _ _ _ _ _ (loadConfig_resolves env s)).
  rewrite (bind_ok _ _ _ _ _ (initializeQdrant_ready env s Hq)).
  rewrite (bind_ok _ _ _ _ _ (initializeOpenAI_ready _ s Ho)).
  rewrite (bind_err _ _ _ _ _ (createEmbeddings_refused env [q] s e Ho He)).
  reflexivity.
Qed.

Lemma searchCodebase_store_failure q cp limit s embeddings e :
  qdrantClient s = true -> openaiClient s = true ->
  Env.embeddingsCreate env [q] = Ok embeddings ->
  Env.qdrantOutage env
    (Qdrant.Search (collectionName INDEXING_CONFIG) (scopeFilter cp)) = Some e ->
  fst (searchCodebase env q cp limit s) = Err e.
Proof.
  intros Hq Ho He Hs. unfold searchCodebase, tryCatch.
  rewrite (bind_ok _ _ _ _ _ (loadConfig_resolves env s)).
  rewrite (bind_ok _ _ _ _ _ (initializeQdrant_ready env s Hq)).
  rewrite (bind_ok _ _ _ _ _ (initializeOpenAI_ready _ s Ho)).
  rewrite (bind_ok _ _ _ _ _ (createEmbeddings_accepted env [q] s _ Ho He)).
  cbv zeta.
  assert (Hq' : qdrantSearch env (collectionName INDEXING_CONFIG)
                  (head embeddings) (scopeFilter cp) limit scoreThreshold s
                = (Err e, s)).
  { unfold qdrantSearch, bind, get, outage. rewrite Hq, Hs. reflexivity. }
  rewrite (bind_err _ _ _ _ _ Hq'). reflexivity.
Qed.

End RetrievalFailureFacts.

(** C9.  On the chat path a failed retrieval never reaches the caller:
    [getIndexedCodebaseContext] always resolves, and resolves to the
    empty string whenever [searchCodebase] throws; [sendMessage] then
    answers exactly as it does without indexed search, and that answer
    is the chat completion of the prompt that [getPersonaPrompt] builds
    around the string [getCodebaseContext] returns for the same root;
    the only errors it can throw are the unsupported provider and the
    failed chat request.  On the direct search interface the same
    failures (query embedding, vector-store search) are thrown to the
    caller. *)
Theorem retrieval_failure_degrades env :
  (forall q cp s, exists ctx, fst (getIndexedCodebaseContext env q cp s) = Ok ctx) /\
  (forall q cp s e,
     fst (searchCodebase env q cp 5 s) = Err e ->
     fst (getIndexedCodebaseContext env q cp s) = Ok "") /\
  (forall config prompt cp persona s e,
     fst (searchCodebase env prompt
            (JS.orElse cp (Config.codebasePath config)) 5 s) = Err e ->
     fst (sendMessage env config prompt cp persona true s)
     = fst (sendMessage env config prompt cp persona false s)) /\
  (forall config prompt cp persona s e client,
     fst (searchCodebase env prompt
            (JS.orElse cp (Config.codebasePath config)) 5 s) = Err e ->
     fst (createClient config s) = Ok client ->
     exists ctx,
       fst (getCodebaseContext env
              (JS.orElse cp (Config.codebasePath config)) s) = Ok ctx /\
       fst (sendMessage env config prompt cp persona true s)
       = match Env.chatComplete env (Config.provider config)
               (Config.model config) (Config.maxTokens config)
               (Config.temperature config)
               (getPersonaPrompt persona ctx prompt) with
         | Ok reply => Ok reply
         | Err message => Err ("AI request failed: " +:+ message)
         end) /\
  (forall config prompt cp persona indexed s message,
     fst (sendMessage env config prompt cp persona indexed s) = Err message ->
     message = "Unsupported provider: " +:+ Config.provider config \/
     exists reason, message = "AI request failed: " +:+ reason) /\
  (forall q cp limit s e,
     qdrantClient s = true -> openaiClient s = true ->
     Env.embeddingsCreate env [q] = Err e ->
     fst (searchCodebase env q cp limit s)
     = Err ("Failed to create embeddings: " +:+ e)) /\
  (forall q cp limit s embeddings e,
     qdrantClient s = true -> openaiClient s = true ->
     Env.embeddingsCreate env [q] = Ok embeddings ->
     Env.qdrantOutage env
       (Qdrant.Search (collectionName INDEXING_CONFIG) (scopeFilter cp))
     = Some e ->
     fst (searchCodebase env q cp limit s) = Err e).
Proof.
  repeat split.
  - apply getIndexedCodebaseContext_resolves.
  - apply getIndexedCodebaseContext_search_failed.
  - apply sendMessage_degrades.
  - apply sendMessage_falls_back.
  - apply sendMessage_errors.
  - apply searchCodebase_embedding_failure.
  - apply searchCodebase_store_failure.
Qed.

Lemma retrieval_failure_degrades_witness :
  fst (getIndexedCodebaseContext Scenario.storeDown "why" (Some "/proj")
         Scenario.projIndexed) = Ok "" /\
  fst (sendMessage Scenario.storeDown Scenario.defaultConfig "why"
         (Some "/proj") "developer" true Scenario.projIndexed)
  = fst (sendMessage Scenario.storeDown Scenario.defaultConfig "why"
           (Some "/proj") "developer" false Scenario.projIndexed) /\
  (exists ctx,
     fst (getCodebaseContext Scenario.storeDown (Some "/proj")
            Scenario.projIndexed) = Ok ctx /\
     fst (sendMessage Scenario.storeDown Scenario.defaultConfig "why"
            (Some "/proj") "developer" true Scenario.projIndexed)
     = Ok ("echo: " +:+ getPersonaPrompt "developer" ctx "why")) /\
  fst (searchCodebase Scenario.storeDown "why" (Some "/proj") 10
         Scenario.projIndexed)
  = Err "connect ECONNREFUSED 127.0.0.1:6333".
Proof.
  destruct (retrieval_failure_degrades Scenario.storeDown)
    as (_ & Hctx & Hsend & Hfall & _ & _ & Hstore).
  split; [|split; [|split]].
  - apply (Hctx "why" (Some "/proj") Scenario.projIndexed
             "connect ECONNREFUSED 127.0.0.1:6333").
    vm_compute. reflexivity.
  - apply (Hsend Scenario.defaultConfig "why" (Some "/proj") "developer"
             Scenario.projIndexed "connect ECONNREFUSED 127.0.0.1:6333").
    vm_compute. reflexivity.
  - apply (Hfall Scenario.defaultConfig "why" (Some "/proj") "developer"
             Scenario.projIndexed "connect ECONNREFUSED 127.0.0.1:6333"
             AnthropicClient).
    + vm_compute. reflexivity.
    + vm_compute. reflexivity.
  - apply (Hstore "why" (Some "/proj") 10%nat Scenario.projIndexed
             [[QArith_base.Qmake 1 1]]); reflexivity.
Defined.

(** In that scenario the prompt sent to the model carries the listing
    and the files of the root, not an empty context. *)
Example retrieval_failure_uses_files :
  match fst (getCodebaseContext Scenario.storeDown (Some "/proj")
               Scenario.projIndexed) with
  | Ok ctx =>
      JS.stringIncludes "## Key Files:" ctx = true /\
      JS.stringIncludes "console.log(1)" ctx = true /\
      fst (sendMessage Scenario.storeDown Scenario.defaultConfig "why"
             (Some "/proj") "developer" true Scenario.projIndexed)
      = Ok ("echo: " +:+ getPersonaPrompt "developer" ctx "why")
  | Err _ => False
  end.
Proof. vm_compute. repeat split. Qed.

(* ===================================================================== *)
(** ** Retriever: scoping *)
(* ===================================================================== *)

Section ScopeFacts.

Lemma bind_inv_ok {A B} (m : M A) (k : A -> M B) s b s' :
  bind m k s = (Ok b, s') ->
  exists a s1, m s = (Ok a, s1) /\ k a s1 = (Ok b, s').
Proof.
  unfold bind. destruct (m s) as [[a|e] s1]; [eauto | discriminate].
Qed.

Lemma insertByScore_elem x y xs :
  y ∈ Qdrant.insertByScore x xs -> y = x \/ y ∈ xs.
Proof.
  induction xs as [|z xs IH]; cbn.
  - intros H. apply list_elem_of_singleton in H. now left.
  - destruct (QArith_base.Qle_bool _ _).
    + intros H. apply elem_of_cons in H as [->|H]; auto.
    + intros H. apply elem_of_cons in H as [->|H].
      * right. apply elem_of_cons. now left.
      * destruct (IH H) as [->|Hin]; [now left|].
        right. apply elem_of_cons. now right.
Qed.

Lemma rank_elem y xs : y ∈ Qdrant.rank xs -> y ∈ xs.
Proof.
  unfold Qdrant.rank. induction xs as [|x xs IH]; cbn; [auto|].
  intros H. apply insertByScore_elem in H as [->|H].
  - apply elem_of_cons. now left.
  - apply elem_of_cons. right. now apply IH.
Qed.

(** The store never returns a point that fails the filter or the
    threshold. *)
Lemma searchPoints_admitted sim pts q f limit threshold sp :
  sp ∈ Qdrant.searchPoints sim pts q f limit threshold ->
  Qdrant.passes f (ScoredPoint.payload sp) = true /\
  QArith_base.Qle_bool threshold (ScoredPoint.score sp) = true.
Proof.
  unfold Qdrant.searchPoints. intros H.
  apply (subseteq_take limit) in H. apply rank_elem in H.
  apply list_elem_of_filter in H as [H _].
  apply andb_prop_elim in H as [H1 H2].
  split; now apply Is_true_eq_true.
Qed.

Lemma passes_scope root payload :
  Qdrant.passes
    (Some {| Filter.must := [ {| Filter.key := "codebasePath";
                                 Filter.matchValue := root |} ] |}) payload
  = true ->
  Payload.codebasePath payload = root.
Proof.
  cbn. unfold Qdrant.holds. cbn. rewrite andb_true_r.
  apply String.eqb_eq.
Qed.

Variable env : Env.t.

Lemma scopeFilter_truthy root :
  JS.truthy root = true ->
  scopeFilter (Some root)
  = Some {| Filter.must := [ {| Filter.key := "codebasePath";
                                Filter.matchValue := root |} ] |}.
Proof. intros H. unfold scopeFilter. cbn [JS.truthyOpt]. now rewrite H. Qed.

Lemma scopeFilter_falsy cp : JS.truthyOpt cp = false -> scopeFilter cp = None.
Proof. intros H. unfold scopeFilter. now rewrite H. Qed.

Lemma searchCodebase_results q cp limit s results s' :
  searchCodebase env q cp limit s = (Ok results, s') ->
  exists sim pts query threshold,
    results = map toSearchResult
                  (Qdrant.searchPoints sim pts query (scopeFilter cp) limit
                                       threshold).
Proof.
  unfold searchCodebase, tryCatch. intros H.
  match type of H with
  | (match ?body s with _ => _ end) = _ => destruct (body s) as [[r|e] s1] eqn:Hb
  end.
  2:{ cbn in H. discriminate. }
  inversion H; subst; clear H.
  apply bind_inv_ok in Hb as (config & s2 & _ & Hb).
  apply bind_inv_ok in Hb as (? & s3 & _ & Hb).
  apply bind_inv_ok in Hb as (? & s4 & _ & Hb).
  apply bind_inv_ok in Hb as (embeddings & s5 & _ & Hb).
  cbv zeta in Hb.
  apply bind_inv_ok in Hb as (searchResult & s6 & Hs & Hb).
  inversion Hb; subst; clear Hb.
  unfold qdrantSearch, bind, get, outage, nullClient in Hs.
  destruct (negb (qdrantClient s5)); [discriminate|].
  destruct (Env.qdrantOutage env _); [discriminate|].
  destruct (head embeddings) as [query|]; [|discriminate].
  inversion Hs; subst. eauto.
Qed.

Lemma searchCodebase_scoped q root limit s results s' :
  JS.truthy root = true ->
  searchCodebase env q (Some root) limit s = (Ok results, s') ->
  Forall (fun r => SearchResult.codebasePath r = root) results.
Proof.
  intros Ht H.
  apply searchCodebase_results in H as (sim & pts & query & thr & ->).
  rewrite (scopeFilter_truthy root Ht).
  apply Forall_forall. intros r Hr.
  apply list_elem_of_fmap in Hr as (sp & -> & Hsp).
  apply searchPoints_admitted in Hsp as [Hp _].
  exact (passes_scope _ _ Hp).
Qed.

Lemma indexCodebase_accepts_truthy p s r s' :
  indexCodebase env p s = (Ok r, s') -> JS.truthyOpt p = true.
Proof.
  unfold indexCodebase, bind, get.
  destruct (isIndexing s); [discriminate|].
  destruct (JS.truthyOpt p); [reflexivity | discriminate].
Qed.

End ScopeFacts.

(** C3, as the code has it.  [searchCodebase] builds the equality filter
    on the payload field [codebasePath] when its [codebasePath] argument
    is truthy, and omits it when the argument is [null], [undefined] or
    the empty string.  Every point [indexFile] stores carries the root it
    was indexed under, [indexCodebase] only accepts truthy roots, and a
    search scoped to a truthy root [A] returns only results whose
    [codebasePath] is [A], whatever else the shared collection holds; in
    particular none of another root [B]. *)
Theorem search_scoped_to_root env :
  (forall root,
     JS.truthy root = true ->
     scopeFilter (Some root)
     = Some {| Filter.must := [ {| Filter.key := "codebasePath";
                                   Filter.matchValue := root |} ] |}) /\
  (forall cp, JS.truthyOpt cp = false -> scopeFilter cp = None) /\
  (forall relativePath root i chunk embedding,
     Payload.codebasePath
       (Point.payload (chunkPoint env relativePath root i chunk embedding))
     = root) /\
  (forall p s r s', indexCodebase env p s = (Ok r, s') -> JS.truthyOpt p = true) /\
  (forall q A limit s results s',
     JS.truthy A = true ->
     searchCodebase env q (Some A) limit s = (Ok results, s') ->
     Forall (fun r => SearchResult.codebasePath r = A) results) /\
  (forall q A B limit s results s',
     JS.truthy A = true -> A <> B ->
     searchCodebase env q (Some A) limit s = (Ok results, s') ->
     Forall (fun r => SearchResult.codebasePath r <> B) results).
Proof.
  split; [apply scopeFilter_truthy|].
  split; [apply scopeFilter_falsy|].
  split; [reflexivity|].
  split; [apply indexCodebase_accepts_truthy|].
  split; [apply searchCodebase_scoped|].
  intros q A B limit s results s' Ht Hne H.
  eapply Forall_impl; [exact (searchCodebase_scoped env _ _ _ _ _ _ Ht H)|].
  cbn. intros r ->. exact Hne.
Qed.

Lemma search_scoped_to_root_witness :
  Forall (fun r => SearchResult.codebasePath r <> "/b")
    [ {| SearchResult.score := QArith_base.Qmake 9 10;
         SearchResult.filePath := "x.js";
         SearchResult.codeChunk := "let a";
         SearchResult.startLine := 1;
         SearchResult.endLine := 1;
         SearchResult.codebasePath := "/a" |} ].
Proof.
  apply (proj2 (proj2 (proj2 (proj2 (proj2
           (search_scoped_to_root Scenario.online)))))
           "where" "/a" "/b" 10%nat Scenario.twoRoots _
           (snd (searchCodebase Scenario.online "where" (Some "/a") 10
                   Scenario.twoRoots)));
    [reflexivity | discriminate | vm_compute; reflexivity].
Defined.

(** C3, as stated, fails for the empty string: it is not [null], yet no
    filter is built and the search returns the chunks of both roots. *)
Lemma search_empty_scope_unfiltered :
  scopeFilter (Some "") = None /\
  match fst (searchCodebase Scenario.online "where" (Some "") 10
               Scenario.twoRoots) with
  | Ok results => map SearchResult.codebasePath results = ["/a"; "/b"]
  | Err _ => False
  end.
Proof. split; vm_compute; reflexivity. Qed.

(* ===================================================================== *)
(** ** Indexer: one file *)
(* ===================================================================== *)

Section IndexFileFacts.

Variable env : Env.t.

Lemma storeAll_clients pts : forall s,
  qdrantClient (storeAll pts s) = qdrantClient s /\
  openaiClient (storeAll pts s) = openaiClient s /\
  console (storeAll pts s) = console s /\
  Qdrant.points (qdrant (storeAll pts s))
  = upsertAll pts (Qdrant.points (qdrant s)).
Proof.
  unfold storeAll, upsertAll.
  induction pts as [|pt pts IH]; intros s; cbn [foldl]; [auto|].
  destruct (IH (storePoint s pt)) as (Hq & Ho & Hc & Hp).
  rewrite Hq, Ho, Hc, Hp. auto.
Qed.

Lemma chunkOutcome_point rel root i chunk pt :
  chunkOutcome env rel root i chunk = Ok pt ->
  pt = expectedPoint env rel root i chunk.
Proof.
  unfold chunkOutcome, expectedPoint.
  destruct (Env.embeddingsCreate env [chunk]); [|discriminate].
  cbv zeta. destruct (Env.qdrantOutage env _); [discriminate|].
  now intros [= <-].
Qed.

(** One iteration on a server whose clients exist. *)
Lemma indexChunk_ready rel root i chunk s :
  qdrantClient s = true -> openaiClient s = true ->
  indexChunk env rel root i chunk s
  = match chunkOutcome env rel root i chunk with
    | Ok pt => (Ok tt, storePoint s pt)
    | Err message => (Err message, s)
    end.
Proof.
  intros Hq Ho. unfold indexChunk, chunkOutcome.
  destruct (Env.embeddingsCreate env [chunk]) as [embeddings|e] eqn:He.
  - rewrite (bind_ok _ _ _ _ _ (createEmbeddings_accepted env _ s _ Ho He)).
    cbv zeta. unfold qdrantUpsert, bind, get, outage. rewrite Hq. cbn [negb].
    destruct (Env.qdrantOutage env _); reflexivity.
  - rewrite (bind_err _ _ _ _ _ (createEmbeddings_refused env _ s _ Ho He)).
    reflexivity.
Qed.

Lemma indexChunks_all rel root chunks :
  forall i n s,
    qdrantClient s = true -> openaiClient s = true ->
    (forall j c, chunks !! j = Some c ->
                 chunkSucceeds env rel root (i + j) c = true) ->
    indexChunks env rel root chunks i n s
    = (Ok (n + Z.of_nat (length chunks)),
       storeAll (pointsFrom env rel root i chunks) s).
Proof.
  induction chunks as [|c rest IH]; intros i n s Hq Ho Hall.
  - cbn. now rewrite Z.add_0_r.
  - cbn [indexChunks pointsFrom]. unfold bind.
    rewrite (indexChunk_ready _ _ _ _ _ Hq Ho).
    pose proof (Hall 0%nat c eq_refl) as H0. rewrite Nat.add_0_r in H0.
    unfold chunkSucceeds in H0.
    destruct (chunkOutcome env rel root i c) as [pt|e] eqn:Hc; [|discriminate].
    apply chunkOutcome_point in Hc. subst pt.
    rewrite IH; [|exact Hq|exact Ho|].
    + f_equal. f_equal. rewrite length_cons. lia.
    + intros j c' Hj. replace (S i + j)%nat with (i + S j)%nat by lia.
      now apply Hall.
Qed.

Lemma indexChunks_fails_at rel root :
  forall k chunks i n s c message,
    qdrantClient s = true -> openaiClient s = true ->
    chunks !! k = Some c ->
    (forall j c', (j < k)%nat -> chunks !! j = Some c' ->
                  chunkSucceeds env rel root (i + j) c' = true) ->
    chunkOutcome env rel root (i + k) c = Err message ->
    indexChunks env rel root chunks i n s
    = (Err message, storeAll (pointsFrom env rel root i (take k chunks)) s).
Proof.
  induction k as [|k IH]; intros [|c0 rest] i n s c message Hq Ho Hk Hbefore Hfail;
    try discriminate.
  - cbn in Hk. injection Hk as ->. rewrite Nat.add_0_r in Hfail.
    cbn [indexChunks]. unfold bind.
    rewrite (indexChunk_ready _ _ _ _ _ Hq Ho), Hfail. reflexivity.
  - cbn in Hk. cbn [indexChunks take pointsFrom]. unfold bind.
    rewrite (indexChunk_ready _ _ _ _ _ Hq Ho).
    pose proof (Hbefore 0%nat c0 ltac:(lia) eq_refl) as H0.
    rewrite Nat.add_0_r in H0. unfold chunkSucceeds in H0.
    destruct (chunkOutcome env rel root i c0) as [pt|e] eqn:Hc; [|discriminate].
    apply chunkOutcome_point in Hc. subst pt.
    apply (IH rest (S i) (n + 1) _ c message); [exact Hq|exact Ho|exact Hk| |].
    + intros j c' Hj Hc'. replace (S i + j)%nat with (i + S j)%nat by lia.
      apply Hbefore; [lia | exact Hc'].
    + replace (S i + k)%nat with (i + S k)%nat by lia. exact Hfail.
Qed.

Lemma indexFile_resolves file root s :
  exists n, fst (indexFile env file root s) = Ok n.
Proof.
  unfold indexFile. apply tryCatch_resolves.
  intros e s'. eexists. reflexivity.
Qed.

Lemma indexFile_resolves_pair file root s :
  exists n s', indexFile env file root s = (Ok n, s').
Proof.
  destruct (indexFile_resolves file root s) as [n Hn].
  destruct (indexFile env file root s) as [r s']. cbn in Hn. subst r. eauto.
Qed.

End IndexFileFacts.

(* ===================================================================== *)
(** ** Indexer: the whole run *)
(* ===================================================================== *)

Section IndexRunFacts.

Variable env : Env.t.

Lemma initializeQdrant_resolves s :
  qdrantReady env s = true -> exists s', initializeQdrant env s = (Ok tt, s').
Proof.
  unfold qdrantReady. intros H.
  destruct (qdrantClient s) eqn:Hq.
  - exists s. now apply initializeQdrant_ready.
  - cbn [orb] in H.
    unfold initializeQdrant, qdrantGetCollections, qdrantCreateCollection,
      outage, loadConfig, bind, get, tryCatch, await, modify, ret, consoleWrite,
      modify.
    rewrite Hq. cbv beta iota. cbn [negb qdrant setQdrantClient].
    destruct (Env.qdrantOutage env Qdrant.GetCollections); [discriminate|].
    cbv beta iota. cbn [qdrant setQdrantClient].
    destruct (existsb _ (Qdrant.collections (qdrant s))) eqn:Hex; cbn [orb negb] in *.
    + eexists. reflexivity.
    + destruct (Env.qdrantOutage env (Qdrant.CreateCollection _));
        [discriminate|]. eexists. reflexivity.
Qed.

Lemma initializeOpenAI_resolves config s :
  exists s', initializeOpenAI config s = (Ok tt, s').
Proof.
  unfold initializeOpenAI, bind, get.
  destruct (_ && _); eexists; reflexivity.
Qed.

Lemma promiseAllMap_indexFile root batch :
  forall s, exists results s',
    promiseAllMap
      (fun file => let* chunks := indexFile env file root in ret (file, chunks))
      batch s = (Ok results, s') /\
    map fst results = batch.
Proof.
  induction batch as [|file rest IH]; intros s; cbn [promiseAllMap].
  - exists [], s. split; reflexivity.
  - destruct (indexFile_resolves_pair env file root s) as (n & s1 & Hn).
    assert (H1 : (let* chunks := indexFile env file root in ret (file, chunks)) s
                 = (Ok (file, n), s1))
      by (unfold bind; rewrite Hn; reflexivity).
    destruct (IH s1) as (results & s2 & Hr & Hm).
    rewrite (bind_ok _ _ _ _ _ H1), (bind_ok _ _ _ _ _ Hr).
    exists ((file, n) :: results), s2. split; [reflexivity|].
    cbn. now rewrite Hm.
Qed.

Lemma tallyResults_resolves results total :
  forall t p s, exists t' s',
    tallyResults results total t p s
    = (Ok (t', p + Z.of_nat (length results)), s').
Proof.
  induction results as [|[file chunks] rest IH]; intros t p s;
    cbn [tallyResults].
  - exists t, s. cbn. now rewrite Z.add_0_r.
  - cbv zeta.
    assert (Hlog : exists s1,
              (if (p + 1) mod 10 =? 0
               then consoleWrite
                      ("📊 Progress: " +:+ JS.showInt (p + 1) +:+ "/"
                       +:+ JS.showInt (Z.of_nat total) +:+ " files, "
                       +:+ JS.showInt (t + chunks) +:+ " chunks indexed")
               else ret tt) s = (Ok tt, s1)).
    { destruct (_ =? 0); eexists; reflexivity. }
    destruct Hlog as [s1 Hlog].
    rewrite (bind_ok _ _ _ _ _ Hlog).
    destruct (IH (t + chunks) (p + 1) s1) as (t' & s' & ->).
    exists t', s'. f_equal. f_equal. f_equal. rewrite length_cons. lia.
Qed.

Lemma indexBatches_resolves root files starts :
  forall t p s, exists t' s',
    indexBatches env root files starts t p s
    = (Ok (t', p + Z.of_nat (batchLengths files starts)), s').
Proof.
  unfold batchLengths.
  induction starts as [|i rest IH]; intros t p s; cbn [indexBatches].
  - exists t, s. cbn. now rewrite Z.add_0_r.
  - cbv zeta.
    destruct (promiseAllMap_indexFile root
                (JS.arraySlice files i (i + batchSize)) s)
      as (results & s1 & Hr & Hm).
    rewrite (bind_ok _ _ _ _ _ Hr).
    destruct (tallyResults_resolves results (length files) t p s1)
      as (t1 & s2 & Ht).
    rewrite (bind_ok _ _ _ _ _ Ht). cbn [fst snd].
    destruct (IH t1 (p + Z.of_nat (length results)) s2) as (t' & s' & ->).
    exists t', s'. f_equal. f_equal. f_equal.
    cbn [map sum_list]. rewrite <- Hm, length_map. unfold id. lia.
Qed.

(** The batches cover every file once. *)
Lemma batchLengths_prefix (files : list string) (m : nat) :
  batchLengths files (map (fun j => (j * batchSize)%nat) (seq 0 m))
  = Nat.min (length files) (m * batchSize).
Proof.
  unfold batchLengths, batchSize.
  induction m as [|m IH]; [cbn; lia|].
  rewrite seq_S, !map_app, sum_list_with_app, IH. cbn.
  unfold JS.arraySlice.
  rewrite length_take, length_drop. lia.
Qed.

Lemma batchLengths_forRange (files : list string) :
  batchLengths files (JS.forRange (length files) batchSize) = length files.
Proof.
  unfold JS.forRange. rewrite batchLengths_prefix. unfold batchSize.
  pose proof (Nat.div_mod (length files + 10 - 1) 10 ltac:(lia)) as Hdm.
  pose proof (Nat.mod_upper_bound (length files + 10 - 1) 10 ltac:(lia)) as Hm.
  lia.
Qed.

Lemma registry_eq s s' :
  registry s' = registry s ->
  isIndexing s' = isIndexing s /\ indexedCodebases s' = indexedCodebases s.
Proof. unfold registry. intros [= -> ->]. auto. Qed.

(** The run either stops at the initialisation of the vector store or
    goes through; nothing after the initialisation can throw. *)
Lemma indexCodebaseRun_shape root s :
  (exists e s', indexCodebaseRun env root s = (Err e, s') /\
                registry s' = registry s /\
                qdrantReady env s = false) \/
  (exists t s', indexCodebaseRun env root s
                = (Ok {| IndexResult.totalChunks := t;
                         IndexResult.processedFiles :=
                           Z.of_nat (length (codeFilesUnder env root)) |}, s') /\
                isIndexing s' = isIndexing s /\
                indexedCodebases s' = {[ root ]} ∪ indexedCodebases s).
Proof.
  unfold indexCodebaseRun.
  rewrite (bind_ok _ _ _ _ _ (loadConfig_resolves env s)).
  pose proof (keeps_initializeQdrant env s) as Hk1.
  destruct (initializeQdrant env s) as [[[]|e] s1] eqn:Hinit; cbn [snd] in Hk1.
  2:{ left. exists e, s1. rewrite (bind_err _ _ _ _ _ Hinit).
      split; [reflexivity|]. split; [exact Hk1|].
      destruct (qdrantReady env s) eqn:Hr; [|reflexivity].
      destruct (initializeQdrant_resolves s Hr) as [s1' Hs1'].
      rewrite Hs1' in Hinit. discriminate. }
  right. rewrite (bind_ok _ _ _ _ _ Hinit).
  pose proof (keeps_initializeOpenAI (Env.configFile env) s1) as Hk2.
  destruct (initializeOpenAI_resolves (Env.configFile env) s1) as [s2 Hopen].
  rewrite Hopen in Hk2. cbn [snd] in Hk2.
  rewrite (bind_ok _ _ _ _ _ Hopen).
  unfold getAllFiles.
  rewrite (bind_ok _ _ _ _ _ (eq_refl : ret _ s2 = (Ok _, s2))).
  cbv zeta. fold (codeFilesUnder env root).
  set (line := "📁 Found " +:+ _).
  rewrite (bind_ok _ _ _ _ _ (eq_refl : consoleWrite line s2 = (Ok tt, _))).
  match goal with |- context [bind (indexBatches env root ?files ?starts 0 0) _ ?s3] =>
    pose proof (keeps_indexBatches env root files starts 0 0 s3) as Hk3;
    destruct (indexBatches_resolves root files starts 0 0 s3)
      as (t & s4 & Hb)
  end.
  rewrite Hb in Hk3. cbn [snd] in Hk3.
  rewrite (bind_ok _ _ _ _ _ Hb).
  rewrite batchLengths_forRange. cbn [fst snd Z.add].
  eexists t, _. split; [reflexivity|].
  apply registry_eq in Hk1 as [Hf1 Hs1], Hk2 as [Hf2 Hs2], Hk3 as [Hf3 Hs3].
  cbn in Hf3, Hs3. cbn.
  rewrite Hf3, Hf2, Hf1, Hs3, Hs2, Hs1. auto.
Qed.

Lemma indexCodebaseResume_shape root s :
  (exists e s', indexCodebaseResume env root s = (Err e, s') /\
                isIndexing s' = false /\
                indexedCodebases s' = indexedCodebases s /\
                qdrantReady env s = false) \/
  (exists t s', indexCodebaseResume env root s
                = (Ok {| IndexResult.totalChunks := t;
                         IndexResult.processedFiles :=
                           Z.of_nat (length (codeFilesUnder env root)) |}, s') /\
                isIndexing s' = false /\
                indexedCodebases s' = {[ root ]} ∪ indexedCodebases s).
Proof.
  unfold indexCodebaseResume, tryFinally, tryCatch.
  destruct (indexCodebaseRun_shape root s)
    as [(e & s' & H & Hreg & Hnr) | (t & s' & H & Hf & Hs)]; rewrite H.
  - left. apply registry_eq in Hreg as [_ Hs].
    eexists e, _. split; [reflexivity|]. cbn. auto.
  - right. eexists t, _. split; [reflexivity|]. cbn. auto.
Qed.

(** [indexCodebase] is its synchronous prefix followed by its
    continuation. *)
Lemma indexCodebase_split p s :
  indexCodebase env p s
  = bind (indexCodebaseEnter p)
         (fun _ => indexCodebaseResume env (rootOf p)) s.
Proof.
  unfold indexCodebase, indexCodebaseEnter, indexCodebaseResume, bind, get.
  destruct (isIndexing s); [reflexivity|].
  destruct (negb (JS.truthyOpt p)); reflexivity.
Qed.

Lemma indexCodebaseEnter_accepts p s :
  isIndexing s = false -> JS.truthyOpt p = true ->
  exists s', indexCodebaseEnter p s = (Ok tt, s') /\
             isIndexing s' = true /\
             indexedCodebases s' = indexedCodebases s /\
             qdrantReady env s' = qdrantReady env s.
Proof.
  intros Hi Ht. unfold indexCodebaseEnter, bind, get.
  rewrite Hi, Ht. cbn [negb]. eexists. split; [reflexivity|]. auto.
Qed.


Lemma indexCodebase_resolves p s :
  isIndexing s = false -> JS.truthyOpt p = true -> qdrantReady env s = true ->
  exists r s', indexCodebase env p s = (Ok r, s').
Proof.
  intros Hi Ht Hr. rewrite indexCodebase_split.
  destruct (indexCodebaseEnter_accepts p s Hi Ht) as (s1 & He & _ & _ & Hr1).
  rewrite (bind_ok _ _ _ _ _ He).
  destruct (indexCodebaseResume_shape (rootOf p) s1)
    as [(e & s2 & H2 & _ & _ & Hn) | (t & s2 & H2 & _)].
  - congruence.
  - eauto.
Qed.




End IndexRunFacts.



Section ChunkFailureFacts.

Variable env : Env.t.

Lemma indexFile_body file root s st content :
  Env.stat env file = Ok st ->
  Stats.size st <= maxFileSize INDEXING_CONFIG ->
  Env.readFile env file = Ok content ->
  indexFile env file root s
  = tryCatch
      (indexChunks env (Env.pathRelative env root file) root
                   (Chunker.chunksOfContent content) 0 0)
      (fun message =>
         consoleWrite ("❌ Failed to index file " +:+ file +:+ ": "
                       +:+ message) ;;
         ret 0) s.
Proof.
  intros Hst Hsz Hrd. unfold indexFile, tryCatch, bind at 1, await.
  rewrite Hst.
  destruct (Z.gtb_spec (Stats.size st) (maxFileSize INDEXING_CONFIG)); [lia|].
  unfold bind at 1. rewrite Hrd. reflexivity.
Qed.

Lemma indexFile_every_chunk_stored file root s st content :
  qdrantClient s = true -> openaiClient s = true ->
  Env.stat env file = Ok st ->
  Stats.size st <= maxFileSize INDEXING_CONFIG ->
  Env.readFile env file = Ok content ->
  (forall j c, Chunker.chunksOfContent content !! j = Some c ->
               chunkSucceeds env (Env.pathRelative env root file) root j c = true) ->
  indexFile env file root s
  = (Ok (Z.of_nat (length (Chunker.chunksOfContent content))),
     storeAll (pointsFrom env (Env.pathRelative env root file) root 0
                 (Chunker.chunksOfContent content)) s).
Proof.
  intros Hq Ho Hst Hsz Hrd Hall.
  rewrite (indexFile_body _ _ _ _ _ Hst Hsz Hrd). unfold tryCatch.
  rewrite (indexChunks_all env _ _ _ 0%nat 0 s Hq Ho Hall). reflexivity.
Qed.

(** Why a chunk fails: its embedding was refused, or the embedding was
    obtained and the store refused the point. *)
Lemma chunkOutcome_cause rel root k c message :
  chunkOutcome env rel root k c = Err message ->
  (exists e, Env.embeddingsCreate env [c] = Err e /\
             message = "Failed to create embeddings: " +:+ e) \/
  (exists embeddings,
      Env.embeddingsCreate env [c] = Ok embeddings /\
      Env.qdrantOutage env
        (Qdrant.Upsert (collectionName INDEXING_CONFIG)
           (chunkPoint env rel root k c (head embeddings))) = Some message).
Proof.
  unfold chunkOutcome.
  destruct (Env.embeddingsCreate env [c]) as [embeddings|e].
  - cbv zeta. destruct (Env.qdrantOutage env _) as [m|] eqn:Hout;
      [|discriminate].
    intros [= <-]. right. exists embeddings. auto.
  - intros [= <-]. left. exists e. auto.
Qed.

Lemma indexFile_first_failure file root s st content k c message :
  qdrantClient s = true -> openaiClient s = true ->
  Env.stat env file = Ok st ->
  Stats.size st <= maxFileSize INDEXING_CONFIG ->
  Env.readFile env file = Ok content ->
  Chunker.chunksOfContent content !! k = Some c ->
  (forall j c', (j < k)%nat ->
                Chunker.chunksOfContent content !! j = Some c' ->
                chunkSucceeds env (Env.pathRelative env root file) root j c' = true) ->
  chunkOutcome env (Env.pathRelative env root file) root k c = Err message ->
  fst (indexFile env file root s) = Ok 0 /\
  Qdrant.points (qdrant (snd (indexFile env file root s)))
  = upsertAll (pointsFrom env (Env.pathRelative env root file) root 0
                 (take k (Chunker.chunksOfContent content)))
              (Qdrant.points (qdrant s)) /\
  console (snd (indexFile env file root s))
  = console s ++ ["❌ Failed to index file " +:+ file +:+ ": " +:+ message].
Proof.
  intros Hq Ho Hst Hsz Hrd Hk Hbefore Hfail.
  rewrite (indexFile_body _ _ _ _ _ Hst Hsz Hrd). unfold tryCatch.
  rewrite (indexChunks_fails_at env _ _ k _ 0%nat 0 s c message Hq Ho Hk
             Hbefore Hfail).
  destruct (storeAll_clients
              (pointsFrom env (Env.pathRelative env root file) root 0
                 (take k (Chunker.chunksOfContent content))) s)
    as (_ & _ & Hc & Hp).
  cbn. rewrite Hc, Hp. auto.
Qed.

End ChunkFailureFacts.

(** C4, as the code has it.  [indexFile] catches a chunk's embedding or
    upsert failure once, around the whole file: it never throws, so the
    run goes on with the other files and [indexCodebase] still resolves;
    but the failure ends that file's chunk loop.  The points of the
    chunks before the first failing one stay in the store; the failing
    chunk, whose embedding was refused or was obtained and then refused
    by the store, adds no point, and neither does any later chunk; one
    line is logged and the file counts 0 chunks, also for the chunks
    whose points were stored.  Only when every chunk succeeds are all of
    them stored, with their embeddings, and counted. *)
Theorem indexFile_chunk_failure env file root s st content :
  qdrantClient s = true -> openaiClient s = true ->
  Env.stat env file = Ok st ->
  Stats.size st <= maxFileSize INDEXING_CONFIG ->
  Env.readFile env file = Ok content ->
  let relativePath := Env.pathRelative env root file in
  let chunks := Chunker.chunksOfContent content in
  (forall file' root' s', exists n, fst (indexFile env file' root' s') = Ok n) /\
  (forall p s0,
     isIndexing s0 = false -> JS.truthyOpt p = true ->
     qdrantReady env s0 = true ->
     exists r s', indexCodebase env p s0 = (Ok r, s')) /\
  ((forall j c, chunks !! j = Some c ->
                chunkSucceeds env relativePath root j c = true) ->
   indexFile env file root s
   = (Ok (Z.of_nat (length chunks)),
      storeAll (pointsFrom env relativePath root 0 chunks) s)) /\
  (forall k c message,
     chunks !! k = Some c ->
     (forall j c', (j < k)%nat -> chunks !! j = Some c' ->
                   chunkSucceeds env relativePath root j c' = true) ->
     chunkOutcome env relativePath root k c = Err message ->
     fst (indexFile env file root s) = Ok 0 /\
     Qdrant.points (qdrant (snd (indexFile env file root s)))
     = upsertAll (pointsFrom env relativePath root 0 (take k chunks))
                 (Qdrant.points (qdrant s)) /\
     console (snd (indexFile env file root s))
     = console s ++ ["❌ Failed to index file " +:+ file +:+ ": " +:+ message] /\
     ((exists e, Env.embeddingsCreate env [c] = Err e /\
                 message = "Failed to create embeddings: " +:+ e) \/
      (exists embeddings,
          Env.embeddingsCreate env [c] = Ok embeddings /\
          Env.qdrantOutage env
            (Qdrant.Upsert (collectionName INDEXING_CONFIG)
               (chunkPoint env relativePath root k c (head embeddings)))
          = Some message))).
Proof.
  intros Hq Ho Hst Hsz Hrd relativePath chunks.
  split; [apply indexFile_resolves|].
  split; [apply indexCodebase_resolves|].
  split.
  - apply (indexFile_every_chunk_stored env file root s st content); assumption.
  - intros k c message Hk Hbefore Hfail.
    destruct (indexFile_first_failure env file root s st content k c message
                Hq Ho Hst Hsz Hrd Hk Hbefore Hfail) as (Hcount & Hpoints & Hlog).
    repeat (split; [assumption|]).
    exact (chunkOutcome_cause env _ _ _ _ _ Hfail).
Qed.

Lemma indexFile_chunk_failure_witness :
  fst (indexFile Scenario.secondUpsertRefused "/repo/notes.txt" "/repo"
         Scenario.ready) = Ok 0 /\
  map (fun point => Payload.codeChunk (Point.payload point))
      (Qdrant.points
         (qdrant (snd (indexFile Scenario.secondUpsertRefused
                         "/repo/notes.txt" "/repo" Scenario.ready))))
  = [JS.repeat "a" 800 +:+ JS.repeat "b" 200] /\
  console (snd (indexFile Scenario.secondUpsertRefused "/repo/notes.txt"
                  "/repo" Scenario.ready))
  = ["❌ Failed to index file /repo/notes.txt: 503 Service Unavailable"] /\
  exists embeddings,
    Env.embeddingsCreate Scenario.secondUpsertRefused [Scenario.secondChunk]
    = Ok embeddings.
Proof.
  destruct (proj2 (proj2 (proj2
              (indexFile_chunk_failure Scenario.secondUpsertRefused
                 "/repo/notes.txt" "/repo" Scenario.ready
                 (Scenario.regular 2000) Scenario.threeChunkText
                 eq_refl eq_refl eq_refl ltac:(cbn; lia) eq_refl)))
              1%nat Scenario.secondChunk "503 Service Unavailable")
    as (Hcount & Hpoints & Hlog & Hcause).
  - vm_compute. reflexivity.
  - intros [|j] c' Hj Hc'; [|lia].
    vm_compute in Hc'. injection Hc' as <-. vm_compute. reflexivity.
  - vm_compute. reflexivity.
  - split; [exact Hcount|]. split; [|split; [exact Hlog|]].
    + rewrite Hpoints. vm_compute. reflexivity.
    + destruct Hcause as [(e & He & _) | (embeddings & He & _)].
      * vm_compute in He. discriminate.
      * exists embeddings. exact He.
Defined.

(** C4, as stated, fails.  When the embedding of the first of two chunks
    is refused, the second chunk, which the service would accept, is
    neither stored nor counted.  When the store refuses the second of
    three chunks, the third, which it would accept, is neither stored
    nor counted, and the first, which is stored, is not counted
    either. *)
Lemma indexFile_skips_later_chunks :
  (length (Chunker.chunksOfContent Scenario.twoChunkText) = 2%nat /\
   chunkSucceeds Scenario.firstChunkRefused "notes.txt" "/repo" 0
                 (JS.repeat "a" 1000) = false /\
   chunkSucceeds Scenario.firstChunkRefused "notes.txt" "/repo" 1
                 (JS.repeat "a" 200 +:+ JS.repeat "b" 200) = true /\
   Chunker.chunksOfContent Scenario.twoChunkText
   = [JS.repeat "a" 1000; JS.repeat "a" 200 +:+ JS.repeat "b" 200] /\
   fst (indexFile Scenario.firstChunkRefused "/repo/notes.txt" "/repo"
          Scenario.ready) = Ok 0 /\
   Qdrant.points
     (qdrant (snd (indexFile Scenario.firstChunkRefused "/repo/notes.txt"
                     "/repo" Scenario.ready))) = []) /\
  (Chunker.chunksOfContent Scenario.threeChunkText
   = [JS.repeat "a" 800 +:+ JS.repeat "b" 200; Scenario.secondChunk;
      JS.repeat "c" 400] /\
   chunkSucceeds Scenario.secondUpsertRefused "notes.txt" "/repo" 0
                 (JS.repeat "a" 800 +:+ JS.repeat "b" 200) = true /\
   chunkSucceeds Scenario.secondUpsertRefused "notes.txt" "/repo" 1
                 Scenario.secondChunk = false /\
   chunkSucceeds Scenario.secondUpsertRefused "notes.txt" "/repo" 2
                 (JS.repeat "c" 400) = true /\
   fst (indexFile Scenario.secondUpsertRefused "/repo/notes.txt" "/repo"
          Scenario.ready) = Ok 0 /\
   map (fun point => Payload.codeChunk (Point.payload point))
       (Qdrant.points
          (qdrant (snd (indexFile Scenario.secondUpsertRefused
                          "/repo/notes.txt" "/repo" Scenario.ready))))
   = [JS.repeat "a" 800 +:+ JS.repeat "b" 200]).
Proof. repeat split; vm_compute; reflexivity. Qed.

(* ===================================================================== *)
(** ** Single flight and the indexed set *)
(* ===================================================================== *)

Section ProtocolFacts.

Import Protocol.

Lemma indexCodebaseEnter_shape p s :
  (indexCodebaseEnter p s = (Err "Indexing already in progress", s) /\
   isIndexing s = true) \/
  (indexCodebaseEnter p s = (Err "Codebase path is required", s) /\
   isIndexing s = false /\ JS.truthyOpt p = false) \/
  (exists s', indexCodebaseEnter p s = (Ok tt, s') /\
              isIndexing s = false /\ JS.truthyOpt p = true /\
              isIndexing s' = true /\
              indexedCodebases s' = indexedCodebases s).
Proof.
  unfold indexCodebaseEnter, bind, get.
  destruct (isIndexing s); [left; auto|].
  destruct (JS.truthyOpt p); cbn [negb]; right; [right | left; auto].
  eexists. split; [reflexivity|]. auto.
Qed.

Lemma clearIndex_shape env cp s :
  (exists root s', clearIndex env cp s = (Ok root, s') /\
                   isIndexing s' = isIndexing s /\
                   indexedCodebases s' = indexedCodebases s ∖ {[ root ]}) \/
  (exists e s', clearIndex env cp s = (Err e, s') /\
                isIndexing s' = isIndexing s /\
                indexedCodebases s' = indexedCodebases s).
Proof.
  unfold clearIndex, tryCatch.
  destruct (Env.decodeURIComponent env cp) as [root|e] eqn:Hd.
  2:{ right. rewrite (bind_err _ _ _ _ _ (eq_refl : await (Err e) s = (Err e, s))).
      eexists e, _. split; [reflexivity|]. auto. }
  rewrite (bind_ok _ _ _ _ _ (eq_refl : await (Ok root) s = (Ok root, s))).
  rewrite (bind_ok _ _ _ _ _ (eq_refl : get s = (Ok s, s))).
  set (init := if negb (qdrantClient s) then initializeQdrant env else ret tt).
  assert (Hk1 : registry (snd (init s)) = registry s).
  { subst init. destruct (negb (qdrantClient s));
      [apply keeps_initializeQdrant | reflexivity]. }
  destruct (init s) as [[[]|e] s1] eqn:Hinit; cbn [snd] in Hk1;
    apply registry_eq in Hk1 as [Hf1 Hs1].
  2:{ right. rewrite (bind_err _ _ _ _ _ Hinit). eexists e, _.
      split; [reflexivity|]. cbn. auto. }
  rewrite (bind_ok _ _ _ _ _ Hinit).
  match goal with |- context [bind (qdrantDelete env ?c ?f) _ s1] =>
    pose proof (keeps_qdrantDelete env c f s1) as Hk2;
    destruct (qdrantDelete env c f s1) as [[[]|e] s2] eqn:Hdel
  end; cbn [snd] in Hk2; apply registry_eq in Hk2 as [Hf2 Hs2].
  2:{ right. rewrite (bind_err _ _ _ _ _ Hdel). eexists e, _.
      split; [reflexivity|]. cbn. split; congruence. }
  left. rewrite (bind_ok _ _ _ _ _ Hdel). eexists root, _.
  split; [reflexivity|]. cbn. rewrite Hs2, Hs1. split; [congruence | reflexivity].
Qed.

(** Every step changes the indexed set by what its observation says. *)
Lemma step_effect sys e :
  indexedCodebases (server (fst (step sys e)))
  = effect (snd (step sys e)) (indexedCodebases (server sys)).
Proof.
  destruct e as [p | env k | env cp | env q cp limit
                 | env config prompt cp persona indexed]; cbn [step].
  - destruct (indexCodebaseEnter_shape p (server sys))
      as [[-> _] | [[-> _] | (s' & -> & _ & _ & _ & Hs)]]; cbn; auto.
  - destruct (inFlight sys !! k) as [root|]; [|reflexivity].
    destruct (indexCodebaseResume_shape env root (server sys))
      as [(e & s' & -> & _ & Hs & _) | (t & s' & -> & _ & Hs)]; cbn; auto.
  - destruct (clearIndex_shape env cp (server sys))
      as [(root & s' & -> & _ & Hs) | (e & s' & -> & _ & Hs)]; cbn; auto.
  - pose proof (keeps_searchCodebase env q cp limit (server sys)) as Hk.
    destruct (searchCodebase env q cp limit (server sys)) as [r s'].
    apply registry_eq in Hk as [_ Hs]. cbn. exact Hs.
  - pose proof (keeps_sendMessage env config prompt cp persona indexed
                  (server sys)) as Hk.
    destruct (sendMessage env config prompt cp persona indexed (server sys))
      as [r s'].
    apply registry_eq in Hk as [_ Hs]. cbn. exact Hs.
Qed.

Lemma step_singleFlight sys e :
  singleFlight sys -> singleFlight (fst (step sys e)).
Proof.
  unfold singleFlight. intros Inv.
  destruct e as [p | env k | env cp | env q cp limit
                 | env config prompt cp persona indexed]; cbn [step].
  - destruct (indexCodebaseEnter_shape p (server sys))
      as [[-> Hb] | [[-> _] | (s' & -> & Hi & _ & Hi' & _)]]; cbn; auto.
    destruct (inFlight sys) as [|r [|r' rest]]; cbn; congruence.
  - destruct (inFlight sys !! k) as [root|] eqn:Hk; [|exact Inv].
    destruct (inFlight sys) as [|r [|r' rest]] eqn:Hfl; [discriminate| |contradiction].
    destruct k as [|k]; [|discriminate]. injection Hk as ->.
    destruct (indexCodebaseResume_shape env root (server sys))
      as [(e & s' & -> & Hi & _) | (t & s' & -> & Hi & _)]; cbn; exact Hi.
  - destruct (clearIndex_shape env cp (server sys))
      as [(root & s' & -> & Hi & _) | (e & s' & -> & Hi & _)]; cbn;
      rewrite Hi; exact Inv.
  - pose proof (keeps_searchCodebase env q cp limit (server sys)) as Hk.
    destruct (searchCodebase env q cp limit (server sys)) as [r s'].
    apply registry_eq in Hk as [Hi _]. cbn in *. rewrite Hi. exact Inv.
  - pose proof (keeps_sendMessage env config prompt cp persona indexed
                  (server sys)) as Hk.
    destruct (sendMessage env config prompt cp persona indexed (server sys))
      as [r s'].
    apply registry_eq in Hk as [Hi _]. cbn in *. rewrite Hi. exact Inv.
Qed.

Lemma run_singleFlight events :
  forall sys, singleFlight sys -> singleFlight (fst (run sys events)).
Proof.
  induction events as [|e rest IH]; intros sys Inv; cbn [run]; [exact Inv|].
  pose proof (step_singleFlight sys e Inv) as Inv1.
  destruct (step sys e) as [sys1 o]. cbn [fst] in Inv1.
  specialize (IH sys1 Inv1).
  destruct (run sys1 rest) as [sys2 os]. exact IH.
Qed.

Lemma reachable_singleFlight events :
  singleFlight (fst (run initial events)).
Proof. apply run_singleFlight. reflexivity. Qed.

Lemma step_busy sys p :
  isIndexing (server sys) = true ->
  step sys (CallIndexCodebase p)
  = (sys, IndexRejected "Indexing already in progress").
Proof.
  intros Hb. cbn [step].
  destruct (indexCodebaseEnter_shape p (server sys))
    as [[-> _] | [[_ [Hi _]] | (s' & _ & Hi & _)]]; try congruence.
  now destruct sys.
Qed.

Lemma step_idle sys p :
  isIndexing (server sys) = false -> JS.truthyOpt p = true ->
  snd (step sys (CallIndexCodebase p)) = IndexStarted (rootOf p) /\
  isIndexing (server (fst (step sys (CallIndexCodebase p)))) = true /\
  inFlight (fst (step sys (CallIndexCodebase p))) = inFlight sys ++ [rootOf p].
Proof.
  intros Hi Ht. cbn [step].
  destruct (indexCodebaseEnter_shape p (server sys))
    as [[_ Hb] | [[_ [_ Hf]] | (s' & -> & _ & _ & Hi' & _)]]; try congruence.
  cbn. auto.
Qed.

Lemma step_settle sys env k root :
  singleFlight sys ->
  inFlight sys !! k = Some root ->
  isIndexing (server (fst (step sys (SettleIndexCodebase env k)))) = false /\
  inFlight (fst (step sys (SettleIndexCodebase env k))) = [] /\
  ((exists result,
      snd (step sys (SettleIndexCodebase env k)) = IndexResolved root result) \/
   (exists message,
      snd (step sys (SettleIndexCodebase env k)) = IndexThrew root message)).
Proof.
  unfold singleFlight. intros Inv Hk. cbn [step]. rewrite Hk.
  destruct (inFlight sys) as [|r [|r' rest]] eqn:Hfl;
    [discriminate| |contradiction].
  destruct k as [|k]; [|discriminate]. injection Hk as ->.
  destruct (indexCodebaseResume_shape env root (server sys))
    as [(e & s' & -> & Hi & _) | (t & s' & -> & Hi & _)]; cbn [fst snd server inFlight].
  - split; [exact Hi|]. split; [reflexivity|]. right. eexists. reflexivity.
  - split; [exact Hi|]. split; [reflexivity|]. left. eexists. reflexivity.
Qed.

(** The indexed set after a run of events is the initial one transformed
    by the observations in order. *)
Lemma run_effect events :
  forall sys,
    indexedCodebases (server (fst (run sys events)))
    = foldl (fun indexed o => effect o indexed)
            (indexedCodebases (server sys)) (snd (run sys events)).
Proof.
  induction events as [|e rest IH]; intros sys; cbn [run]; [reflexivity|].
  pose proof (step_effect sys e) as He.
  destruct (step sys e) as [sys1 o]. cbn [fst snd] in He.
  specialize (IH sys1).
  destruct (run sys1 rest) as [sys2 os]. cbn [fst snd foldl] in *.
  now rewrite IH, He.
Qed.

(** Membership after a sequence of observations: the root was added by
    a resolved run that no later clearing followed, or it was there from
    the start and never cleared. *)
Lemma effect_membership root os :
  forall indexed,
    root ∈ foldl (fun indexed o => effect o indexed) indexed os <->
    (exists before result after,
       os = before ++ IndexResolved root result :: after /\
       IndexCleared root ∉ after) \/
    (root ∈ indexed /\ IndexCleared root ∉ os).
Proof.
  induction os as [|o os IH]; intros indexed; cbn [foldl].
  - split.
    + intros H. right. split; [exact H | apply not_elem_of_nil].
    + intros [(before & result & after & H & _) | [H _]]; [|exact H].
      destruct before; discriminate.
  - rewrite IH. split.
    + intros [(before & result & after & -> & Hn) | [Hin Hn]].
      * left. exists (o :: before), result, after. auto.
      * destruct o; cbn [effect] in Hin;
          try (right; split; [exact Hin|];
               rewrite not_elem_of_cons; split; [discriminate | exact Hn]).
        -- apply elem_of_union in Hin as [Hin|Hin].
           ++ apply elem_of_singleton in Hin as ->.
              left. exists [], result, os. auto.
           ++ right. split; [exact Hin|].
              rewrite not_elem_of_cons. split; [discriminate | exact Hn].
        -- apply elem_of_difference in Hin as [Hin Hne].
           right. split; [exact Hin|].
           rewrite not_elem_of_cons. split; [|exact Hn].
           intros [= <-]. apply Hne. now apply elem_of_singleton.
    + intros [(before & result & after & H & Hn) | [Hin Hn]].
      * destruct before as [|b before]; cbn in H; injection H as -> ->.
        -- right. split; [|exact Hn]. cbn [effect].
           apply elem_of_union. left. now apply elem_of_singleton.
        -- left. exists before, result, after. auto.
      * apply not_elem_of_cons in Hn as [Hne Hn].
        right. split; [|exact Hn].
        destruct o; cbn [effect]; try exact Hin.
        -- apply elem_of_union. now right.
        -- apply elem_of_difference. split; [exact Hin|].
           intros Hr. apply elem_of_singleton in Hr as <-. now apply Hne.
Qed.

End ProtocolFacts.

Example protocol_trace :
  snd (Protocol.run Protocol.initial
         [Protocol.CallIndexCodebase (Some "/repo");
          Protocol.CallIndexCodebase (Some "/other");
          Protocol.SettleIndexCodebase Scenario.mixedRepo 0;
          Protocol.CallIndexCodebase None;
          Protocol.CallClearIndex Scenario.mixedRepo "/repo"])
  = [Protocol.IndexStarted "/repo";
     Protocol.IndexRejected "Indexing already in progress";
     Protocol.IndexResolved "/repo"
       {| IndexResult.totalChunks := 1; IndexResult.processedFiles := 3 |};
     Protocol.IndexRejected "Codebase path is required";
     Protocol.IndexCleared "/repo"].
Proof. vm_compute. reflexivity. Qed.

(** C2.  In every state the server can reach, while an invocation of
    [indexCodebase] is in flight (for whatever root) a further call, for
    whatever root, throws ["Indexing already in progress"] and changes
    nothing; and when the invocation in flight settles, resolved or
    thrown, the busy flag is clear and nothing is in flight, so the next
    call with a truthy root is accepted. *)
Theorem single_flight events :
  let sys := fst (Protocol.run Protocol.initial events) in
  (forall k root p,
     Protocol.inFlight sys !! k = Some root ->
     Protocol.step sys (Protocol.CallIndexCodebase p)
     = (sys, Protocol.IndexRejected "Indexing already in progress")) /\
  (forall k root env p,
     Protocol.inFlight sys !! k = Some root ->
     indexCodebase env p (Protocol.server sys)
     = (Err "Indexing already in progress", Protocol.server sys)) /\
  (forall env k root,
     Protocol.inFlight sys !! k = Some root ->
     let settled := fst (Protocol.step sys (Protocol.SettleIndexCodebase env k)) in
     ((exists result,
         snd (Protocol.step sys (Protocol.SettleIndexCodebase env k))
         = Protocol.IndexResolved root result) \/
      (exists message,
         snd (Protocol.step sys (Protocol.SettleIndexCodebase env k))
         = Protocol.IndexThrew root message)) /\
     isIndexing (Protocol.server settled) = false /\
     Protocol.inFlight settled = [] /\
     forall p,
       JS.truthyOpt p = true ->
       snd (Protocol.step settled (Protocol.CallIndexCodebase p))
       = Protocol.IndexStarted (rootOf p)).
Proof.
  intros sys.
  pose proof (reachable_singleFlight events) as Inv. fold sys in Inv.
  assert (Hbusy : forall k root,
             Protocol.inFlight sys !! k = Some root ->
             isIndexing (Protocol.server sys) = true).
  { intros k root Hk. unfold Protocol.singleFlight in Inv.
    destruct (Protocol.inFlight sys) as [|r [|r' rest]];
      [discriminate | exact Inv | contradiction]. }
  split; [|split].
  - intros k root p Hk. apply step_busy. exact (Hbusy k root Hk).
  - intros k root env p Hk. rewrite indexCodebase_split.
    destruct (indexCodebaseEnter_shape p (Protocol.server sys))
      as [[He _] | [[_ [Hi _]] | (s' & _ & Hi & _)]];
      [| rewrite (Hbusy k root Hk) in Hi; discriminate
       | rewrite (Hbusy k root Hk) in Hi; discriminate].
    apply (bind_err _ _ _ _ _ He).
  - intros env k root Hk settled.
    destruct (step_settle sys env k root Inv Hk) as (Hi & Hfl & Hobs).
    split; [exact Hobs|]. split; [exact Hi|]. split; [exact Hfl|].
    intros p Hp. apply step_idle; [exact Hi | exact Hp].
Qed.

Lemma single_flight_witness :
  Protocol.step Scenario.indexingA (Protocol.CallIndexCodebase (Some "/b"))
  = (Scenario.indexingA,
     Protocol.IndexRejected "Indexing already in progress") /\
  isIndexing
    (Protocol.server
       (fst (Protocol.step Scenario.indexingA
               (Protocol.SettleIndexCodebase Scenario.nothing 0)))) = false /\
  snd (Protocol.step
         (fst (Protocol.step Scenario.indexingA
                 (Protocol.SettleIndexCodebase Scenario.nothing 0)))
         (Protocol.CallIndexCodebase (Some "/b")))
  = Protocol.IndexStarted "/b".
Proof.
  destruct (single_flight [Protocol.CallIndexCodebase (Some "/a")])
    as (Hreject & _ & Hsettle).
  split.
  - apply (Hreject 0%nat "/a" (Some "/b")). reflexivity.
  - destruct (Hsettle Scenario.nothing 0%nat "/a" eq_refl)
      as (_ & Hclear & _ & Hnext).
    split; [exact Hclear|].
    apply (Hnext (Some "/b")). reflexivity.
Defined.

(** C7.  Starting from the empty set of a fresh process, a root is in
    [indexedCodebases] exactly when some [indexCodebase] run for it has
    resolved and no clear-index operation for it has succeeded since.
    Step by step: a run that resolves adds its root at that moment, a
    clear-index operation that succeeds removes its root, and nothing
    else (a rejected or thrown run, a failed clearing, a search, a chat)
    changes the set. *)
Theorem indexed_set_lifecycle events root :
  (root ∈ indexedCodebases
            (Protocol.server (fst (Protocol.run Protocol.initial events))) <->
   exists before result after,
     snd (Protocol.run Protocol.initial events)
     = before ++ Protocol.IndexResolved root result :: after /\
     Protocol.IndexCleared root ∉ after) /\
  (forall sys e,
     indexedCodebases (Protocol.server (fst (Protocol.step sys e)))
     = match snd (Protocol.step sys e) with
       | Protocol.IndexResolved r _ =>
           {[ r ]} ∪ indexedCodebases (Protocol.server sys)
       | Protocol.IndexCleared r =>
           indexedCodebases (Protocol.server sys) ∖ {[ r ]}
       | _ => indexedCodebases (Protocol.server sys)
       end).
Proof.
  split.
  - rewrite run_effect, effect_membership. split.
    + intros [H | [Hin _]]; [exact H|].
      cbn in Hin. now apply not_elem_of_empty in Hin.
    + intros H. now left.
  - intros sys e. rewrite step_effect.
    destruct (snd (Protocol.step sys e)); reflexivity.
Qed.

Lemma indexed_set_lifecycle_witness :
  "/repo" ∈ indexedCodebases
              (Protocol.server
                 (fst (Protocol.run Protocol.initial
                         [Protocol.CallIndexCodebase (Some "/repo");
                          Protocol.SettleIndexCodebase Scenario.mixedRepo 0;
                          Protocol.CallClearIndex Scenario.nothing "/repo"]))).
Proof.
  apply (proj1 (indexed_set_lifecycle _ "/repo")).
  exists [Protocol.IndexStarted "/repo"],
         {| IndexResult.totalChunks := 1; IndexResult.processedFiles := 3 |},
         [Protocol.ClearFailed "connect ECONNREFUSED 127.0.0.1:6333"].
  split; [vm_compute; reflexivity|].
  intros H. apply list_elem_of_singleton in H. discriminate.
Defined.

(* ===================================================================== *)
(** * Further properties *)
(* ===================================================================== *)

(* ===================================================================== *)
(** ** Chunker: sizes and reconstruction *)
(* ===================================================================== *)

Section ChunkerTextFacts.

Import Chunker.

Local Abbreviation chars := String.list_ascii_of_string.

Lemma chars_length s : length (chars s) = String.length s.
Proof. induction s as [|c s IH]; simpl; [reflexivity | now rewrite IH]. Qed.

Lemma chars_append a b : chars (a +:+ b) = chars a ++ chars b.
Proof. induction a as [|c a IH]; simpl; [reflexivity | now rewrite IH]. Qed.

Lemma chars_inj a b : chars a = chars b -> a = b.
Proof.
  intros H. rewrite <- (String.string_of_list_ascii_of_string a),
    <- (String.string_of_list_ascii_of_string b). now rewrite H.
Qed.

Lemma chars_substring s :
  forall a n, chars (String.substring a n s) = take n (drop a (chars s)).
Proof.
  induction s as [|c s IH]; intros [|a] [|n]; simpl; try reflexivity.
  - now rewrite IH.
  - now rewrite IH.
  - now rewrite IH.
Qed.

(** [slice] with indices inside the string. *)
Lemma chars_slice s (from to : nat) :
  (from <= to <= String.length s)%nat ->
  chars (JS.slice s (Z.of_nat from) (Z.of_nat to))
  = take (to - from) (drop from (chars s)).
Proof.
  intros H. unfold JS.slice, JS.clampIndex, JS.length.
  destruct (Z.ltb_spec (Z.of_nat from) 0); [lia|].
  destruct (Z.ltb_spec (Z.of_nat to) 0); [lia|].
  rewrite chars_substring. f_equal; [lia|]. f_equal. lia.
Qed.

Lemma chars_sliceFrom s (o : nat) :
  chars (JS.sliceFrom s (Z.of_nat o)) = drop o (chars s).
Proof.
  unfold JS.sliceFrom, JS.slice, JS.clampIndex, JS.length.
  destruct (Z.ltb_spec (Z.of_nat o) 0); [lia|].
  destruct (Z.ltb_spec (Z.of_nat (String.length s)) 0); [lia|].
  rewrite chars_substring.
  destruct (Nat.le_gt_cases o (String.length s)).
  - replace (Z.to_nat (Z.min (Z.of_nat o) (Z.of_nat (String.length s)))) with o by lia.
    apply take_ge. rewrite length_drop, chars_length. lia.
  - rewrite (drop_ge (chars s) o) by (rewrite chars_length; lia).
    rewrite drop_ge by (rewrite chars_length; lia). apply take_nil.
Qed.

Lemma take_min_length {A} (l : list A) n :
  take (Nat.min n (length l)) l = take n l.
Proof.
  destruct (Nat.le_gt_cases n (length l)).
  - now rewrite Nat.min_l.
  - rewrite Nat.min_r by lia. rewrite !take_ge by lia. reflexivity.
Qed.

(** The characters of window [k]: [windowSize] of them from offset
    [k * (windowSize - overlapSize)], as far as the text goes. *)
Lemma specWindow_chars text w o k :
  0 <= o < w ->
  (k * Z.to_nat (w - o) <= String.length text)%nat ->
  chars (specWindow text w o k)
  = take (Z.to_nat w) (drop (k * Z.to_nat (w - o)) (chars text)).
Proof.
  intros Ho Hk. unfold specWindow. cbv zeta.
  assert (HD : Z.of_nat k * (w - o) = Z.of_nat (k * Z.to_nat (w - o)))
    by (rewrite Nat2Z.inj_mul, Z2Nat.id; lia).
  rewrite HD.
  set (from := (k * Z.to_nat (w - o))%nat) in *.
  replace (Z.min (Z.of_nat from + w) (JS.length text))
    with (Z.of_nat (Nat.min (from + Z.to_nat w) (String.length text)))
    by (unfold JS.length; lia).
  rewrite chars_slice by lia.
  rewrite <- (take_min_length _ (Z.to_nat w)).
  f_equal. rewrite length_drop, chars_length. lia.
Qed.

(** The windows the specification counts, in natural numbers. *)
Lemma specChunks_windows_nat text w o (n : nat) :
  0 <= o < w ->
  n = length (specChunks text w o) ->
  let D := Z.to_nat (w - o) in
  let W := Z.to_nat w in
  (forall k, (k < n)%nat -> (k * D < String.length text)%nat) /\
  (forall k, (S k < n)%nat -> (k * D + W < String.length text)%nat) /\
  (forall k, (S k = n)%nat -> (String.length text <= k * D + W)%nat).
Proof.
  intros Ho Hn D W.
  unfold specChunks in Hn. rewrite length_map, length_seq in Hn.
  assert (HD : forall k, Z.of_nat (k * D) = Z.of_nat k * (w - o))
    by (intros k; subst D; rewrite Nat2Z.inj_mul, Z2Nat.id; lia).
  assert (HW : Z.of_nat W = w) by (subst W; lia).
  destruct (Z.eq_dec (JS.length text) 0) as [Hz|Hnz].
  - rewrite Hz in Hn. cbn in Hn. subst n.
    repeat split; intros k Hk; lia.
  - assert (Hlen : 0 < JS.length text) by (unfold JS.length in *; lia).
    destruct (specChunkCount_windows _ w o n Ho Hlen Hn) as (Hin & Hmid & Hlast).
    unfold JS.length in *.
    repeat split; intros k Hk.
    + specialize (Hin k Hk). rewrite <- HD in Hin. lia.
    + specialize (Hmid k Hk). rewrite <- HD in Hmid. lia.
    + specialize (Hlast k Hk). rewrite <- HD in Hlast. lia.
Qed.

Lemma specChunks_lookup text w o k c :
  specChunks text w o !! k = Some c ->
  c = specWindow text w o k /\ (k < length (specChunks text w o))%nat.
Proof.
  intros H. split; [|now apply lookup_lt_Some in H].
  unfold specChunks in H. rewrite list_lookup_fmap in H.
  destruct (seq 0 _ !! k) as [j|] eqn:Hj; [|discriminate].
  apply lookup_seq in Hj as [-> _]. cbn in H. now injection H.
Qed.

Lemma splitIntoChunks_is_specChunks text w o fuel chunks :
  0 <= o < w ->
  (String.length text < fuel)%nat ->
  splitIntoChunks fuel text w o = Some chunks ->
  chunks = specChunks text w o.
Proof.
  intros Ho Hfuel H.
  rewrite (splitIntoChunks_windows text w o fuel Ho Hfuel) in H.
  now injection H.
Qed.

(** X1.  With [0 <= overlapSize < windowSize] no chunk is empty and none
    is longer than [windowSize]; every chunk but the last is exactly
    [windowSize] long, and the last one ends where the text ends. *)
Theorem splitIntoChunks_sizes text w o fuel chunks k c :
  0 <= o < w ->
  (String.length text < fuel)%nat ->
  splitIntoChunks fuel text w o = Some chunks ->
  chunks !! k = Some c ->
  0 < JS.length c <= w /\
  ((S k < length chunks)%nat -> JS.length c = w) /\
  ((S k = length chunks)%nat ->
   Z.of_nat k * (w - o) + JS.length c = JS.length text).
Proof.
  intros Ho Hfuel Hrun Hk.
  apply (splitIntoChunks_is_specChunks _ _ _ _ _ Ho Hfuel) in Hrun. subst chunks.
  apply specChunks_lookup in Hk as [-> Hlt].
  destruct (specChunks_windows_nat text w o _ Ho eq_refl) as (Hin & Hmid & Hlast).
  cbv zeta in *.
  assert (Hlen : JS.length (specWindow text w o k)
                 = Z.of_nat (Nat.min (Z.to_nat w)
                               (String.length text - k * Z.to_nat (w - o)))).
  { unfold JS.length. rewrite <- chars_length, specWindow_chars;
      [|exact Ho | specialize (Hin k Hlt); lia].
    now rewrite length_take, length_drop, chars_length. }
  rewrite Hlen. specialize (Hin k Hlt).
  assert (HD : Z.of_nat (k * Z.to_nat (w - o)) = Z.of_nat k * (w - o))
    by (rewrite Nat2Z.inj_mul, Z2Nat.id; lia).
  split; [lia|]. split.
  - intros Hs. specialize (Hmid k Hs). lia.
  - intros Hs. specialize (Hlast k Hs). unfold JS.length. lia.
Qed.

Lemma splitIntoChunks_sizes_witness :
  0 < JS.length "efg" <= 3 /\
  ((3 < length ["abc"; "cde"; "efg"])%nat -> JS.length "efg" = 3) /\
  ((3 = length ["abc"; "cde"; "efg"])%nat ->
   Z.of_nat 2 * (3 - 1) + JS.length "efg" = JS.length "abcdefg").
Proof.
  apply (splitIntoChunks_sizes "abcdefg" 3 1 8 ["abc"; "cde"; "efg"] 2 "efg");
    [lia | simpl; lia | reflexivity | reflexivity].
Defined.

Lemma chars_joined_tail (o : Z) (rest : list string) :
  0 <= o ->
  chars (foldr String.append ""
               (map (fun chunk => JS.sliceFrom chunk o) rest))
  = foldr (fun chunk acc => drop (Z.to_nat o) (chars chunk) ++ acc) [] rest.
Proof.
  intros Ho. induction rest as [|c rest IH]; simpl; [reflexivity|].
  rewrite chars_append, IH. f_equal.
  rewrite <- (Z2Nat.id o Ho) at 1. apply chars_sliceFrom.
Qed.

(** Appending the later windows, each without its overlap, to the text
    covered so far gives the whole text. *)
Lemma rebuild_tail text w o (n : nat) :
  0 <= o < w ->
  n = length (specChunks text w o) ->
  forall m k,
    (S k + m = n)%nat ->
    take (Nat.min (String.length text) (k * Z.to_nat (w - o) + Z.to_nat w))
         (chars text)
    ++ foldr (fun chunk acc => drop (Z.to_nat o) (chars chunk) ++ acc) []
             (map (specWindow text w o) (seq (S k) m))
    = chars text.
Proof.
  intros Ho Hn.
  destruct (specChunks_windows_nat text w o n Ho Hn) as (Hin & Hmid & Hlast).
  cbv zeta in *.
  induction m as [|m IH]; intros k Hk.
  - simpl. rewrite app_nil_r. specialize (Hlast k ltac:(lia)).
    apply take_ge. rewrite chars_length. lia.
  - cbn [seq map foldr].
    pose proof (Hin (S k) ltac:(lia)) as Hnext.
    pose proof (Hmid k ltac:(lia)) as Hfull.
    rewrite specWindow_chars by (try exact Ho; lia).
    rewrite skipn_firstn_comm, drop_drop.
    rewrite app_assoc.
    replace (Nat.min (String.length text) (k * Z.to_nat (w - o) + Z.to_nat w))
      with (k * Z.to_nat (w - o) + Z.to_nat w)%nat by lia.
    replace (S k * Z.to_nat (w - o) + Z.to_nat o)%nat
      with (k * Z.to_nat (w - o) + Z.to_nat w)%nat by lia.
    rewrite take_take_drop.
    replace (k * Z.to_nat (w - o) + Z.to_nat w + (Z.to_nat w - Z.to_nat o))%nat
      with (S k * Z.to_nat (w - o) + Z.to_nat w)%nat by lia.
    rewrite <- (take_min_length (chars text)), chars_length.
    rewrite (Nat.min_comm _ (String.length text)).
    apply IH. lia.
Qed.

(** X2.  With [0 <= overlapSize < windowSize] the chunks lose nothing:
    the first chunk followed by every later chunk without its first
    [overlapSize] characters is the original text. *)
Theorem splitIntoChunks_reconstructs text w o fuel chunks :
  0 <= o < w ->
  (String.length text < fuel)%nat ->
  splitIntoChunks fuel text w o = Some chunks ->
  joinWithoutOverlap o chunks = text.
Proof.
  intros Ho Hfuel Hrun.
  apply (splitIntoChunks_is_specChunks _ _ _ _ _ Ho Hfuel) in Hrun. subst chunks.
  remember (length (specChunks text w o)) as n eqn:Hn.
  pose proof Hn as Hn'. unfold specChunks in Hn'.
  rewrite length_map, length_seq in Hn'.
  unfold specChunks. rewrite <- Hn'.
  destruct n as [|m].
  - cbn. unfold specChunkCount in Hn'.
    destruct (Z.eqb_spec (JS.length text) 0) as [Hz|Hnz].
    + unfold JS.length in Hz. destruct text; [reflexivity | cbn in Hz; lia].
    + assert (Hlen : 0 < JS.length text) by (unfold JS.length in *; lia).
      pose proof (specChunkCount_pos _ w o Ho Hlen) as Hpos.
      unfold specChunkCount in Hpos.
      destruct (Z.eqb_spec (JS.length text) 0); [contradiction|]. lia.
  - cbn [seq map joinWithoutOverlap].
    apply chars_inj. rewrite chars_append.
    rewrite chars_joined_tail by lia.
    rewrite specWindow_chars by (try exact Ho; lia).
    rewrite Nat.mul_0_l, drop_0.
    rewrite <- (take_min_length (chars text)), chars_length.
    rewrite Nat.min_comm.
    exact (rebuild_tail text w o (S m) Ho Hn m 0%nat eq_refl).
Qed.

Lemma splitIntoChunks_reconstructs_witness :
  joinWithoutOverlap 1 ["abc"; "cde"; "efg"] = "abcdefg".
Proof.
  apply (splitIntoChunks_reconstructs "abcdefg" 3 1 8);
    [lia | simpl; lia | reflexivity].
Defined.

End ChunkerTextFacts.

(* ===================================================================== *)
(** ** Chunk identifier: chunks of one file *)
(* ===================================================================== *)

Section ChunkIdFileFacts.

Lemma append_cancel_l p a b : p +:+ a = p +:+ b -> a = b.
Proof.
  induction p as [|c p IH]; simpl; [auto|].
  intros H. injection H as H. auto.
Qed.

Lemma chunkStartLine_linear i : chunkStartLine i = 16 * Z.of_nat i + 1.
Proof.
  unfold chunkStartLine. cbn [maxChunkSize overlapSize INDEXING_CONFIG].
  replace (Z.of_nat i * (1000 - 200)) with (16 * Z.of_nat i * 50) by lia.
  now rewrite Z.div_mul.
Qed.

(** X3.  Within one file no two chunks share the string fed to the hash:
    the start line grows by 16 with every chunk index, so for a fixed
    path the strings of two chunks agree only if the index and the text
    agree, whatever characters the path and the texts contain. *)
Theorem chunkIdInput_distinct_within_file path i j c1 c2 :
  chunkIdInput path (chunkStartLine i) c1
  = chunkIdInput path (chunkStartLine j) c2 ->
  i = j /\ c1 = c2.
Proof.
  unfold chunkIdInput. intros H.
  apply append_cancel_l in H. apply append_cancel_l in H.
  change (?a +:+ ":" +:+ ?x) with (a +:+ String ":" x) in H.
  destruct (cut_at_separator _ _ _ _ _
              (showInt_no_colon _) (showInt_no_colon _) H) as [Hl ->].
  apply showInt_inj in Hl. rewrite !chunkStartLine_linear in Hl.
  split; [lia | reflexivity].
Qed.

Lemma chunkIdInput_distinct_within_file_witness :
  2%nat = 2%nat /\ "let x" = "let x".
Proof.
  apply (chunkIdInput_distinct_within_file "src/a:b.js" 2 2 "let x" "let x").
  reflexivity.
Defined.

End ChunkIdFileFacts.

(* ===================================================================== *)
(** ** Indexer: initialisation and errors *)
(* ===================================================================== *)

Section InitialisationFacts.

Variable env : Env.t.

(** What [initializeQdrant] does, case by case. *)
Lemma initializeQdrant_cases s :
  (qdrantClient s = true /\ initializeQdrant env s = (Ok tt, s)) \/
  (qdrantClient s = false /\
   exists s',
     qdrantClient s' = true /\
     openaiClient s' = openaiClient s /\
     registry s' = registry s /\
     storedPoints s' = storedPoints s /\
     (initializeQdrant env s = (Ok tt, s') \/
      exists e,
        initializeQdrant env s = (Err e, s') /\
        (Env.qdrantOutage env Qdrant.GetCollections = Some e \/
         Env.qdrantOutage env
           (Qdrant.CreateCollection (collectionName INDEXING_CONFIG)) = Some e))).
Proof.
  destruct (qdrantClient s) eqn:Hq.
  - left. split; [reflexivity|]. now apply initializeQdrant_ready.
  - right. split; [reflexivity|].
    unfold initializeQdrant, qdrantGetCollections, qdrantCreateCollection,
      outage, loadConfig, bind, get, tryCatch, await, modify, ret, consoleWrite,
      modify, throw.
    rewrite Hq. cbv beta iota. cbn [negb qdrant setQdrantClient].
    destruct (Env.qdrantOutage env Qdrant.GetCollections) as [e|] eqn:Hg.
    + match goal with |- context [(_, ?st) = (Ok tt, _)] => exists st end;
        do 4 (split; [reflexivity|]).
      right. exists e. split; [reflexivity | now left].
    + cbv beta iota. cbn [qdrant setQdrantClient].
      destruct (existsb _ (Qdrant.collections (qdrant s))); cbn [negb].
      * match goal with |- context [(_, ?st) = (Ok tt, _)] => exists st end;
        do 4 (split; [reflexivity|]).
        now left.
      * destruct (Env.qdrantOutage env (Qdrant.CreateCollection _)) as [e|] eqn:Hc.
        -- match goal with |- context [(_, ?st) = (Ok tt, _)] => exists st end;
        do 4 (split; [reflexivity|]).
           right. exists e. split; [reflexivity | now right].
        -- match goal with |- context [(_, ?st) = (Ok tt, _)] => exists st end;
        do 4 (split; [reflexivity|]).
           now left.
Qed.

End InitialisationFacts.

(** X4.  A failed first initialisation of the vector store is not
    retried: [qdrantClient] is assigned before the collection is checked,
    so when [initializeQdrant] throws the client is left set, and every
    later call returns at once without listing or creating the
    collection, whatever the state of the service. *)
Theorem initializeQdrant_failure_is_sticky env s e s' :
  initializeQdrant env s = (Err e, s') ->
  qdrantClient s = false /\
  qdrantClient s' = true /\
  forall env', initializeQdrant env' s' = (Ok tt, s').
Proof.
  intros H.
  destruct (initializeQdrant_cases env s)
    as [[_ Hok] | (Hq & s1 & Hq1 & _ & _ & _ & [Hok | (e1 & Herr & _)])];
    try congruence.
  assert (s1 = s') by congruence. subst s1.
  split; [exact Hq|]. split; [exact Hq1|].
  intros env'. now apply initializeQdrant_ready.
Qed.

Lemma initializeQdrant_failure_is_sticky_witness :
  qdrantClient initialServer = false /\
  qdrantClient (snd (initializeQdrant Scenario.nothing initialServer)) = true /\
  forall env',
    initializeQdrant env' (snd (initializeQdrant Scenario.nothing initialServer))
    = (Ok tt, snd (initializeQdrant Scenario.nothing initialServer)).
Proof.
  apply (initializeQdrant_failure_is_sticky Scenario.nothing initialServer
           "connect ECONNREFUSED 127.0.0.1:6333").
  vm_compute. reflexivity.
Defined.

Section RunErrorFacts.

Variable env : Env.t.

(** Once the vector store is initialised the run goes through: the
    rest of the [try] block cannot throw. *)
Lemma indexCodebaseRun_after_init root s s1 :
  initializeQdrant env s = (Ok tt, s1) ->
  exists s2 line t s4 s',
    initializeOpenAI (Env.configFile env) s1 = (Ok tt, s2) /\
    indexBatches env root (codeFilesUnder env root)
      (JS.forRange (length (codeFilesUnder env root)) batchSize) 0 0
      (snd (consoleWrite line s2))
    = (Ok (t, Z.of_nat (length (codeFilesUnder env root))), s4) /\
    indexCodebaseRun env root s
    = (Ok {| IndexResult.totalChunks := t;
             IndexResult.processedFiles :=
               Z.of_nat (length (codeFilesUnder env root)) |}, s') /\
    qdrantClient s' = qdrantClient s4 /\
    openaiClient s' = openaiClient s4 /\
    isIndexing s' = isIndexing s4 /\
    indexedCodebases s' = {[ root ]} ∪ indexedCodebases s4 /\
    storedPoints s' = storedPoints s4.
Proof.
  intros Hinit. unfold indexCodebaseRun.
  rewrite (bind_ok _ _ _ _ _ (loadConfig_resolves env s)).
  rewrite (bind_ok _ _ _ _ _ Hinit).
  destruct (initializeOpenAI_resolves (Env.configFile env) s1) as [s2 Hopen].
  rewrite (bind_ok _ _ _ _ _ Hopen).
  unfold getAllFiles.
  rewrite (bind_ok _ _ _ _ _ (eq_refl : ret _ s2 = (Ok _, s2))).
  cbv zeta. fold (codeFilesUnder env root).
  set (line := "📁 Found " +:+ _).
  rewrite (bind_ok _ _ _ _ _ (eq_refl : consoleWrite line s2 = (Ok tt, _))).
  match goal with |- context [bind (indexBatches env root ?files ?starts 0 0) _ ?s3] =>
    destruct (indexBatches_resolves env root files starts 0 0 s3)
      as (t & s4 & Hb)
  end.
  rewrite batchLengths_forRange in Hb. cbn [Z.add] in Hb.
  rewrite (bind_ok _ _ _ _ _ Hb). cbn [fst snd].
  exists s2, line, t, s4. eexists.
  split; [exact Hopen|]. split; [exact Hb|].
  split; [reflexivity|]. cbn. auto 10.
Qed.

Lemma indexCodebaseRun_throws root s e s' :
  indexCodebaseRun env root s = (Err e, s') ->
  initializeQdrant env s = (Err e, s').
Proof.
  intros H.
  destruct (initializeQdrant env s) as [[[]|e1] s1] eqn:Hinit.
  - destruct (indexCodebaseRun_after_init root s s1 Hinit)
      as (s2 & line & t & s4 & s'' & _ & _ & Hrun & _).
    congruence.
  - unfold indexCodebaseRun in H.
    rewrite (bind_ok _ _ _ _ _ (loadConfig_resolves env s)),
      (bind_err _ _ _ _ _ Hinit) in H.
    injection H as -> ->. reflexivity.
Qed.

End RunErrorFacts.

(** X5.  [indexCodebase] throws for three reasons only.  Busy: another
    run is in flight, and nothing changes.  No root: the path is falsy,
    and nothing changes.  Otherwise the vector store could not be
    initialised (listing or creating the collection failed): then no
    point was written, the root is not registered, the busy flag is
    clear again, and the client variable stays set. *)
Theorem indexCodebase_errors env p s e s' :
  indexCodebase env p s = (Err e, s') ->
  (isIndexing s = true /\ e = "Indexing already in progress" /\ s' = s) \/
  (isIndexing s = false /\ JS.truthyOpt p = false /\
   e = "Codebase path is required" /\ s' = s) \/
  (isIndexing s = false /\ JS.truthyOpt p = true /\
   qdrantClient s = false /\
   (Env.qdrantOutage env Qdrant.GetCollections = Some e \/
    Env.qdrantOutage env
      (Qdrant.CreateCollection (collectionName INDEXING_CONFIG)) = Some e) /\
   isIndexing s' = false /\
   indexedCodebases s' = indexedCodebases s /\
   storedPoints s' = storedPoints s /\
   qdrantClient s' = true).
Proof.
  rewrite indexCodebase_split. intros H.
  destruct (indexCodebaseEnter_shape p s)
    as [[He Hb] | [(He & Hi & Hf) | (s0 & He & Hi & Ht & Hi0 & Hs0)]].
  - rewrite (bind_err _ _ _ _ _ He) in H. left. split; [exact Hb|].
    split; congruence.
  - rewrite (bind_err _ _ _ _ _ He) in H. right. left.
    split; [exact Hi|]. split; [exact Hf|]. split; congruence.
  - right. right. rewrite (bind_ok _ _ _ _ _ He) in H.
    assert (Hs0' : qdrantClient s0 = qdrantClient s /\
                   storedPoints s0 = storedPoints s).
    { unfold indexCodebaseEnter, bind, get in He. rewrite Hi, Ht in He.
      cbn in He. injection He as <-. split; reflexivity. }
    destruct Hs0' as [Hq0 Hp0].
    unfold indexCodebaseResume, tryFinally, tryCatch in H.
    destruct (indexCodebaseRun env (rootOf p) s0) as [[r|e1] s1] eqn:Hrun;
      [discriminate|].
    apply indexCodebaseRun_throws in Hrun.
    cbn in H. injection H as <- <-.
    destruct (initializeQdrant_cases env s0)
      as [[_ Hok] | (Hq & s1' & Hq1 & _ & Hreg & Hpts & [Hok | (e2 & Herr & Hout)])];
      try congruence.
    assert (e2 = e1 /\ s1' = s1) as [-> ->] by (split; congruence).
    apply registry_eq in Hreg as [_ Hset].
    split; [exact Hi|]. split; [exact Ht|]. split; [congruence|].
    split; [exact Hout|]. cbn. split; [reflexivity|].
    split; [congruence|]. split; [unfold storedPoints in *; cbn; congruence|].
    exact Hq1.
Qed.

Lemma indexCodebase_errors_witness :
  (isIndexing initialServer = true /\
   "connect ECONNREFUSED 127.0.0.1:6333" = "Indexing already in progress" /\
   snd (indexCodebase Scenario.nothing (Some "/a") initialServer) = initialServer) \/
  (isIndexing initialServer = false /\ JS.truthyOpt (Some "/a") = false /\
   "connect ECONNREFUSED 127.0.0.1:6333" = "Codebase path is required" /\
   snd (indexCodebase Scenario.nothing (Some "/a") initialServer) = initialServer) \/
  (isIndexing initialServer = false /\ JS.truthyOpt (Some "/a") = true /\
   qdrantClient initialServer = false /\
   (Env.qdrantOutage Scenario.nothing Qdrant.GetCollections
    = Some "connect ECONNREFUSED 127.0.0.1:6333" \/
    Env.qdrantOutage Scenario.nothing
      (Qdrant.CreateCollection (collectionName INDEXING_CONFIG))
    = Some "connect ECONNREFUSED 127.0.0.1:6333") /\
   isIndexing (snd (indexCodebase Scenario.nothing (Some "/a") initialServer))
   = false /\
   indexedCodebases (snd (indexCodebase Scenario.nothing (Some "/a") initialServer))
   = indexedCodebases initialServer /\
   storedPoints (snd (indexCodebase Scenario.nothing (Some "/a") initialServer))
   = storedPoints initialServer /\
   qdrantClient (snd (indexCodebase Scenario.nothing (Some "/a") initialServer))
   = true).
Proof.
  apply (indexCodebase_errors Scenario.nothing (Some "/a") initialServer).
  vm_compute. reflexivity.
Defined.

(* ===================================================================== *)
(** ** Indexer: a run without an embedding client *)
(* ===================================================================== *)

Section NoClientFacts.

Variable env : Env.t.

Lemma sameButConsole_refl s : sameButConsole s s.
Proof. unfold sameButConsole. auto. Qed.

Lemma sameButConsole_trans s1 s2 s3 :
  sameButConsole s1 s2 -> sameButConsole s2 s3 -> sameButConsole s1 s3.
Proof. unfold sameButConsole. intuition congruence. Qed.

Lemma sameButConsole_write line s : sameButConsole s (snd (consoleWrite line s)).
Proof. unfold sameButConsole. cbn. auto. Qed.

Lemma createEmbeddings_no_client texts s :
  openaiClient s = false ->
  createEmbeddings env texts s
  = (Err "OpenAI client not initialized. Please set openaiApiKey in config.", s).
Proof. intros H. unfold createEmbeddings, bind, get. now rewrite H. Qed.

(** Without a client a file yields the count 0 and writes nothing to the
    store: the first chunk's embedding request throws before it is
    sent. *)
Lemma indexFile_without_client file root s :
  openaiClient s = false ->
  exists s', indexFile env file root s = (Ok 0, s') /\ sameButConsole s s'.
Proof.
  intros Ho. unfold indexFile, tryCatch.
  destruct (Env.stat env file) as [st|e] eqn:Hst.
  2:{ rewrite (bind_err _ _ _ _ _ (eq_refl : await (Err e) s = (Err e, s))).
      eexists. split; [reflexivity | apply sameButConsole_write]. }
  rewrite (bind_ok _ _ _ _ _ (eq_refl : await (Ok st) s = (Ok st, s))).
  destruct (Stats.size st >? maxFileSize INDEXING_CONFIG).
  { eexists. split; [reflexivity | apply sameButConsole_write]. }
  destruct (Env.readFile env file) as [content|e] eqn:Hrd.
  2:{ rewrite (bind_err _ _ _ _ _ (eq_refl : await (Err e) s = (Err e, s))).
      eexists. split; [reflexivity | apply sameButConsole_write]. }
  rewrite (bind_ok _ _ _ _ _ (eq_refl : await (Ok content) s = (Ok content, s))).
  cbv zeta.
  destruct (Chunker.chunksOfContent content) as [|chunk rest].
  - eexists. split; [reflexivity | apply sameButConsole_refl].
  - cbn [indexChunks]. unfold indexChunk.
    rewrite (bind_err _ _ _ _ _
               (bind_err _ _ _ _ _ (createEmbeddings_no_client [chunk] s Ho))).
    eexists. split; [reflexivity | apply sameButConsole_write].
Qed.

Lemma promiseAllMap_without_client root batch :
  forall s,
    openaiClient s = false ->
    exists s',
      promiseAllMap
        (fun file => let* chunks := indexFile env file root in ret (file, chunks))
        batch s
      = (Ok (map (fun file => (file, 0)) batch), s') /\
      sameButConsole s s'.
Proof.
  induction batch as [|file rest IH]; intros s Ho; cbn [promiseAllMap map].
  - exists s. split; [reflexivity | apply sameButConsole_refl].
  - destruct (indexFile_without_client file root s Ho) as (s1 & Hf & Hs1).
    assert (H1 : (let* chunks := indexFile env file root in ret (file, chunks)) s
                 = (Ok (file, 0), s1))
      by (unfold bind; rewrite Hf; reflexivity).
    assert (Ho1 : openaiClient s1 = false)
      by (destruct Hs1 as (_ & -> & _); exact Ho).
    destruct (IH s1 Ho1) as (s2 & Hr & Hs2).
    rewrite (bind_ok _ _ _ _ _ H1), (bind_ok _ _ _ _ _ Hr).
    exists s2. split; [reflexivity|].
    exact (sameButConsole_trans _ _ _ Hs1 Hs2).
Qed.

Lemma tallyResults_zero (batch : list string) total :
  forall t p s,
    exists s',
      tallyResults (map (fun file => (file, 0)) batch) total t p s
      = (Ok (t, p + Z.of_nat (length batch)), s') /\
      sameButConsole s s'.
Proof.
  induction batch as [|file rest IH]; intros t p s; cbn [tallyResults map].
  - exists s. rewrite Z.add_0_r. split; [reflexivity | apply sameButConsole_refl].
  - cbv zeta. rewrite Z.add_0_r.
    set (progress := if (p + 1) mod 10 =? 0 then consoleWrite _ else ret tt).
    assert (Hlog : exists s1, progress s = (Ok tt, s1) /\ sameButConsole s s1).
    { subst progress. destruct (_ =? 0); eexists;
        (split; [reflexivity|]);
        [apply sameButConsole_write | apply sameButConsole_refl]. }
    destruct Hlog as (s1 & Hlog & Hs1).
    rewrite (bind_ok _ _ _ _ _ Hlog).
    destruct (IH t (p + 1) s1) as (s' & -> & Hs').
    exists s'. split.
    + f_equal. f_equal. f_equal. rewrite length_cons. lia.
    + exact (sameButConsole_trans _ _ _ Hs1 Hs').
Qed.

Lemma indexBatches_without_client root files starts :
  forall t p s,
    openaiClient s = false ->
    exists s',
      indexBatches env root files starts t p s
      = (Ok (t, p + Z.of_nat (batchLengths files starts)), s') /\
      sameButConsole s s'.
Proof.
  unfold batchLengths.
  induction starts as [|i rest IH]; intros t p s Ho; cbn [indexBatches].
  - exists s. cbn. rewrite Z.add_0_r.
    split; [reflexivity | apply sameButConsole_refl].
  - cbv zeta.
    destruct (promiseAllMap_without_client root
                (JS.arraySlice files i (i + batchSize)) s Ho)
      as (s1 & Hr & Hs1).
    rewrite (bind_ok _ _ _ _ _ Hr).
    destruct (tallyResults_zero (JS.arraySlice files i (i + batchSize))
                (length files) t p s1) as (s2 & Ht & Hs2).
    rewrite (bind_ok _ _ _ _ _ Ht). cbn [fst snd].
    assert (Ho2 : openaiClient s2 = false).
    { destruct Hs1 as (_ & Ho1 & _), Hs2 as (_ & Ho2 & _). congruence. }
    destruct (IH t (p + Z.of_nat (length (JS.arraySlice files i (i + batchSize))))
                s2 Ho2) as (s' & -> & Hs').
    exists s'. split.
    + f_equal. f_equal. f_equal. cbn [map sum_list]. unfold id. lia.
    + exact (sameButConsole_trans _ _ _
               (sameButConsole_trans _ _ _ Hs1 Hs2) Hs').
Qed.

End NoClientFacts.

(** X6.  Called while no embedding client exists and the configuration
    holds no [openaiApiKey], [indexCodebase] does not fail: provided the
    vector store can be initialised it resolves, reports every
    allow-listed file as processed with [totalChunks] 0, stores no point,
    and still registers the root as indexed. *)
Theorem indexCodebase_without_embedding_client env p s :
  isIndexing s = false ->
  JS.truthyOpt p = true ->
  qdrantReady env s = true ->
  openaiClient s = false ->
  JS.truthyOpt (Config.openaiApiKey (Env.configFile env)) = false ->
  exists s',
    indexCodebase env p s
    = (Ok {| IndexResult.totalChunks := 0;
             IndexResult.processedFiles :=
               Z.of_nat (length (codeFilesUnder env (rootOf p))) |}, s') /\
    rootOf p ∈ indexedCodebases s' /\
    storedPoints s' = storedPoints s.
Proof.
  intros Hi Ht Hr Ho Hkey. rewrite indexCodebase_split.
  destruct (indexCodebaseEnter_accepts env p s Hi Ht)
    as (s0 & He & _ & _ & Hr0).
  assert (Hs0 : openaiClient s0 = false /\ storedPoints s0 = storedPoints s).
  { unfold indexCodebaseEnter, bind, get in He. rewrite Hi, Ht in He.
    cbn in He. injection He as <-. split; [exact Ho | reflexivity]. }
  destruct Hs0 as [Ho0 Hp0].
  rewrite (bind_ok _ _ _ _ _ He).
  rewrite Hr in Hr0.
  destruct (initializeQdrant_resolves env s0 Hr0) as [s1 Hinit].
  assert (Hs1 : openaiClient s1 = false /\ storedPoints s1 = storedPoints s0).
  { destruct (initializeQdrant_cases env s0)
      as [[_ Hok] | (_ & s1' & _ & Ho1 & _ & Hp1 & [Hok | (e & Herr & _)])];
      try congruence.
    - assert (s1 = s0) by congruence. subst. auto.
    - assert (s1' = s1) by congruence. subst. split; congruence. }
  destruct Hs1 as [Ho1 Hp1].
  destruct (indexCodebaseRun_after_init env (rootOf p) s0 s1 Hinit)
    as (s2 & line & t & s4 & s' & Hopen & Hb & Hrun & _ & _ & _ & Hset & Hpts).
  assert (Hs2 : s2 = s1).
  { unfold initializeOpenAI, bind, get in Hopen. rewrite Hkey in Hopen.
    rewrite andb_false_r in Hopen. now injection Hopen. }
  subst s2.
  destruct (indexBatches_without_client env (rootOf p)
              (codeFilesUnder env (rootOf p))
              (JS.forRange (length (codeFilesUnder env (rootOf p))) batchSize)
              0 0 (snd (consoleWrite line s1)) Ho1)
    as (s4' & Hb' & Hsame).
  rewrite Hb in Hb'. injection Hb' as -> _ <-.
  unfold indexCodebaseResume, tryFinally, tryCatch. rewrite Hrun.
  eexists. split; [reflexivity|]. split.
  - change (indexedCodebases (setIsIndexing false s'))
      with (indexedCodebases s').
    rewrite Hset. apply elem_of_union. left. now apply elem_of_singleton.
  - change (storedPoints (setIsIndexing false s')) with (storedPoints s').
    destruct Hsame as (_ & _ & _ & _ & Hq).
    assert (Hp4 : storedPoints s4 = storedPoints s1)
      by (unfold storedPoints; rewrite Hq; reflexivity).
    congruence.
Qed.

Lemma indexCodebase_without_embedding_client_witness :
  exists s',
    indexCodebase Cases.mixedRepoNoKey (Some "/repo") initialServer
    = (Ok {| IndexResult.totalChunks := 0;
             IndexResult.processedFiles :=
               Z.of_nat (length (codeFilesUnder Cases.mixedRepoNoKey
                                   (rootOf (Some "/repo")))) |}, s') /\
    rootOf (Some "/repo") ∈ indexedCodebases s' /\
    storedPoints s' = storedPoints initialServer.
Proof.
  apply (indexCodebase_without_embedding_client Cases.mixedRepoNoKey
           (Some "/repo") initialServer); reflexivity.
Defined.

(* ===================================================================== *)
(** ** Indexer: what a run writes *)
(* ===================================================================== *)

Section MaintainsFacts.

Variable I : Server -> Prop.

Lemma maintains_ret {A} (a : A) : maintains I (ret a).
Proof. intros s H. exact H. Qed.

Lemma maintains_throw {A} message : maintains I (@throw A message).
Proof. intros s H. exact H. Qed.

Lemma maintains_await {A} (r : Result A) : maintains I (await r).
Proof. intros s H. exact H. Qed.

Lemma maintains_get : maintains I get.
Proof. intros s H. exact H. Qed.

Lemma maintains_modify f :
  (forall s, I s -> I (f s)) -> maintains I (modify f).
Proof. intros Hf s H. apply Hf, H. Qed.

Lemma maintains_bind {A B} (m : M A) (k : A -> M B) :
  maintains I m -> (forall a, maintains I (k a)) -> maintains I (bind m k).
Proof.
  intros Hm Hk s H. unfold bind. specialize (Hm s H).
  destruct (m s) as [[a|e] s1]; cbn in *; [|exact Hm].
  apply Hk, Hm.
Qed.

Lemma maintains_tryCatch {A} (m : M A) handler :
  maintains I m -> (forall e, maintains I (handler e)) ->
  maintains I (tryCatch m handler).
Proof.
  intros Hm Hh s H. unfold tryCatch. specialize (Hm s H).
  destruct (m s) as [[a|e] s1]; cbn in *; [exact Hm|].
  apply Hh, Hm.
Qed.

Lemma maintains_tryFinally {A} (m : M A) release :
  maintains I m -> (forall s, I s -> I (release s)) ->
  maintains I (tryFinally m release).
Proof.
  intros Hm Hr s H. unfold tryFinally. specialize (Hm s H).
  destruct (m s) as [r s1]. cbn in *. apply Hr, Hm.
Qed.

Lemma maintains_promiseAllMap {A B} (f : A -> M B) xs :
  (forall x, maintains I (f x)) -> maintains I (promiseAllMap f xs).
Proof.
  intros Hf. induction xs as [|x xs IH]; cbn [promiseAllMap].
  - apply maintains_ret.
  - apply maintains_bind; [apply Hf|]. intros y.
    apply maintains_bind; [apply IH|]. intros ys. apply maintains_ret.
Qed.

End MaintainsFacts.

Create HintDb maintains discriminated.

Ltac maintains_step :=
  lazymatch goal with
  | |- maintains _ (ret _) => apply maintains_ret
  | |- maintains _ (throw _) => apply maintains_throw
  | |- maintains _ (await _) => apply maintains_await
  | |- maintains _ get => apply maintains_get
  | |- maintains _ (bind _ _) => apply maintains_bind; [|intros ?]
  | |- maintains _ (tryCatch _ _) => apply maintains_tryCatch; [|intros ?]
  | |- maintains _ (modify _) =>
      apply maintains_modify; let H := fresh in intros ? H; exact H
  | |- maintains _ (consoleWrite _) =>
      apply maintains_modify; let H := fresh in intros ? H; exact H
  | |- maintains _ (promiseAllMap _ _) => apply maintains_promiseAllMap; intros ?
  | |- maintains _ (if ?b then _ else _) => destruct b
  | |- maintains _ (match ?x with _ => _ end) => destruct x
  | |- maintains _ _ => solve [auto with maintains]
  end.

Ltac maintains_tac := repeat maintains_step.

Section WrittenPointsFacts.

Variable env : Env.t.
Variable R : Point.t -> Prop.

Lemma upsertPoint_Forall pt pts :
  R pt -> Forall R pts -> Forall R (Qdrant.upsertPoint pt pts).
Proof.
  intros Hpt. induction 1 as [|q rest Hq Hrest IH]; cbn.
  - now constructor.
  - destruct (String.eqb _ _); constructor; auto.
Qed.

Lemma maintains_initializeQdrant : maintains (pointsAll R) (initializeQdrant env).
Proof.
  unfold initializeQdrant, loadConfig, qdrantGetCollections,
    qdrantCreateCollection, outage. maintains_tac.
Qed.

Lemma maintains_initializeOpenAI config :
  maintains (pointsAll R) (initializeOpenAI config).
Proof. unfold initializeOpenAI. maintains_tac. Qed.

Lemma maintains_createEmbeddings texts :
  maintains (pointsAll R) (createEmbeddings env texts).
Proof. unfold createEmbeddings. maintains_tac. Qed.

Lemma maintains_qdrantUpsert c pt :
  R pt -> maintains (pointsAll R) (qdrantUpsert env c pt).
Proof.
  intros Hpt. unfold qdrantUpsert, outage, nullClient.
  apply maintains_bind; [apply maintains_get|]. intros s0.
  destruct (negb (qdrantClient s0)); [apply maintains_throw|].
  destruct (Env.qdrantOutage env _); [apply maintains_throw|].
  apply maintains_modify. intros s H. unfold pointsAll, storedPoints in *.
  cbn. now apply upsertPoint_Forall.
Qed.

Hint Resolve maintains_initializeQdrant maintains_initializeOpenAI
  maintains_createEmbeddings : maintains.

Variable root : string.

Hypothesis own_points :
  forall relativePath i chunk embedding,
    R (chunkPoint env relativePath root i chunk embedding).

Lemma maintains_indexChunks rel chunks :
  forall i n, maintains (pointsAll R) (indexChunks env rel root chunks i n).
Proof.
  induction chunks as [|chunk rest IH]; intros i n; cbn [indexChunks].
  - apply maintains_ret.
  - unfold indexChunk.
    apply maintains_bind; [|intros _; apply IH].
    apply maintains_bind; [apply maintains_createEmbeddings|].
    intros embeddings. cbv zeta. apply maintains_qdrantUpsert, own_points.
Qed.

Lemma maintains_indexFile file : maintains (pointsAll R) (indexFile env file root).
Proof.
  unfold indexFile.
  apply maintains_tryCatch; [|intros e; maintains_tac].
  apply maintains_bind; [apply maintains_await|]. intros stats.
  destruct (Stats.size stats >? _); [maintains_tac|].
  apply maintains_bind; [apply maintains_await|]. intros content.
  cbv zeta. apply maintains_indexChunks.
Qed.

Lemma maintains_tallyResults results total :
  forall t p, maintains (pointsAll R) (tallyResults results total t p).
Proof.
  induction results as [|[file chunks] rest IH]; intros t p;
    cbn [tallyResults]; maintains_tac.
Qed.

Lemma maintains_indexBatches files starts :
  forall t p, maintains (pointsAll R) (indexBatches env root files starts t p).
Proof.
  induction starts as [|i rest IH]; intros t p; cbn [indexBatches].
  - apply maintains_ret.
  - cbv zeta. apply maintains_bind.
    + apply maintains_promiseAllMap. intros file.
      apply maintains_bind; [apply maintains_indexFile|].
      intros n. apply maintains_ret.
    + intros results.
      apply maintains_bind; [apply maintains_tallyResults|].
      intros counts. apply IH.
Qed.

Lemma maintains_indexCodebaseRun :
  maintains (pointsAll R) (indexCodebaseRun env root).
Proof.
  unfold indexCodebaseRun, loadConfig, getAllFiles.
  apply maintains_bind; [apply maintains_await|]. intros config.
  apply maintains_bind; [apply maintains_initializeQdrant|]. intros _.
  apply maintains_bind; [apply maintains_initializeOpenAI|]. intros _.
  apply maintains_bind; [apply maintains_ret|]. intros allFiles. cbv zeta.
  apply maintains_bind; [maintains_tac|]. intros _.
  apply maintains_bind; [apply maintains_indexBatches|]. intros counts.
  maintains_tac.
Qed.

End WrittenPointsFacts.

(** X7.  A run of [indexCodebase] writes only points of its own root:
    whatever condition every stored point met before the call, every
    stored point afterwards meets that condition or carries the root of
    the call in [codebasePath]; this holds however the run ends. *)
Theorem indexCodebase_writes_own_root env p s (Q : Point.t -> Prop) :
  Forall Q (storedPoints s) ->
  Forall (fun pt =>
            Q pt \/ Payload.codebasePath (Point.payload pt) = rootOf p)
         (storedPoints (snd (indexCodebase env p s))).
Proof.
  intros HQ.
  set (R := fun pt => Q pt \/ Payload.codebasePath (Point.payload pt) = rootOf p).
  assert (HR : pointsAll R s).
  { unfold pointsAll. eapply Forall_impl; [exact HQ|]. intros pt H. now left. }
  assert (Hm : maintains (pointsAll R) (indexCodebase env p)).
  { unfold indexCodebase.
    apply maintains_bind; [apply maintains_get|]. intros s0.
    destruct (isIndexing s0); [apply maintains_throw|].
    destruct (negb (JS.truthyOpt p)); [apply maintains_throw|].
    apply maintains_tryFinally; [|intros s1 H1; exact H1].
    apply maintains_tryCatch.
    - apply maintains_bind; [maintains_tac|]. intros _.
      apply maintains_bind; [maintains_tac|]. intros _.
      apply maintains_indexCodebaseRun.
      intros rel i chunk embedding. right. reflexivity.
    - intros e. unfold indexingFailed. maintains_tac. }
  exact (Hm s HR).
Qed.

Lemma indexCodebase_writes_own_root_witness :
  Forall (fun pt =>
            Payload.codebasePath (Point.payload pt) = "/a"
            \/ Payload.codebasePath (Point.payload pt) = rootOf (Some "/repo"))
         (storedPoints
            (snd (indexCodebase Scenario.mixedRepo (Some "/repo")
                    (setQdrant {| Qdrant.collections := ["roo-cli-codebase"];
                                  Qdrant.points :=
                                    [Scenario.pointOf "/a" "x.js" "let a"] |}
                               initialServer)))).
Proof.
  apply (indexCodebase_writes_own_root Scenario.mixedRepo (Some "/repo") _
           (fun pt => Payload.codebasePath (Point.payload pt) = "/a")).
  repeat constructor.
Defined.

(* ===================================================================== *)
(** ** Indexer: identifiers in the store *)
(* ===================================================================== *)

Section StoreIdFacts.

Lemma upsertPoint_ids_known pt pts :
  Point.id pt ∈ map Point.id pts ->
  map Point.id (Qdrant.upsertPoint pt pts) = map Point.id pts.
Proof.
  induction pts as [|q rest IH]; cbn; intros H.
  - now apply elem_of_nil in H.
  - destruct (String.eqb_spec (Point.id q) (Point.id pt)) as [Heq|Hne]; cbn.
    + now rewrite Heq.
    + f_equal. apply IH. apply elem_of_cons in H as [H|H]; [congruence | exact H].
Qed.

Lemma upsertPoint_ids_new pt pts :
  Point.id pt ∉ map Point.id pts ->
  map Point.id (Qdrant.upsertPoint pt pts) = map Point.id pts ++ [Point.id pt].
Proof.
  induction pts as [|q rest IH]; cbn; intros H; [reflexivity|].
  apply not_elem_of_cons in H as [Hne H].
  destruct (String.eqb_spec (Point.id q) (Point.id pt)) as [Heq|_]; cbn.
  - congruence.
  - f_equal. now apply IH.
Qed.

Lemma upsertPoint_has_id pt pts :
  Point.id pt ∈ map Point.id (Qdrant.upsertPoint pt pts).
Proof.
  induction pts as [|q rest IH]; cbn.
  - apply elem_of_cons. now left.
  - destruct (String.eqb (Point.id q) (Point.id pt)); cbn;
      apply elem_of_cons; [now left | now right].
Qed.

Lemma upsertPoint_keeps_id pt pts i :
  i ∈ map Point.id pts -> i ∈ map Point.id (Qdrant.upsertPoint pt pts).
Proof.
  intros H.
  destruct (decide (Point.id pt ∈ map Point.id pts)) as [Hin|Hnin].
  - now rewrite upsertPoint_ids_known.
  - rewrite upsertPoint_ids_new by exact Hnin. apply elem_of_app. now left.
Qed.

Lemma upsertPoint_NoDup pt pts :
  NoDup (map Point.id pts) -> NoDup (map Point.id (Qdrant.upsertPoint pt pts)).
Proof.
  intros H.
  destruct (decide (Point.id pt ∈ map Point.id pts)) as [Hin|Hnin].
  - now rewrite upsertPoint_ids_known.
  - rewrite upsertPoint_ids_new by exact Hnin.
    apply NoDup_app. split; [exact H|]. split.
    + intros i Hi Hi'. apply list_elem_of_singleton in Hi'. congruence.
    + apply NoDup_singleton.
Qed.

(** In a store without duplicate identifiers, the point found under the
    identifier just upserted is the upserted one. *)
Lemma upsertPoint_replaces pt pts q :
  NoDup (map Point.id pts) ->
  q ∈ Qdrant.upsertPoint pt pts ->
  Point.id q = Point.id pt ->
  q = pt.
Proof.
  induction pts as [|x rest IH]; cbn; intros Hnd Hq Hid.
  - now apply list_elem_of_singleton in Hq.
  - apply NoDup_cons in Hnd as [Hx Hnd].
    destruct (String.eqb_spec (Point.id x) (Point.id pt)) as [Heq|Hne].
    + apply elem_of_cons in Hq as [Hq|Hq]; [exact Hq|].
      exfalso. apply Hx. rewrite Heq, <- Hid.
      now apply list_elem_of_fmap_2.
    + apply elem_of_cons in Hq as [->|Hq]; [congruence|].
      now apply IH.
Qed.

Lemma upsertAll_ids_known L :
  forall pts,
    Forall (fun pt => Point.id pt ∈ map Point.id pts) L ->
    map Point.id (upsertAll L pts) = map Point.id pts.
Proof.
  unfold upsertAll.
  induction L as [|pt L IH]; intros pts H; cbn [foldl]; [reflexivity|].
  apply Forall_cons in H as [Hpt HL].
  rewrite IH; [now apply upsertPoint_ids_known|].
  eapply Forall_impl; [exact HL|]. intros q Hq.
  now rewrite upsertPoint_ids_known.
Qed.

Lemma upsertAll_keeps_id L :
  forall pts i, i ∈ map Point.id pts -> i ∈ map Point.id (upsertAll L pts).
Proof.
  unfold upsertAll.
  induction L as [|pt L IH]; intros pts i H; cbn [foldl]; [exact H|].
  apply IH. now apply upsertPoint_keeps_id.
Qed.

Lemma upsertAll_has_ids L :
  forall pts, Forall (fun pt => Point.id pt ∈ map Point.id (upsertAll L pts)) L.
Proof.
  induction L as [|pt L IH]; intros pts; [constructor|].
  constructor.
  - change (upsertAll (pt :: L) pts) with (upsertAll L (Qdrant.upsertPoint pt pts)).
    apply upsertAll_keeps_id, upsertPoint_has_id.
  - exact (IH (Qdrant.upsertPoint pt pts)).
Qed.

Lemma upsertAll_NoDup L :
  forall pts, NoDup (map Point.id pts) -> NoDup (map Point.id (upsertAll L pts)).
Proof.
  unfold upsertAll.
  induction L as [|pt L IH]; intros pts H; cbn [foldl]; [exact H|].
  apply IH. now apply upsertPoint_NoDup.
Qed.

End StoreIdFacts.

(** X8.  The chunk identifier is computed from the relative path, the
    start line and the text, not from the root.  So the same chunk at
    the same relative path under two roots has one identifier, and in a
    store without duplicate identifiers upserting the second root's
    point replaces the first root's: the point then found under that
    identifier is the second root's. *)
Theorem upsert_replaces_twin_chunk env rel A B i chunk eA eB pts q :
  NoDup (map Point.id pts) ->
  q ∈ Qdrant.upsertPoint (chunkPoint env rel B i chunk eB)
        (Qdrant.upsertPoint (chunkPoint env rel A i chunk eA) pts) ->
  Point.id q = Point.id (chunkPoint env rel A i chunk eA) ->
  Point.id (chunkPoint env rel A i chunk eA)
  = Point.id (chunkPoint env rel B i chunk eB) /\
  q = chunkPoint env rel B i chunk eB.
Proof.
  intros Hnd Hq Hid. split; [reflexivity|].
  apply (upsertPoint_replaces _ _ _ (upsertPoint_NoDup _ _ Hnd) Hq).
  exact Hid.
Qed.

Lemma upsert_replaces_twin_chunk_witness :
  Point.id (chunkPoint Cases.twinRoots "util.js" "/a" 0 "let u = 1" None)
  = Point.id (chunkPoint Cases.twinRoots "util.js" "/b" 0 "let u = 1" None) /\
  chunkPoint Cases.twinRoots "util.js" "/b" 0 "let u = 1" None
  = chunkPoint Cases.twinRoots "util.js" "/b" 0 "let u = 1" None.
Proof.
  apply (upsert_replaces_twin_chunk Cases.twinRoots "util.js" "/a" "/b" 0
           "let u = 1" None None []).
  - constructor.
  - vm_compute. apply list_elem_of_singleton. reflexivity.
  - reflexivity.
Defined.

(** After indexing the twin roots one after the other the store holds a
    single point, of the second root, and a search scoped to the first
    root finds nothing. *)
Example twin_roots_overwrite :
  let s1 := snd (indexCodebase Cases.twinRoots (Some "/a") initialServer) in
  let s2 := snd (indexCodebase Cases.twinRoots (Some "/b") s1) in
  map (fun pt => Payload.codebasePath (Point.payload pt)) (storedPoints s1)
  = ["/a"] /\
  map (fun pt => Payload.codebasePath (Point.payload pt)) (storedPoints s2)
  = ["/b"] /\
  fst (searchCodebase Cases.twinRoots "u" (Some "/a") 10 s2) = Ok [].
Proof. vm_compute. repeat split. Qed.

Section ReindexFacts.

Lemma pointsFrom_ids env env' rel root root' chunks :
  (forall text, Env.md5Hex env' text = Env.md5Hex env text) ->
  forall i,
    map Point.id (pointsFrom env' rel root' i chunks)
    = map Point.id (pointsFrom env rel root i chunks).
Proof.
  intros Hmd5. induction chunks as [|c rest IH]; intros i; [reflexivity|].
  cbn [pointsFrom map]. f_equal; [|apply IH].
  unfold expectedPoint, chunkPoint, generateChunkId. cbn. apply Hmd5.
Qed.

Lemma upsertAll_again L L' pts :
  map Point.id L' = map Point.id L ->
  map Point.id (upsertAll L' (upsertAll L pts))
  = map Point.id (upsertAll L pts).
Proof.
  intros Hids. apply upsertAll_ids_known.
  pose proof (upsertAll_has_ids L pts) as Hin.
  apply Forall_forall. intros q Hq.
  assert (Point.id q ∈ map Point.id L) as Hq'.
  { rewrite <- Hids. now apply list_elem_of_fmap_2. }
  apply list_elem_of_fmap in Hq' as (q0 & -> & Hq0).
  rewrite Forall_forall in Hin. now apply Hin.
Qed.

End ReindexFacts.

(** X9.  Indexing a file a second time adds no identifier to the store.
    The second run may see another clock, other embeddings and another
    file size: as long as the file's text, its relative path and the
    hash are the same and every chunk is accepted again, it reports the
    same number of chunks and the stored identifiers are, in order, what
    they were after the first run. *)
Theorem indexFile_again_keeps_ids env env' file root s st st' content :
  qdrantClient s = true -> openaiClient s = true ->
  Env.stat env file = Ok st ->
  Stats.size st <= maxFileSize INDEXING_CONFIG ->
  Env.readFile env file = Ok content ->
  (forall j c, Chunker.chunksOfContent content !! j = Some c ->
               chunkSucceeds env (Env.pathRelative env root file) root j c = true) ->
  Env.stat env' file = Ok st' ->
  Stats.size st' <= maxFileSize INDEXING_CONFIG ->
  Env.readFile env' file = Ok content ->
  Env.pathRelative env' root file = Env.pathRelative env root file ->
  (forall text, Env.md5Hex env' text = Env.md5Hex env text) ->
  (forall j c, Chunker.chunksOfContent content !! j = Some c ->
               chunkSucceeds env' (Env.pathRelative env' root file) root j c = true) ->
  fst (indexFile env' file root (snd (indexFile env file root s)))
  = fst (indexFile env file root s) /\
  map Point.id
    (storedPoints (snd (indexFile env' file root (snd (indexFile env file root s)))))
  = map Point.id (storedPoints (snd (indexFile env file root s))).
Proof.
  intros Hq Ho Hst Hsz Hrd Hall Hst' Hsz' Hrd' Hrel Hmd5 Hall'.
  rewrite (indexFile_every_chunk_stored env _ _ _ _ _ Hq Ho Hst Hsz Hrd Hall).
  cbn [fst snd].
  set (L := pointsFrom env _ root 0 _).
  destruct (storeAll_clients L s) as (Hq1 & Ho1 & _ & Hp1).
  rewrite (indexFile_every_chunk_stored env' _ _ (storeAll L s) _ _
             ltac:(congruence) ltac:(congruence) Hst' Hsz' Hrd' Hall').
  cbn [fst snd]. split; [reflexivity|].
  set (L' := pointsFrom env' _ root 0 _).
  destruct (storeAll_clients L' (storeAll L s)) as (_ & _ & _ & Hp2).
  unfold storedPoints. rewrite Hp2, Hp1.
  apply upsertAll_again. subst L L'. rewrite Hrel.
  now apply pointsFrom_ids.
Qed.

Lemma indexFile_again_keeps_ids_witness :
  fst (indexFile (Cases.atTime "2030-01-01T00:00:00.000Z" Cases.twinRoots)
         "/a/util.js" "/a"
         (snd (indexFile Cases.twinRoots "/a/util.js" "/a" Scenario.ready)))
  = fst (indexFile Cases.twinRoots "/a/util.js" "/a" Scenario.ready) /\
  map Point.id
    (storedPoints
       (snd (indexFile (Cases.atTime "2030-01-01T00:00:00.000Z" Cases.twinRoots)
               "/a/util.js" "/a"
               (snd (indexFile Cases.twinRoots "/a/util.js" "/a" Scenario.ready)))))
  = map Point.id
      (storedPoints (snd (indexFile Cases.twinRoots "/a/util.js" "/a"
                            Scenario.ready))).
Proof.
  apply (indexFile_again_keeps_ids Cases.twinRoots
           (Cases.atTime "2030-01-01T00:00:00.000Z" Cases.twinRoots)
           "/a/util.js" "/a" Scenario.ready
           (Scenario.regular 9) (Scenario.regular 9) "let u = 1");
    try reflexivity; cbn; lia.
Defined.

(* ===================================================================== *)
(** ** The file walker *)
(* ===================================================================== *)

Section WalkerFacts.

Variable env : Env.t.

Lemma getAllFilesAt_S depth dirPath acc :
  getAllFilesAt env (S depth) dirPath acc
  = match Env.readdir env dirPath with
    | Err _ => acc
    | Ok files => walkEntries env depth dirPath files acc
    end.
Proof. reflexivity. Qed.

Lemma walkEntries_cons depth dirPath file rest acc :
  walkEntries env depth dirPath (file :: rest) acc
  = if skipsEntry file
    then walkEntries env depth dirPath rest acc
    else
      match Env.stat env (Env.pathJoin env dirPath file) with
      | Err _ => acc
      | Ok stat =>
          if Stats.isDirectory stat
          then walkEntries env depth dirPath rest
                 (getAllFilesAt env depth (Env.pathJoin env dirPath file) acc)
          else walkEntries env depth dirPath rest
                 (acc ++ [Env.pathJoin env dirPath file])
      end.
Proof. reflexivity. Qed.

Lemma walkEntries_extends depth dirPath :
  (forall sub acc,
      getAllFilesAt env depth sub acc = acc ++ getAllFilesAt env depth sub []) ->
  forall files acc,
    walkEntries env depth dirPath files acc
    = acc ++ walkEntries env depth dirPath files [].
Proof.
  intros Hsub. induction files as [|file rest IH]; intros acc.
  - cbn. now rewrite app_nil_r.
  - rewrite !walkEntries_cons.
    destruct (skipsEntry file); [apply IH|].
    destruct (Env.stat env _) as [stat|e]; [|now rewrite app_nil_r].
    destruct (Stats.isDirectory stat).
    + rewrite IH, Hsub.
      rewrite (IH (getAllFilesAt env depth _ [])).
      now rewrite app_assoc.
    + rewrite IH. rewrite (IH ([] ++ _)). cbn [app].
      now rewrite <- app_assoc.
Qed.

Lemma walkEntries_stops depth dirPath bad post e :
  skipsEntry bad = false ->
  Env.stat env (Env.pathJoin env dirPath bad) = Err e ->
  forall pre acc,
    walkEntries env depth dirPath (pre ++ bad :: post) acc
    = walkEntries env depth dirPath pre acc.
Proof.
  intros Hvis Hstat. induction pre as [|file rest IH]; intros acc.
  - cbn [app]. rewrite walkEntries_cons, Hvis, Hstat. reflexivity.
  - cbn [app]. rewrite !walkEntries_cons.
    destruct (skipsEntry file); [apply IH|].
    destruct (Env.stat env (Env.pathJoin env dirPath file)) as [stat|e'];
      [|reflexivity].
    destruct (Stats.isDirectory stat); apply IH.
Qed.

Variable root : string.

Lemma walkEntries_listed depth dirPath entries :
  walkedDir env root dirPath ->
  Env.readdir env dirPath = Ok entries ->
  (forall sub acc,
      walkedDir env root sub ->
      Forall (listedFile env root) acc ->
      Forall (listedFile env root) (getAllFilesAt env depth sub acc)) ->
  forall files acc,
    files ⊆ entries ->
    Forall (listedFile env root) acc ->
    Forall (listedFile env root) (walkEntries env depth dirPath files acc).
Proof.
  intros Hdir Hread Hsub.
  induction files as [|file rest IH]; intros acc Hin Hacc; [exact Hacc|].
  assert (Hfile : file ∈ entries) by (apply Hin, elem_of_cons; now left).
  assert (Hrest : rest ⊆ entries).
  { intros x Hx. apply Hin, elem_of_cons. now right. }
  rewrite walkEntries_cons.
  destruct (skipsEntry file) eqn:Hskip; [now apply IH|].
  destruct (Env.stat env (Env.pathJoin env dirPath file)) as [stat|e] eqn:Hstat;
    [|exact Hacc].
  destruct (Stats.isDirectory stat) eqn:Hisdir.
  - apply IH; [exact Hrest|]. apply Hsub; [|exact Hacc].
    exact (walked_entry env root dirPath entries file stat
             Hdir Hread Hfile Hskip Hstat Hisdir).
  - apply IH; [exact Hrest|]. apply Forall_app. split; [exact Hacc|].
    constructor; [|constructor].
    exists dirPath, entries, file, stat. auto 10.
Qed.

Lemma getAllFilesAt_listed depth :
  forall dirPath acc,
    walkedDir env root dirPath ->
    Forall (listedFile env root) acc ->
    Forall (listedFile env root) (getAllFilesAt env depth dirPath acc).
Proof.
  induction depth as [|depth IH]; intros dirPath acc Hdir Hacc; [exact Hacc|].
  rewrite getAllFilesAt_S.
  destruct (Env.readdir env dirPath) as [files|e] eqn:Hread; [|exact Hacc].
  now apply (walkEntries_listed depth dirPath files Hdir Hread IH).
Qed.

End WalkerFacts.

(** X10.  The walker only ever appends to the array it is handed: the
    result of a walk that starts from an array is that array followed by
    the result of the same walk started from the empty array.  Nothing
    gathered before is dropped or reordered, whatever fails below. *)
Theorem getAllFiles_appends env depth dirPath arrayOfFiles :
  getAllFilesAt env depth dirPath arrayOfFiles
  = arrayOfFiles ++ getAllFilesAt env depth dirPath [].
Proof.
  revert dirPath arrayOfFiles.
  induction depth as [|depth IH]; intros dirPath arrayOfFiles.
  - cbn. now rewrite app_nil_r.
  - rewrite !getAllFilesAt_S.
    destruct (Env.readdir env dirPath) as [files|e]; [|now rewrite app_nil_r].
    now apply walkEntries_extends.
Qed.

(** X11.  One [try] surrounds the whole loop over a directory's entries,
    so a [stat] that fails on an entry that is not skipped ends the
    listing of that directory: the entries after it are never visited,
    and the walk returns what the entries before it had gathered. *)
Theorem getAllFiles_stops_at_stat_failure
        env depth dirPath pre bad post e arrayOfFiles :
  Env.readdir env dirPath = Ok (pre ++ bad :: post) ->
  skipsEntry bad = false ->
  Env.stat env (Env.pathJoin env dirPath bad) = Err e ->
  getAllFilesAt env (S depth) dirPath arrayOfFiles
  = walkEntries env depth dirPath pre arrayOfFiles.
Proof.
  intros Hread Hvis Hstat. rewrite getAllFilesAt_S, Hread.
  now apply (walkEntries_stops env depth dirPath bad post e).
Qed.

Lemma getAllFiles_stops_at_stat_failure_witness :
  getAllFilesAt Cases.danglingLink 3 "/r" [] = ["/r/a.js"] /\
  walkEntries Cases.danglingLink 2 "/r" ["a.js"] [] = ["/r/a.js"].
Proof.
  split; [|reflexivity].
  rewrite (getAllFiles_stops_at_stat_failure Cases.danglingLink 2 "/r"
             ["a.js"] "gone" ["b.js"]
             "ENOENT: no such file or directory, '/r/gone'" []);
    reflexivity.
Defined.

(** X12.  Every path a walk from a root returns is an entry, as
    [readdir] returned it, of the root or of a directory reached from
    the root through entries that are not skipped (no name starting with
    a dot, no [node_modules]) and that [stat] reported as directories;
    the entry itself is not skipped and [stat] reported it as something
    other than a directory.  The files [indexCodebase] retains have,
    besides, a code extension. *)
Theorem getAllFiles_lists_only_files env depth root :
  Forall (listedFile env root) (getAllFilesAt env depth root []) /\
  Forall (fun file => listedFile env root file /\ isCodeFile env file = true)
         (codeFilesUnder env root).
Proof.
  split.
  - apply getAllFilesAt_listed; constructor.
  - unfold codeFilesUnder. apply Forall_forall. intros file Hin.
    apply list_elem_of_In, filter_In in Hin as [Hin Hcode]. split.
    + pose proof (getAllFilesAt_listed env root (Env.fsMaxDepth env) root []
                    (walked_root env root) (Forall_nil_2 _)) as Hall.
      rewrite Forall_forall in Hall. now apply Hall, list_elem_of_In.
    + exact Hcode.
Qed.

(** A walk over a root with a dependency directory and a hidden one
    returns the files outside them only. *)
Example getAllFiles_nestedRepo :
  getAllFilesAt Cases.nestedRepo 8 "/r" [] = ["/r/src/b.js"; "/r/a.js"].
Proof. vm_compute. reflexivity. Qed.

(* ===================================================================== *)
(** ** Context assembler: excerpts, blocks and the directory listing *)
(* ===================================================================== *)

Section ExcerptFacts.

Lemma length_chars_append a b :
  String.length (a +:+ b) = (String.length a + String.length b)%nat.
Proof. now rewrite <- !chars_length, chars_append, length_app. Qed.

Lemma slice_prefix content budget :
  0 <= budget ->
  JS.slice content 0 budget
  = String.substring 0 (Z.to_nat (Z.min budget (JS.length content))) content.
Proof.
  intros Hb. unfold JS.slice, JS.clampIndex. cbv zeta.
  destruct (Z.ltb_spec 0 0); [lia|].
  destruct (Z.ltb_spec budget 0); [lia|].
  unfold JS.length. f_equal; lia.
Qed.

Lemma substring_whole s n :
  (String.length s <= n)%nat -> String.substring 0 n s = s.
Proof.
  intros H. apply chars_inj. rewrite chars_substring, drop_0.
  apply take_ge. rewrite chars_length. exact H.
Qed.

Lemma substring_length_prefix s n :
  (n <= String.length s)%nat -> String.length (String.substring 0 n s) = n.
Proof.
  intros H. rewrite <- chars_length, chars_substring.
  rewrite length_take, drop_0, chars_length. lia.
Qed.

End ExcerptFacts.

(** X13.  The excerpt of a file in a context block: a text no longer
    than the budget is quoted whole, with no marker; a longer one is cut
    to exactly the budget and followed by a line feed and three dots, so
    an excerpt never has more than the budget plus four characters. *)
Theorem excerpt_bounded content budget :
  0 <= budget ->
  (JS.length content <= budget -> excerpt content budget = content) /\
  (budget < JS.length content ->
   excerpt content budget
   = String.substring 0 (Z.to_nat budget) content +:+ JS.nl +:+ "..." /\
   JS.length (excerpt content budget) = budget + 4) /\
  JS.length (excerpt content budget) <= budget + 4.
Proof.
  intros Hb.
  assert (Hshort : JS.length content <= budget ->
                   excerpt content budget = content).
  { intros Hle. unfold excerpt. rewrite (slice_prefix _ _ Hb).
    destruct (Z.gtb_spec (JS.length content) budget); [lia|].
    rewrite substring_whole by (unfold JS.length in *; lia).
    apply chars_inj. rewrite chars_append. cbn. apply app_nil_r. }
  assert (Hlong : budget < JS.length content ->
                  excerpt content budget
                  = String.substring 0 (Z.to_nat budget) content
                    +:+ JS.nl +:+ "..." /\
                  JS.length (excerpt content budget) = budget + 4).
  { intros Hlt. unfold excerpt. rewrite (slice_prefix _ _ Hb).
    destruct (Z.gtb_spec (JS.length content) budget); [|lia].
    replace (Z.min budget (JS.length content)) with budget by lia.
    split; [reflexivity|].
    unfold JS.length in *. rewrite length_chars_append.
    rewrite substring_length_prefix by lia.
    change (String.length (JS.nl +:+ "...")) with 4%nat. lia. }
  split; [exact Hshort|]. split; [exact Hlong|].
  destruct (Z.le_gt_cases (JS.length content) budget) as [Hle|Hgt].
  - rewrite (Hshort Hle). lia.
  - destruct (Hlong Hgt) as [_ ->]. lia.
Qed.

Lemma excerpt_bounded_witness :
  excerpt "abcdef" 3 = "abc" +:+ JS.nl +:+ "..." /\
  JS.length (excerpt "abcdef" 3) = 7.
Proof.
  refine (proj1 (proj2 (excerpt_bounded "abcdef" 3 _)) _).
  - lia.
  - vm_compute. reflexivity.
Defined.

Section CodeFilesFacts.

Variable env : Env.t.

(** The loop of [getCodeFiles] adds, in order, the blocks of the files
    that can be read. *)
Lemma getCodeFiles_loop rootPath maxFiles :
  getCodeFiles env rootPath maxFiles
  = omap (codeBlockOf env rootPath) (take maxFiles (relevantFiles env rootPath)).
Proof.
  unfold getCodeFiles. cbv zeta. fold (relevantFiles env rootPath).
  match goal with
  | |- ?each ?first [] = _ =>
      assert (Hgen : forall files codeFiles,
                 each files codeFiles
                 = codeFiles ++ omap (codeBlockOf env rootPath) files);
      [|exact (Hgen first [])]
  end.
  induction files as [|file rest IH]; intros codeFiles; simpl.
  - now rewrite app_nil_r.
  - unfold codeBlockOf at 1.
    destruct (Env.readFile env file) as [content|e].
    + rewrite IH. unfold codeBlock. now rewrite <- app_assoc.
    + apply IH.
Qed.

Lemma omap_length_le {A B} (f : A -> option B) xs :
  (length (omap f xs) <= length xs)%nat.
Proof.
  induction xs as [|x xs IH]; [reflexivity|].
  change (omap f (x :: xs))
    with (match f x with Some y => y :: omap f xs | None => omap f xs end).
  destruct (f x); cbn [length]; lia.
Qed.

End CodeFilesFacts.

(** X14.  [getCodeFiles] cuts the list of relevant files to its first
    [maxFiles] before it reads any of them, and returns, in order, one
    block for each of those that can be read.  So it returns at most
    [maxFiles] blocks; every block is the block of a readable file among
    the first [maxFiles]; and a file that cannot be read is not replaced
    by a later one: when none of the first [maxFiles] can be read the
    result is empty, whatever follows them. *)
Theorem getCodeFiles_at_most env rootPath maxFiles :
  getCodeFiles env rootPath maxFiles
  = omap (codeBlockOf env rootPath) (take maxFiles (relevantFiles env rootPath)) /\
  (length (getCodeFiles env rootPath maxFiles) <= maxFiles)%nat /\
  (forall block,
      block ∈ getCodeFiles env rootPath maxFiles ->
      exists file content,
        file ∈ take maxFiles (relevantFiles env rootPath) /\
        Env.readFile env file = Ok content /\
        block = codeBlock env rootPath file content) /\
  ((forall file,
       file ∈ take maxFiles (relevantFiles env rootPath) ->
       exists e, Env.readFile env file = Err e) ->
   getCodeFiles env rootPath maxFiles = []).
Proof.
  pose proof (getCodeFiles_loop env rootPath maxFiles) as Hloop.
  split; [exact Hloop|]. rewrite Hloop. split; [|split].
  - etransitivity; [apply omap_length_le|]. rewrite length_take. lia.
  - intros block Hin. apply list_elem_of_omap in Hin as (file & Hfile & Hblock).
    unfold codeBlockOf in Hblock.
    destruct (Env.readFile env file) as [content|e] eqn:Hread; [|discriminate].
    injection Hblock as <-. exists file, content. auto.
  - generalize (take maxFiles (relevantFiles env rootPath)).
    induction l as [|file rest IH]; intros Hnone; [reflexivity|].
    simpl. unfold codeBlockOf at 1.
    destruct (Hnone file) as [e ->]; [apply elem_of_cons; now left|].
    apply IH. intros file' Hin. apply Hnone, elem_of_cons. now right.
Qed.

Lemma getCodeFiles_at_most_witness :
  getCodeFiles Cases.unreadableFirst "/r" 1 = [] /\
  relevantFiles Cases.unreadableFirst "/r" = ["/r/gone.js"; "/r/main.js"] /\
  length (getCodeFiles Cases.unreadableFirst "/r" 2) = 1%nat.
Proof.
  split; [|split; vm_compute; reflexivity].
  apply (proj2 (proj2 (proj2
           (getCodeFiles_at_most Cases.unreadableFirst "/r" 1)))).
  intros file Hin. vm_compute in Hin.
  apply list_elem_of_singleton in Hin. subst file.
  eexists. vm_compute. reflexivity.
Defined.

(** X15.  [getDirectoryStructure] has one [try] around its loop and
    returns the empty string from the [catch]: when [stat] fails on any
    of the first twenty entries of a directory, the listing of that
    whole directory is lost, the entries already rendered included. *)
Theorem getDirectoryStructure_stat_failure
        env rootPath maxDepth currentDepth items item e :
  (currentDepth <= maxDepth)%nat ->
  Env.readdir env rootPath = Ok items ->
  item ∈ JS.arraySlice items 0 20 ->
  Env.stat env (Env.pathJoin env rootPath item) = Err e ->
  getDirectoryStructure env rootPath maxDepth currentDepth = "".
Proof.
  intros Hdepth Hread Hin Hstat. unfold getDirectoryStructure.
  replace (maxDepth + 1 - currentDepth)%nat
    with (S (maxDepth - currentDepth)) by lia.
  cbn [getDirectoryStructureAt]. rewrite Hread.
  match goal with
  | |- match ?each ?first [] with _ => _ end = _ =>
      assert (Hgen : forall entries structure,
                 item ∈ entries ->
                 exists message, each entries structure = Err message);
      [|destruct (Hgen first [] Hin) as [message ->]; reflexivity]
  end.
  clear Hin. induction entries as [|entry rest IH]; intros structure Hin.
  - now apply elem_of_nil in Hin.
  - simpl.
    destruct (decide (entry = item)) as [->|Hne].
    + rewrite Hstat. now exists e.
    + apply elem_of_cons in Hin as [Heq|Hin]; [congruence|].
      destruct (Env.stat env (Env.pathJoin env rootPath entry)) as [stats|e'];
        [|now exists e'].
      destruct (Stats.isDirectory stats).
      * destruct (negb (JS.startsWith "." entry)
                  && negb (JS.startsWith "node_modules" entry));
          now apply IH.
      * destruct (Stats.isFile stats); [|now apply IH].
        destruct (JS.includes CODE_EXTENSIONS (Env.pathExtname env entry)
                  || String.eqb entry "package.json"
                  || String.eqb entry "README.md");
          now apply IH.
Qed.

Lemma getDirectoryStructure_stat_failure_witness :
  getDirectoryStructure Cases.danglingLink "/r" 2 0 = "".
Proof.
  apply (getDirectoryStructure_stat_failure Cases.danglingLink "/r" 2 0
           ["a.js"; "gone"; "b.js"] "gone"
           "ENOENT: no such file or directory, '/r/gone'").
  - lia.
  - reflexivity.
  - apply (bool_decide_unpack _). vm_compute. exact I.
  - reflexivity.
Defined.

(* ===================================================================== *)
(** ** Retriever and chat path: what they read and what they leave *)
(* ===================================================================== *)

Section ReadOnlyFacts.

Variable env : Env.t.

Lemma reads_initializeQdrant : keeps indexState (initializeQdrant env).
Proof.
  unfold initializeQdrant, loadConfig, qdrantGetCollections,
    qdrantCreateCollection, outage. keeps_tac.
Qed.

Lemma reads_initializeOpenAI config : keeps indexState (initializeOpenAI config).
Proof. unfold initializeOpenAI. keeps_tac. Qed.

Lemma reads_createEmbeddings texts : keeps indexState (createEmbeddings env texts).
Proof. unfold createEmbeddings. keeps_tac. Qed.

Lemma reads_qdrantSearch c v f l t : keeps indexState (qdrantSearch env c v f l t).
Proof. unfold qdrantSearch, outage, nullClient. keeps_tac. Qed.

Lemma reads_searchCodebase q cp limit :
  keeps indexState (searchCodebase env q cp limit).
Proof.
  unfold searchCodebase, loadConfig.
  apply keeps_tryCatch; [|intros e; keeps_tac].
  apply keeps_bind; [apply keeps_await|]. intros config.
  apply keeps_bind; [apply reads_initializeQdrant|]. intros _.
  apply keeps_bind; [apply reads_initializeOpenAI|]. intros _.
  apply keeps_bind; [apply reads_createEmbeddings|]. intros embeddings.
  cbv zeta.
  apply keeps_bind; [apply reads_qdrantSearch|]. intros found.
  apply keeps_ret.
Qed.

Lemma reads_getCodebaseContext cp : keeps indexState (getCodebaseContext env cp).
Proof. unfold getCodebaseContext. keeps_tac. Qed.

Lemma reads_getIndexedCodebaseContext q cp :
  keeps indexState (getIndexedCodebaseContext env q cp).
Proof.
  unfold getIndexedCodebaseContext.
  destruct (negb (JS.truthyOpt cp)); [apply keeps_ret|].
  apply keeps_tryCatch; [|intros e; keeps_tac].
  apply keeps_bind; [apply keeps_get|]. intros s0.
  destruct (negb _); [keeps_tac|].
  apply keeps_bind; [apply reads_searchCodebase|]. intros results.
  keeps_tac.
Qed.

Lemma reads_sendMessage config prompt cp persona indexed :
  keeps indexState (sendMessage env config prompt cp persona indexed).
Proof.
  unfold sendMessage, createClient.
  apply keeps_bind; [keeps_tac|]. intros client. cbv zeta.
  apply keeps_bind.
  - destruct (indexed && _);
      [apply reads_getIndexedCodebaseContext | apply keeps_ret].
  - intros ctx. apply keeps_bind.
    + destruct (negb _); [apply reads_getCodebaseContext | apply keeps_ret].
    + intros ctx'. keeps_tac.
Qed.

End ReadOnlyFacts.

(** X16.  Searching and chatting only read the index: whatever their
    outcome, [searchCodebase], both context builders and [sendMessage]
    leave the stored points, the set of indexed roots and the busy flag
    as they found them.  (They may create the clients and the
    collection, and write to the console.) *)
Theorem search_and_chat_read_only env s :
  (forall query codebasePath limit,
      indexState (snd (searchCodebase env query codebasePath limit s))
      = indexState s) /\
  (forall codebasePath,
      indexState (snd (getCodebaseContext env codebasePath s)) = indexState s) /\
  (forall query codebasePath,
      indexState (snd (getIndexedCodebaseContext env query codebasePath s))
      = indexState s) /\
  (forall config prompt codebasePath persona useIndexedSearch,
      indexState (snd (sendMessage env config prompt codebasePath persona
                         useIndexedSearch s))
      = indexState s).
Proof.
  repeat split; intros.
  - apply reads_searchCodebase.
  - apply reads_getCodebaseContext.
  - apply reads_getIndexedCodebaseContext.
  - apply reads_sendMessage.
Qed.

Section SearchStoreFacts.

Variable env : Env.t.

Lemma indexState_points s s' :
  indexState s' = indexState s -> storedPoints s' = storedPoints s.
Proof. unfold indexState. now intros [= -> _ _]. Qed.

Lemma searchPoints_source sim pts query f limit threshold sp :
  sp ∈ Qdrant.searchPoints sim pts query f limit threshold ->
  exists pt, pt ∈ pts /\
             ScoredPoint.payload sp = Point.payload pt /\
             ScoredPoint.score sp = sim query (Point.vector pt).
Proof.
  unfold Qdrant.searchPoints. intros H.
  apply (subseteq_take limit) in H. apply rank_elem in H.
  apply list_elem_of_filter in H as [_ H].
  apply list_elem_of_fmap in H as (pt & -> & Hpt).
  exists pt. auto.
Qed.

Lemma searchPoints_length sim pts query f limit threshold :
  (length (Qdrant.searchPoints sim pts query f limit threshold) <= limit)%nat.
Proof. unfold Qdrant.searchPoints. rewrite length_take. lia. Qed.

(** A search that answers has embedded the query and ranked the points
    stored when it was called. *)
Lemma searchCodebase_from_store q cp limit s results s' :
  searchCodebase env q cp limit s = (Ok results, s') ->
  exists embeddings query,
    Env.embeddingsCreate env [q] = Ok embeddings /\
    head embeddings = Some query /\
    results
    = map toSearchResult
          (Qdrant.searchPoints (Env.similarity env) (storedPoints s) query
             (scopeFilter cp) limit scoreThreshold).
Proof.
  unfold searchCodebase, tryCatch. intros H.
  match type of H with
  | (match ?body s with _ => _ end) = _ => destruct (body s) as [[r|e] s1] eqn:Hb
  end.
  2:{ cbn in H. discriminate. }
  inversion H; subst; clear H.
  apply bind_inv_ok in Hb as (config & s2 & H2 & Hb).
  apply bind_inv_ok in Hb as (? & s3 & H3 & Hb).
  apply bind_inv_ok in Hb as (? & s4 & H4 & Hb).
  apply bind_inv_ok in Hb as (embeddings & s5 & H5 & Hb).
  cbv zeta in Hb.
  apply bind_inv_ok in Hb as (searchResult & s6 & Hs & Hb).
  inversion Hb; subst; clear Hb.
  assert (Hpts : storedPoints s5 = storedPoints s).
  { assert (s2 = s) as -> by (inversion H2; reflexivity).
    pose proof (reads_initializeQdrant env s) as K3. rewrite H3 in K3.
    pose proof (reads_initializeOpenAI config s3) as K4.
    rewrite H4 in K4.
    pose proof (reads_createEmbeddings env [q] s4) as K5. rewrite H5 in K5.
    cbn [snd] in *.
    apply indexState_points in K3, K4, K5. congruence. }
  assert (Hemb : Env.embeddingsCreate env [q] = Ok embeddings).
  { destruct (openaiClient s4) eqn:Ho.
    - destruct (Env.embeddingsCreate env [q]) as [found|e] eqn:He.
      + rewrite (createEmbeddings_accepted env _ _ _ Ho He) in H5.
        now inversion H5.
      + rewrite (createEmbeddings_refused env _ _ _ Ho He) in H5.
        discriminate.
    - unfold createEmbeddings, bind, get in H5. rewrite Ho in H5.
      discriminate. }
  unfold qdrantSearch, bind, get, outage, nullClient in Hs.
  destruct (negb (qdrantClient s5)); [discriminate|].
  destruct (Env.qdrantOutage env _); [discriminate|].
  destruct (head embeddings) as [query|] eqn:Hhead; [|discriminate].
  inversion Hs; subst. exists embeddings, query.
  split; [exact Hemb|]. split; [exact Hhead|].
  unfold storedPoints in Hpts. now rewrite Hpts.
Qed.

End SearchStoreFacts.

(** X17.  What a search that answers returns: at most [limit] results;
    each quotes the payload of a point stored when the search was
    called; and each has a score of at least 0.7, the similarity of that
    point's vector to the embedding of the query. *)
Theorem searchCodebase_answers_from_store env query codebasePath limit s
        results s' :
  searchCodebase env query codebasePath limit s = (Ok results, s') ->
  (length results <= limit)%nat /\
  Forall
    (fun r =>
       QArith_base.Qle_bool scoreThreshold (SearchResult.score r) = true /\
       exists pt,
         pt ∈ storedPoints s /\
         SearchResult.filePath r = Payload.filePath (Point.payload pt) /\
         SearchResult.codeChunk r = Payload.codeChunk (Point.payload pt) /\
         SearchResult.startLine r = Payload.startLine (Point.payload pt) /\
         SearchResult.endLine r = Payload.endLine (Point.payload pt) /\
         SearchResult.codebasePath r
         = Payload.codebasePath (Point.payload pt))
    results.
Proof.
  intros H.
  apply searchCodebase_from_store in H as (embeddings & q & _ & _ & ->).
  split.
  - rewrite length_map. apply searchPoints_length.
  - apply Forall_forall. intros r Hr.
    apply list_elem_of_fmap in Hr as (sp & -> & Hsp).
    pose proof (searchPoints_admitted _ _ _ _ _ _ _ Hsp) as [_ Hscore].
    apply searchPoints_source in Hsp as (pt & Hpt & Hpay & _).
    split; [exact Hscore|].
    exists pt. unfold toSearchResult. cbn. rewrite Hpay. auto 10.
Qed.

Lemma searchCodebase_answers_from_store_witness :
  (length [ {| SearchResult.score := QArith_base.Qmake 9 10;
               SearchResult.filePath := "x.js";
               SearchResult.codeChunk := "let a";
               SearchResult.startLine := 1;
               SearchResult.endLine := 1;
               SearchResult.codebasePath := "/a" |} ] <= 10)%nat.
Proof.
  apply (proj1 (searchCodebase_answers_from_store Scenario.online "where"
                  (Some "/a") 10 Scenario.twoRoots _
                  (snd (searchCodebase Scenario.online "where" (Some "/a") 10
                          Scenario.twoRoots))
                  ltac:(vm_compute; reflexivity))).
Defined.

Section ChatFallbackFacts.

Variable env : Env.t.

Lemma getCodebaseContext_untouched cp s :
  snd (getCodebaseContext env cp s) = s.
Proof.
  unfold getCodebaseContext.
  destruct (negb (JS.truthyOpt cp)); reflexivity.
Qed.

Lemma createClient_cases config s :
  (exists client, createClient config s = (Ok client, s)) \/
  (exists message, createClient config s = (Err message, s)).
Proof.
  unfold createClient.
  repeat match goal with |- context [if ?b then _ else _] => destruct b end;
    [left | left | left | right]; eexists; reflexivity.
Qed.

Lemma createClient_same config s s0 :
  fst (createClient config s) = fst (createClient config s0).
Proof.
  unfold createClient.
  repeat match goal with |- context [if ?b then _ else _] => destruct b end;
    reflexivity.
Qed.

(** What follows the indexed lookup in [sendMessage] leaves the server
    as it is. *)
Lemma sendMessage_rest_untouched config prompt scope persona ctx0 s :
  snd ((let* codebaseContext :=
          if negb (JS.truthy ctx0) then getCodebaseContext env scope
          else ret ctx0 in
        let fullPrompt := getPersonaPrompt persona codebaseContext prompt in
        tryCatch
          (await (Env.chatComplete env (Config.provider config)
                    (Config.model config) (Config.maxTokens config)
                    (Config.temperature config) fullPrompt))
          (fun message => throw ("AI request failed: " +:+ message))) s)
  = s.
Proof.
  unfold bind.
  assert (Hctx : exists r,
             (if negb (JS.truthy ctx0) then getCodebaseContext env scope
              else ret ctx0) s = (r, s)).
  { destruct (negb (JS.truthy ctx0)).
    - pose proof (getCodebaseContext_untouched scope s) as H.
      destruct (getCodebaseContext env scope s) as [r s1]. cbn in H. subst s1.
      now exists r.
    - eexists. reflexivity. }
  destruct Hctx as [[ctx|e] ->]; [|reflexivity].
  cbv zeta. unfold tryCatch, await.
  destruct (Env.chatComplete env _ _ _ _ _); reflexivity.
Qed.

Lemma getIndexedCodebaseContext_not_indexed q root s :
  JS.truthy root = true ->
  root ∉ indexedCodebases s ->
  getIndexedCodebaseContext env q (Some root) s
  = (Ok "", snd (consoleWrite ("⚠️ Codebase not indexed: " +:+ root) s)).
Proof.
  intros Ht Hnot. unfold getIndexedCodebaseContext.
  cbn [JS.truthyOpt]. rewrite Ht. cbn [negb].
  unfold tryCatch, bind at 1, get.
  change (rootOf (Some root)) with root.
  rewrite bool_decide_eq_false_2 by exact Hnot. reflexivity.
Qed.

End ChatFallbackFacts.

(** X18.  Asking for indexed search on a root that is not in the set of
    indexed roots costs one console line and nothing else: no client is
    created, no embedding is requested, the store is not consulted, and
    the reply is the one the chat would give without indexed search. *)
Theorem sendMessage_unindexed_root_falls_back
        env config prompt codebasePath persona root s :
  JS.orElse codebasePath (Config.codebasePath config) = Some root ->
  JS.truthy root = true ->
  root ∉ indexedCodebases s ->
  fst (sendMessage env config prompt codebasePath persona true s)
  = fst (sendMessage env config prompt codebasePath persona false s) /\
  sameButConsole s
    (snd (sendMessage env config prompt codebasePath persona true s)) /\
  (forall client,
      fst (createClient config s) = Ok client ->
      console (snd (sendMessage env config prompt codebasePath persona true s))
      = console s ++ ["⚠️ Codebase not indexed: " +:+ root]).
Proof.
  intros Hscope Ht Hnot. unfold sendMessage.
  destruct (createClient_cases config s) as [[client Hc] | [message Hc]].
  2:{ rewrite !(bind_err _ _ _ _ _ Hc). rewrite Hc.
      split; [reflexivity|]. split; [apply sameButConsole_refl|].
      intros client H. discriminate. }
  rewrite !(bind_ok _ _ _ _ _ Hc). cbv zeta.
  rewrite Hscope. cbn [JS.truthyOpt andb]. rewrite Ht.
  rewrite (bind_ok _ _ _ _ _
             (getIndexedCodebaseContext_not_indexed env prompt root s Ht Hnot)).
  rewrite (bind_ok _ _ _ _ _ (eq_refl : ret "" s = (Ok "", s))).
  set (s1 := snd (consoleWrite _ s)).
  split; [apply (sendMessage_rest_stateless env config prompt (Some root)
                   persona "" s1 s)|].
  pose proof (sendMessage_rest_untouched env config prompt (Some root)
                persona "" s1) as Hrest.
  match goal with
  | |- sameButConsole s (snd ?t) /\ _ =>
      assert (Hfinal : snd t = s1) by exact Hrest; rewrite Hfinal
  end.
  split; [apply sameButConsole_write|].
  intros _ _. reflexivity.
Qed.

Lemma sendMessage_unindexed_root_falls_back_witness :
  fst (sendMessage Scenario.packageAndMain Scenario.defaultConfig "what?"
         (Some "/proj") "developer" true initialServer)
  = fst (sendMessage Scenario.packageAndMain Scenario.defaultConfig "what?"
           (Some "/proj") "developer" false initialServer) /\
  console (snd (sendMessage Scenario.packageAndMain Scenario.defaultConfig
                  "what?" (Some "/proj") "developer" true initialServer))
  = ["⚠️ Codebase not indexed: /proj"].
Proof.
  destruct (sendMessage_unindexed_root_falls_back Scenario.packageAndMain
              Scenario.defaultConfig "what?" (Some "/proj") "developer"
              "/proj" initialServer)
    as (Hreply & _ & Hconsole).
  - reflexivity.
  - reflexivity.
  - simpl. apply not_elem_of_empty.
  - split; [exact Hreply|]. eapply Hconsole. vm_compute. reflexivity.
Defined.

(** X19.  Without indexed search the chat path does not touch the
    server: [sendMessage] returns the server it was given, console
    included, and its outcome does not depend on that server. *)
Theorem sendMessage_plain_is_pure env config prompt codebasePath persona s s0 :
  snd (sendMessage env config prompt codebasePath persona false s) = s /\
  fst (sendMessage env config prompt codebasePath persona false s)
  = fst (sendMessage env config prompt codebasePath persona false s0).
Proof.
  unfold sendMessage.
  destruct (createClient_cases config s) as [[client Hc] | [message Hc]];
    destruct (createClient_cases config s0) as [[client0 Hc0] | [message0 Hc0]];
    try (pose proof (createClient_same config s s0) as Hsame;
         rewrite Hc, Hc0 in Hsame; discriminate).
  2:{ rewrite (bind_err _ _ _ _ _ Hc), (bind_err _ _ _ _ _ Hc0).
      pose proof (createClient_same config s s0) as Hsame.
      rewrite Hc, Hc0 in Hsame. cbn in Hsame. injection Hsame as ->.
      split; reflexivity. }
  rewrite (bind_ok _ _ _ _ _ Hc), (bind_ok _ _ _ _ _ Hc0). cbv zeta.
  cbn [andb].
  rewrite (bind_ok _ _ _ _ _ (eq_refl : ret "" s = (Ok "", s))).
  rewrite (bind_ok _ _ _ _ _ (eq_refl : ret "" s0 = (Ok "", s0))).
  split.
  - apply (sendMessage_rest_untouched env config prompt _ persona "" s).
  - apply (sendMessage_rest_stateless env config prompt _ persona "" s s0).
Qed.

(* ===================================================================== *)
(** ** Clearing a root *)
(* ===================================================================== *)

Section ClearIndexFacts.

Variable env : Env.t.

Lemma passes_rootFilter root payload :
  Qdrant.passes (Some (rootFilter root)) payload
  = String.eqb (Payload.codebasePath payload) root.
Proof. cbn. apply andb_true_r. Qed.

Lemma deletePoints_rootFilter root pts :
  Qdrant.deletePoints (rootFilter root) pts
  = filter (fun pt => Payload.codebasePath (Point.payload pt) <> root) pts.
Proof.
  unfold Qdrant.deletePoints. apply list_filter_iff. intros pt.
  rewrite passes_rootFilter.
  destruct (String.eqb_spec (Payload.codebasePath (Point.payload pt)) root);
    cbn; intuition.
Qed.

Lemma qdrantDelete_cases c f s :
  (exists s', qdrantDelete env c f s = (Ok tt, s') /\
              storedPoints s' = Qdrant.deletePoints f (storedPoints s) /\
              registry s' = registry s) \/
  (exists e, qdrantDelete env c f s = (Err e, s)).
Proof.
  unfold qdrantDelete, bind, get, outage, nullClient.
  destruct (negb (qdrantClient s)); [right; eexists; reflexivity|].
  destruct (Env.qdrantOutage env _); [right; eexists; reflexivity|].
  left. eexists. split; [reflexivity|]. split; reflexivity.
Qed.

Lemma clearIndex_store cp s :
  (exists root s',
      clearIndex env cp s = (Ok root, s') /\
      Env.decodeURIComponent env cp = Ok root /\
      storedPoints s'
      = Qdrant.deletePoints (rootFilter root) (storedPoints s) /\
      indexedCodebases s' = indexedCodebases s ∖ {[ root ]} /\
      isIndexing s' = isIndexing s) \/
  (exists e s', clearIndex env cp s = (Err e, s') /\
                indexState s' = indexState s).
Proof.
  unfold clearIndex, tryCatch.
  destruct (Env.decodeURIComponent env cp) as [root|e] eqn:Hd.
  2:{ right. rewrite (bind_err _ _ _ _ _ (eq_refl : await (Err e) s = (Err e, s))).
      eexists e, _. split; reflexivity. }
  rewrite (bind_ok _ _ _ _ _ (eq_refl : await (Ok root) s = (Ok root, s))).
  rewrite (bind_ok _ _ _ _ _ (eq_refl : get s = (Ok s, s))).
  set (init := if negb (qdrantClient s) then initializeQdrant env else ret tt).
  assert (Hk1 : indexState (snd (init s)) = indexState s).
  { subst init. destruct (negb (qdrantClient s));
      [apply reads_initializeQdrant | reflexivity]. }
  destruct (init s) as [[[]|e] s1] eqn:Hinit; cbn [snd] in Hk1.
  2:{ right. rewrite (bind_err _ _ _ _ _ Hinit). eexists e, _.
      split; [reflexivity|]. exact Hk1. }
  rewrite (bind_ok _ _ _ _ _ Hinit).
  match goal with |- context [bind (qdrantDelete env ?c ?f) _ s1] =>
    destruct (qdrantDelete_cases c f s1)
      as [(s2 & Hdel & Hpts & Hreg) | (e & Hdel)]
  end.
  2:{ right. rewrite (bind_err _ _ _ _ _ Hdel). eexists e, _.
      split; [reflexivity|]. exact Hk1. }
  left. rewrite (bind_ok _ _ _ _ _ Hdel). eexists root, _.
  split; [reflexivity|]. split; [reflexivity|].
  apply registry_eq in Hreg as [Hflag Hset].
  unfold indexState in Hk1. injection Hk1 as Hp1 Hs1 Hf1.
  cbn. unfold storedPoints in *. unfold rootFilter.
  change (Qdrant.points (qdrant (setIndexedCodebases _ s2)))
    with (Qdrant.points (qdrant s2)).
  rewrite Hpts, Hp1, Hset, Hs1. split; [reflexivity|].
  split; [reflexivity | congruence].
Qed.

End ClearIndexFacts.

(** X20.  Clearing a root is all or nothing.  When the route answers
    with the decoded root, the store holds exactly the points it held
    whose root is another one, in their order, and the root has left the
    set of indexed roots; when it fails, whether in decoding, in
    connecting or in the deletion, the stored points, the set of
    indexed roots and the busy flag are what they were. *)
Theorem clearIndex_all_or_nothing env codebasePath s :
  match fst (clearIndex env codebasePath s) with
  | Ok root =>
      Env.decodeURIComponent env codebasePath = Ok root /\
      storedPoints (snd (clearIndex env codebasePath s))
      = filter (fun pt => Payload.codebasePath (Point.payload pt) <> root)
               (storedPoints s) /\
      indexedCodebases (snd (clearIndex env codebasePath s))
      = indexedCodebases s ∖ {[ root ]}
  | Err _ =>
      indexState (snd (clearIndex env codebasePath s)) = indexState s
  end.
Proof.
  destruct (clearIndex_store env codebasePath s)
    as [(root & s' & -> & Hd & Hpts & Hset & _) | (e & s' & -> & Hsame)];
    cbn [fst snd].
  - rewrite <- deletePoints_rootFilter. auto.
  - exact Hsame.
Qed.

(** X21.  After a root has been cleared, a search scoped to it that
    answers finds nothing, in whatever environment it runs, and the
    root is no longer counted as indexed. *)
Theorem search_after_clear_finds_nothing
        env env' codebasePath s root s' query limit results s'' :
  clearIndex env codebasePath s = (Ok root, s') ->
  JS.truthy root = true ->
  searchCodebase env' query (Some root) limit s' = (Ok results, s'') ->
  results = [] /\ root ∉ indexedCodebases s'.
Proof.
  intros Hclear Ht Hsearch.
  destruct (clearIndex_store env codebasePath s)
    as [(root0 & s0 & Heq & _ & Hpts & Hset & _) | (e & s0 & Heq & _)];
    rewrite Heq in Hclear; [|discriminate].
  injection Hclear as -> ->.
  split.
  2:{ rewrite Hset. intros Hin. apply elem_of_difference in Hin as [_ Hn].
      apply Hn. now apply elem_of_singleton. }
  apply searchCodebase_from_store in Hsearch as (embeddings & q & _ & _ & ->).
  rewrite (scopeFilter_truthy root Ht).
  match goal with
  | |- map _ ?found = [] => destruct found as [|sp rest] eqn:Hfound
  end; [reflexivity|].
  exfalso.
  assert (Hsp : sp ∈ sp :: rest) by (apply elem_of_cons; now left).
  rewrite <- Hfound in Hsp.
  pose proof (searchPoints_admitted _ _ _ _ _ _ _ Hsp) as [Hpass _].
  apply passes_scope in Hpass.
  apply searchPoints_source in Hsp as (pt & Hpt & Hpay & _).
  rewrite Hpts, deletePoints_rootFilter in Hpt.
  apply list_elem_of_filter in Hpt as [Hne _].
  apply Hne. now rewrite <- Hpay.
Qed.

Lemma search_after_clear_finds_nothing_witness :
  @nil SearchResult.t = [] /\
  "/a" ∉ indexedCodebases (snd (clearIndex Scenario.online "/a" Scenario.twoRoots)).
Proof.
  apply (search_after_clear_finds_nothing Scenario.online Scenario.online
           "/a" Scenario.twoRoots "/a" _ "where" 10 []
           (snd (searchCodebase Scenario.online "where" (Some "/a") 10
                   (snd (clearIndex Scenario.online "/a" Scenario.twoRoots))))).
  - reflexivity.
  - reflexivity.
  - vm_compute. reflexivity.
Defined.

(* ===================================================================== *)
(** ** The routes *)
(* ===================================================================== *)

Section RouteFacts.

Variable env : Env.t.

Lemma tryCatch_ok {A} (m : M A) handler s a s' :
  m s = (Ok a, s') -> tryCatch m handler s = (Ok a, s').
Proof. intros H. unfold tryCatch. now rewrite H. Qed.

Lemma tryCatch_err {A} (m : M A) handler s e s' :
  m s = (Err e, s') -> tryCatch m handler s = handler e s'.
Proof. intros H. unfold tryCatch. now rewrite H. Qed.

(** The four ways a call of [indexCodebase] can end. *)
Lemma indexCodebase_outcomes p s :
  (indexCodebase env p s = (Err "Indexing already in progress", s) /\
   isIndexing s = true) \/
  (indexCodebase env p s = (Err "Codebase path is required", s) /\
   isIndexing s = false /\ JS.truthyOpt p = false) \/
  (isIndexing s = false /\ JS.truthyOpt p = true /\
   exists s',
     isIndexing s' = false /\
     ((exists r, indexCodebase env p s = (Ok r, s') /\
                 indexedCodebases s' = {[ rootOf p ]} ∪ indexedCodebases s) \/
      (exists e, indexCodebase env p s = (Err e, s') /\
                 indexedCodebases s' = indexedCodebases s))).
Proof.
  rewrite indexCodebase_split.
  destruct (indexCodebaseEnter_shape p s)
    as [[He Hb] | [[He [Hi Hf]] | (s1 & He & Hi & Ht & Hb1 & Hs1)]].
  - left. rewrite (bind_err _ _ _ _ _ He). auto.
  - right. left. rewrite (bind_err _ _ _ _ _ He). auto.
  - right. right. rewrite (bind_ok _ _ _ _ _ He).
    split; [exact Hi|]. split; [exact Ht|].
    destruct (indexCodebaseResume_shape env (rootOf p) s1)
      as [(e & s' & Hr & Hb' & Hs' & _) | (t & s' & Hr & Hb' & Hs')];
      exists s'; (split; [exact Hb'|]).
    + right. exists e. split; [exact Hr | congruence].
    + left. eexists. split; [exact Hr | congruence].
Qed.

End RouteFacts.

Section IndexRouteFacts.

Variable env : Env.t.

(** The route, branch by branch. *)
Lemma postIndex_run codebasePath s :
  postIndex env codebasePath s
  = if negb (JS.truthyOpt codebasePath) then
      (Ok {| Http.status := 400;
             Http.body := Http.Failure "Codebase path is required" |}, s)
    else if negb (JS.truthyOpt (Config.openaiApiKey (Env.configFile env))) then
      (Ok {| Http.status := 500;
             Http.body :=
               Http.Failure
                 "OpenAI API key is required for indexing. Please set openaiApiKey in config." |},
       s)
    else
      match indexCodebase env codebasePath
              (snd (consoleWrite
                      ("🚀 Indexing request for: " +:+ rootOf codebasePath) s)) with
      | (Ok result, s') =>
          (Ok {| Http.status := 200; Http.body := Http.Indexed result |}, s')
      | (Err message, s') =>
          (Ok {| Http.status := 500; Http.body := Http.Failure message |},
           snd (consoleWrite ("❌ Indexing error: " +:+ message) s'))
      end.
Proof.
  unfold postIndex.
  destruct (JS.truthyOpt codebasePath); cbn [negb]; [|reflexivity].
  unfold loadConfig, tryCatch, bind at 1, await. cbv beta iota.
  destruct (JS.truthyOpt (Config.openaiApiKey (Env.configFile env)));
    cbn [negb]; [|reflexivity].
  set (line := "🚀 Indexing request for: " +:+ rootOf codebasePath).
  rewrite (bind_ok _ _ _ _ _
             (eq_refl : consoleWrite line s
                        = (Ok tt, snd (consoleWrite line s)))).
  unfold bind.
  destruct (indexCodebase env codebasePath (snd (consoleWrite line s)))
    as [[result|message] s']; reflexivity.
Qed.

End IndexRouteFacts.

(** X22.  [POST /index] always answers, with 200, 400 or 500, and it
    shields the indexer.  Without a path it answers 400 "Codebase path
    is required", and with a path but no embedding key in the
    configuration 500 with the missing-key message; in both cases the
    server is left exactly as it was, so the indexer is never run
    without a key.  Otherwise it logs the request and runs
    [indexCodebase]: a result is answered 200 with that result, an
    error 500 with the error's message.  It answers 200 only when no run
    was in flight, and then the root is in the set of indexed roots and
    the busy flag is down again.  While a run is in flight a request is
    answered 500 "Indexing already in progress", and the stored points,
    the set of indexed roots and the flag stay put. *)
Theorem postIndex_shields_indexer env codebasePath s :
  let key := JS.truthyOpt (Config.openaiApiKey (Env.configFile env)) in
  let entered :=
    snd (consoleWrite ("🚀 Indexing request for: " +:+ rootOf codebasePath) s) in
  (JS.truthyOpt codebasePath = false ->
   postIndex env codebasePath s
   = (Ok {| Http.status := 400;
            Http.body := Http.Failure "Codebase path is required" |}, s)) /\
  (JS.truthyOpt codebasePath = true -> key = false ->
   postIndex env codebasePath s
   = (Ok {| Http.status := 500;
            Http.body :=
              Http.Failure
                "OpenAI API key is required for indexing. Please set openaiApiKey in config." |},
      s)) /\
  (JS.truthyOpt codebasePath = true -> key = true ->
   fst (postIndex env codebasePath s)
   = match fst (indexCodebase env codebasePath entered) with
     | Ok result =>
         Ok {| Http.status := 200; Http.body := Http.Indexed result |}
     | Err message =>
         Ok {| Http.status := 500; Http.body := Http.Failure message |}
     end) /\
  (JS.truthyOpt codebasePath = true -> key = true -> isIndexing s = true ->
   fst (postIndex env codebasePath s)
   = Ok {| Http.status := 500;
           Http.body := Http.Failure "Indexing already in progress" |} /\
   indexState (snd (postIndex env codebasePath s)) = indexState s) /\
  (forall response,
      fst (postIndex env codebasePath s) = Ok response ->
      Http.status response = 200%nat ->
      JS.truthyOpt codebasePath = true /\ key = true /\
      isIndexing s = false /\
      isIndexing (snd (postIndex env codebasePath s)) = false /\
      rootOf codebasePath ∈ indexedCodebases (snd (postIndex env codebasePath s))) /\
  (exists response,
      fst (postIndex env codebasePath s) = Ok response /\
      (Http.status response = 200%nat \/ Http.status response = 400%nat \/
       Http.status response = 500%nat)).
Proof.
  intros key entered. subst key. rewrite (postIndex_run env codebasePath s).
  destruct (JS.truthyOpt codebasePath) eqn:Hpath; cbn [negb].
  2:{ split; [reflexivity|]. split; [discriminate|]. split; [discriminate|].
      split; [discriminate|]. split.
      - intros response [= <-] Hstatus. discriminate.
      - eexists. split; [reflexivity|]. cbn. auto. }
  destruct (JS.truthyOpt (Config.openaiApiKey (Env.configFile env))) eqn:Hkey;
    cbn [negb].
  2:{ split; [discriminate|]. split; [reflexivity|]. split; [discriminate|].
      split; [discriminate|]. split.
      - intros response [= <-] Hstatus. discriminate.
      - eexists. split; [reflexivity|]. cbn. auto. }
  fold entered.
  split; [discriminate|]. split; [discriminate|].
  destruct (indexCodebase_outcomes env codebasePath entered)
    as [[Hrun Hbusy] | [[Hrun [_ Hfalsy]] | (Hidle & _ & s2 & Hdown & Hend)]].
  - rewrite Hrun. cbn [fst snd].
    split; [reflexivity|]. split; [split; reflexivity|]. split.
    + intros response [= <-] Hstatus. discriminate.
    + eexists. split; [reflexivity|]. cbn. auto.
  - congruence.
  - change (isIndexing entered) with (isIndexing s) in Hidle.
    destruct Hend as [(r & Hrun & Hset) | (e & Hrun & Hset)];
      rewrite Hrun; cbn [fst snd].
    + split; [reflexivity|]. split; [congruence|]. split.
      * intros response _ _. repeat (split; [easy|]).
        rewrite Hset. apply elem_of_union. left. now apply elem_of_singleton.
      * eexists. split; [reflexivity|]. cbn. auto.
    + split; [reflexivity|]. split; [congruence|]. split.
      * intros response [= <-] Hstatus. discriminate.
      * eexists. split; [reflexivity|]. cbn. auto.
Qed.

Lemma postIndex_shields_indexer_witness :
  postIndex Scenario.mixedRepo None initialServer
  = (Ok {| Http.status := 400;
           Http.body := Http.Failure "Codebase path is required" |},
     initialServer) /\
  postIndex Cases.mixedRepoNoKey (Some "/repo") initialServer
  = (Ok {| Http.status := 500;
           Http.body :=
             Http.Failure
               "OpenAI API key is required for indexing. Please set openaiApiKey in config." |},
     initialServer) /\
  (fst (postIndex Scenario.mixedRepo (Some "/repo")
          (setIsIndexing true initialServer))
   = Ok {| Http.status := 500;
           Http.body := Http.Failure "Indexing already in progress" |} /\
   indexState (snd (postIndex Scenario.mixedRepo (Some "/repo")
                      (setIsIndexing true initialServer)))
   = indexState (setIsIndexing true initialServer)) /\
  (isIndexing (snd (postIndex Scenario.mixedRepo (Some "/repo") initialServer))
   = false /\
   "/repo" ∈ indexedCodebases
               (snd (postIndex Scenario.mixedRepo (Some "/repo") initialServer))).
Proof.
  split; [|split; [|split]].
  - apply (proj1 (postIndex_shields_indexer Scenario.mixedRepo None
                    initialServer)).
    reflexivity.
  - apply (proj1 (proj2 (postIndex_shields_indexer Cases.mixedRepoNoKey
                           (Some "/repo") initialServer)));
      reflexivity.
  - apply (proj1 (proj2 (proj2 (proj2
             (postIndex_shields_indexer Scenario.mixedRepo (Some "/repo")
                (setIsIndexing true initialServer))))));
      reflexivity.
  - destruct (proj1 (proj2 (proj2 (proj2 (proj2
                (postIndex_shields_indexer Scenario.mixedRepo (Some "/repo")
                   initialServer)))))
                {| Http.status := 200;
                   Http.body :=
                     Http.Indexed {| IndexResult.totalChunks := 1;
                                     IndexResult.processedFiles := 3 |} |})
      as (_ & _ & _ & Hflag & Hroot).
    + vm_compute. reflexivity.
    + reflexivity.
    + split; [exact Hflag | exact Hroot].
Defined.

Section SearchRouteFacts.

Variable env : Env.t.

Lemma postSearch_run query codebasePath limit s :
  exists response s',
    postSearch env query codebasePath limit s = (Ok response, s') /\
    indexState s' = indexState s /\
    match Http.body response with
    | Http.Found q results scope used total =>
        Http.status response = 200%nat /\
        query = Some q /\ JS.truthy q = true /\
        scope = codebasePath /\
        used = default 10%nat limit /\
        total = length results /\
        (total <= used)%nat
    | Http.Failure message =>
        (Http.status response = 400%nat /\ JS.truthyOpt query = false) \/
        Http.status response = 500%nat
    | Http.Indexed _ => False
    end.
Proof.
  unfold postSearch. cbv zeta.
  destruct query as [q|]; cbn [JS.truthyOpt].
  2:{ eexists _, _. split; [reflexivity|]. split; [reflexivity|]. cbn. auto. }
  change (default "" (Some q)) with q.
  destruct (JS.truthy q) eqn:Hq; cbn [negb].
  2:{ eexists _, _. split; [reflexivity|]. split; [reflexivity|]. cbn. auto. }
  unfold loadConfig, tryCatch, bind at 1, await. cbv beta iota.
  destruct (JS.truthyOpt (Config.openaiApiKey (Env.configFile env))); cbn [negb].
  2:{ eexists _, _. split; [reflexivity|]. split; [reflexivity|]. cbn. auto. }
  set (s1 := snd (consoleWrite ("🔍 Search request: " +:+ q) s)).
  rewrite (bind_ok _ _ _ _ _
             (eq_refl : consoleWrite ("🔍 Search request: " +:+ q) s
                        = (Ok tt, s1))).
  set (note := if JS.truthyOpt codebasePath
               then consoleWrite ("📁 Codebase: " +:+ rootOf codebasePath)
               else ret tt).
  assert (Hnote : exists s2, note s1 = (Ok tt, s2) /\
                             indexState s2 = indexState s).
  { subst note. destruct (JS.truthyOpt codebasePath);
      eexists; split; reflexivity. }
  destruct Hnote as (s2 & Hnote & Hsame2).
  rewrite (bind_ok _ _ _ _ _ Hnote). unfold bind.
  pose proof (reads_searchCodebase env q codebasePath (default 10%nat limit) s2)
    as Hread.
  destruct (searchCodebase env q codebasePath (default 10%nat limit) s2)
    as [[results|message] s3] eqn:Hsearch; cbn [snd] in Hread.
  - eexists _, _. split; [reflexivity|]. cbn [Http.body Http.status].
    split; [congruence|].
    apply searchCodebase_from_store in Hsearch as (? & ? & _ & _ & ->).
    rewrite !length_map.
    repeat split; try reflexivity; [exact Hq | apply searchPoints_length].
  - eexists _, _. split; [reflexivity|]. cbn [Http.body Http.status].
    split; [|now right].
    change (indexState s3 = indexState s). congruence.
Qed.

End SearchRouteFacts.

(** X23.  [POST /search] always answers and only reads the index.  A
    body with results has status 200, repeats the query, the scope and
    the limit that was used (10 when the request names none), and
    counts the results, which are never more than that limit; every
    other answer is an error with status 400, for a missing query, or
    500. *)
Theorem postSearch_answers env query codebasePath limit s :
  exists response,
    fst (postSearch env query codebasePath limit s) = Ok response /\
    indexState (snd (postSearch env query codebasePath limit s)) = indexState s /\
    match Http.body response with
    | Http.Found q results scope used total =>
        Http.status response = 200%nat /\
        query = Some q /\ JS.truthy q = true /\
        scope = codebasePath /\
        used = default 10%nat limit /\
        total = length results /\
        (total <= used)%nat
    | Http.Failure message =>
        (Http.status response = 400%nat /\ JS.truthyOpt query = false) \/
        Http.status response = 500%nat
    | Http.Indexed _ => False
    end.
Proof.
  destruct (postSearch_run env query codebasePath limit s)
    as (response & s' & Hrun & Hsame & Hbody).
  exists response. rewrite Hrun. auto.
Qed.

Lemma postSearch_answers_witness :
  fst (postSearch Scenario.online None (Some "/a") None Scenario.twoRoots)
  = Ok {| Http.status := 400; Http.body := Http.Failure "Query is required" |}.
Proof.
  destruct (postSearch_answers Scenario.online None (Some "/a") None
              Scenario.twoRoots) as (response & Hresp & _).
  reflexivity.
Defined.
